(** * C3D: a shallow embedding of the rendering core of c3d.h

    The development follows the single-header renderer: linear algebra,
    near-plane clipping, back-face culling, Blinn-Phong shading, texture
    sampling, the rasterizer, the smooth-normal pass and the per-frame
    driver [c3d_update].

    Numeric model.  A C [float] is read as an exact rational number
    ([Q]): every arithmetic operator is the exact one, the comparison
    operators are the decidable comparisons of [Q], and there is neither
    NaN nor infinity (the depth buffer, the only place where the code
    stores [INFINITY], has its own type).  Division by zero, which yields
    an infinity or a NaN in C, is [Qdiv]'s [0]; the statements below say
    where a divisor is known to be non-zero.  The functions of the C
    mathematical library ([sqrt], [sqrtf], [powf], [tanf]) are not part of
    the program: they are variables of the section that holds the
    pipeline.  C integers are [Z]; a 32-bit result is wrapped explicitly
    ([to_uint32], [to_int32]). *)

From Stdlib Require Import String ZArith QArith Qround Qabs Qminmax.
From Stdlib Require Import List Bool Lia Lqa.
Import ListNotations.

Open Scope Q_scope.

(** ** C scalars *)

(** The relational operators of C on idealised floats. *)
Definition Qgeb (a b : Q) : bool := Qle_bool b a.          (* a >= b *)
Definition Qgtb (a b : Q) : bool := negb (Qle_bool a b).   (* a >  b *)
Definition Qltb (a b : Q) : bool := negb (Qle_bool b a).   (* a <  b *)
Definition Qleb (a b : Q) : bool := Qle_bool a b.          (* a <= b *)
Definition Qeqb (a b : Q) : bool := Qeq_bool a b.          (* a == b *)

(** [(int)f]: conversion of a float to [int] truncates toward zero. *)
Definition Qtrunc (q : Q) : Z := Z.quot (Qnum q) (Zpos (Qden q)).

(** 32-bit integers: [unsigned int] arithmetic is modulo 2^32, and the
    conversion of an out-of-range value to [int] wraps. *)
Definition to_uint32 (n : Z) : Z := (n mod 2 ^ 32)%Z.
Definition to_int32 (n : Z) : Z := ((n + 2 ^ 31) mod 2 ^ 32 - 2 ^ 31)%Z.
Definition INT_MAX : Z := (2 ^ 31 - 1)%Z.

(** [min] and [max] of <windows.h>, and the macros of c3d.h. *)
Definition max (a b : Q) : Q := if Qgtb a b then a else b.
Definition min (a b : Q) : Q := if Qltb a b then a else b.
Definition C3D_MAX (a b c : Q) : Q := max (max a b) c.
Definition C3D_MIN (a b c : Q) : Q := min (min a b) c.
Definition C3D_CLAMP (var x y : Q) : Q :=
  if Qgtb var y then y else if Qltb var x then x else var.
Definition C3D_PI : Q := 314159265358979323846 # 100000000000000000000.
Definition C3D_DEG2RAD (x : Q) : Q := x * C3D_PI / 180.

(** [RGB], [GetRValue], [GetGValue], [GetBValue] of <wingdi.h>: a
    COLORREF packs three bytes as 0x00bbggrr. *)
Definition BYTE (n : Z) : Z := Z.land n 255.
Definition RGB (r g b : Z) : Z :=
  Z.lor (Z.lor (BYTE r) (Z.shiftl (BYTE g) 8)) (Z.shiftl (BYTE b) 16).
Definition GetRValue (c : Z) : Z := BYTE c.
Definition GetGValue (c : Z) : Z := BYTE (Z.shiftr c 8).
Definition GetBValue (c : Z) : Z := BYTE (Z.shiftr c 16).

(** ** Vectors, matrices, vertices and triangles *)

Record vec2 := mkvec2 { x2 : Q; y2 : Q }.
Record vec3 := mkvec3 { x3 : Q; y3 : Q; z3 : Q }.
Record vec4 := mkvec4 { x4 : Q; y4 : Q; z4 : Q; w4 : Q }.

(** A vertex in clip space with the attributes it carries. *)
Record vex := mkvex { clip : vec4; space : vec3; normal : vec3; uv : vec2 }.

(** [float m[4][4]], row-major. *)
Record mat4 := mkmat4 {
  m00 : Q; m01 : Q; m02 : Q; m03 : Q;
  m10 : Q; m11 : Q; m12 : Q; m13 : Q;
  m20 : Q; m21 : Q; m22 : Q; m23 : Q;
  m30 : Q; m31 : Q; m32 : Q; m33 : Q }.

(** [M.m[i][j]] and the matrix whose entry (i,j) is [f i j]. *)
Definition mat4_at (M : mat4) (i j : nat) : Q :=
  match i, j with
  | O, O => m00 M | O, 1%nat => m01 M | O, 2%nat => m02 M | O, 3%nat => m03 M
  | 1%nat, O => m10 M | 1%nat, 1%nat => m11 M | 1%nat, 2%nat => m12 M | 1%nat, 3%nat => m13 M
  | 2%nat, O => m20 M | 2%nat, 1%nat => m21 M | 2%nat, 2%nat => m22 M | 2%nat, 3%nat => m23 M
  | 3%nat, O => m30 M | 3%nat, 1%nat => m31 M | 3%nat, 2%nat => m32 M | 3%nat, 3%nat => m33 M
  | _, _ => 0
  end.

Definition mat4_of (f : nat -> nat -> Q) : mat4 :=
  (mkmat4 (f 0 0) (f 0 1) (f 0 2) (f 0 3)
         (f 1 0) (f 1 1) (f 1 2) (f 1 3)
         (f 2 0) (f 2 1) (f 2 2) (f 2 3)
         (f 3 0) (f 3 1) (f 3 2) (f 3 3))%nat.

Record tri := mktri {
  vx : vec3; vy : vec3; vz : vec3;
  uvx : vec2; uvy : vec2; uvz : vec2;
  nvx : vec3; nvy : vec3; nvz : vec3 }.

Definition vec2_0 : vec2 := mkvec2 0 0.
Definition vec3_0 : vec3 := mkvec3 0 0 0.
Definition vec4_0 : vec4 := mkvec4 0 0 0 0.
Definition vex_0 : vex := mkvex vec4_0 vec3_0 vec3_0 vec2_0.

(** ** Linear algebra *)

Definition c3d_mat4tra (x y z : Q) : mat4 :=
  mkmat4 1 0 0 x
         0 1 0 y
         0 0 1 z
         0 0 0 1.

Definition c3d_mat4scl (x y z : Q) : mat4 :=
  mkmat4 x 0 0 0
         0 y 0 0
         0 0 z 0
         0 0 0 1.

Definition c3d_mat4mul (A B : mat4) : mat4 :=
  mat4_of (fun i j =>
    mat4_at A i 0 * mat4_at B 0 j + mat4_at A i 1 * mat4_at B 1 j
    + mat4_at A i 2 * mat4_at B 2 j + mat4_at A i 3 * mat4_at B 3 j).

Definition c3d_mat4vec3 (A : vec3) (B : mat4) : vec3 :=
  let x := x3 A in let y := y3 A in let z := z3 A in
  mkvec3 (m00 B * x + m01 B * y + m02 B * z + m03 B)
         (m10 B * x + m11 B * y + m12 B * z + m13 B)
         (m20 B * x + m21 B * y + m22 B * z + m23 B).

Definition c3d_mat4vec4 (A : vec3) (B : mat4) : vec4 :=
  let x := x3 A in let y := y3 A in let z := z3 A in
  mkvec4 (m00 B * x + m01 B * y + m02 B * z + m03 B)
         (m10 B * x + m11 B * y + m12 B * z + m13 B)
         (m20 B * x + m21 B * y + m22 B * z + m23 B)
         (m30 B * x + m31 B * y + m32 B * z + m33 B).

Definition c3d_vec3cross (a b : vec3) : vec3 :=
  mkvec3 (y3 a * z3 b - z3 a * y3 b)
         (z3 a * x3 b - x3 a * z3 b)
         (x3 a * y3 b - y3 a * x3 b).

Definition c3d_vec3dot (A B : vec3) : Q :=
  x3 A * x3 B + y3 A * y3 B + z3 A * z3 B.

Definition c3d_project_vec3vec2 (ndc : vec3) (screen_width screen_height : Z) : vec2 :=
  mkvec2 ((x3 ndc + 1) * (1 # 2) * inject_Z screen_width)
         ((1 - y3 ndc) * (1 # 2) * inject_Z screen_height).

(** ** Vertices and clipping *)

(** Linear interpolation of every attribute of two vertices. *)
Definition c3d_lerp (A B : vex) (t : Q) : vex :=
  mkvex
    (mkvec4 (x4 (clip A) + t * (x4 (clip B) - x4 (clip A)))
            (y4 (clip A) + t * (y4 (clip B) - y4 (clip A)))
            (z4 (clip A) + t * (z4 (clip B) - z4 (clip A)))
            (w4 (clip A) + t * (w4 (clip B) - w4 (clip A))))
    (mkvec3 (x3 (space A) + t * (x3 (space B) - x3 (space A)))
            (y3 (space A) + t * (y3 (space B) - y3 (space A)))
            (z3 (space A) + t * (z3 (space B) - z3 (space A))))
    (mkvec3 (x3 (normal A) + t * (x3 (normal B) - x3 (normal A)))
            (y3 (normal A) + t * (y3 (normal B) - y3 (normal A)))
            (z3 (normal A) + t * (z3 (normal B) - z3 (normal A))))
    (mkvec2 (x2 (uv A) + t * (x2 (uv B) - x2 (uv A)))
            (y2 (uv A) + t * (y2 (uv B) - y2 (uv A)))).

(** The parameter at which the segment (A,B) meets the plane z+w=0. *)
Definition near_t (A B : vex) : Q :=
  let Ad := z4 (clip A) + w4 (clip A) in
  let Bd := z4 (clip B) + w4 (clip B) in
  Ad / (Ad - Bd).

Definition c3d_nearintersect (A B : vex) : vex :=
  let Ad := z4 (clip A) + w4 (clip A) in
  let Bd := z4 (clip B) + w4 (clip B) in
  let t := Ad / (Ad - Bd) in
  c3d_lerp A B t.

Definition c3d_innear (v : vex) : bool :=
  Qgeb (z4 (clip v) + w4 (clip v)) 0.

(** The body of the loop of [c3d_suthhodgman]: what one edge
    (current, next) appends to [temp]. *)
Definition clip_edge (current next : vex) : list vex :=
  let currInside := c3d_innear current in
  let nextInside := c3d_innear next in
  (if currInside && nextInside then [next] else [])
  ++ (if currInside && negb nextInside
      then [c3d_nearintersect current next] else [])
  ++ (if negb currInside && nextInside
      then [c3d_nearintersect current next; next] else []).

(** The edges visited by the loop: (in[i], in[(i+1) % inCount]). *)
Definition poly_edges (inVerts : list vex) : list (vex * vex) :=
  let inCount := length inVerts in
  map (fun i => (nth i inVerts vex_0, nth ((i + 1) mod inCount) inVerts vex_0))
      (seq 0 inCount).

(** Sutherland-Hodgman against the near plane; the result is the
    contents of [outVerts], its length the returned count. *)
Definition c3d_suthhodgman (inVerts : list vex) : list vex :=
  flat_map (fun e => clip_edge (fst e) (snd e)) (poly_edges inVerts).

Definition tri_of_vex (a b c : vex) : tri :=
  mktri (space a) (space b) (space c)
        (uv a) (uv b) (uv c)
        (normal a) (normal b) (normal c).

(** The three clip-space vertices [in[3]] built by [c3d_nearclip]. *)
Definition clip_input (t : tri) (matcam : mat4) : list vex :=
  [ mkvex (c3d_mat4vec4 (vx t) matcam) (vx t) (nvx t) (uvx t);
    mkvex (c3d_mat4vec4 (vy t) matcam) (vy t) (nvy t) (uvy t);
    mkvex (c3d_mat4vec4 (vz t) matcam) (vz t) (nvz t) (uvz t) ].

(** Near-plane clipping of one triangle; the result is the filled
    prefix of [clippedtri], its length the returned count. *)
Definition c3d_nearclip (t : tri) (matcam : mat4) : list tri :=
  let out := c3d_suthhodgman (clip_input t matcam) in
  let outc := length out in
  let o := fun i => nth i out vex_0 in
  if (outc <? 3)%nat then []
  else if (outc =? 3)%nat then [tri_of_vex (o 0%nat) (o 1%nat) (o 2%nat)]
  else if (outc =? 4)%nat then
    [tri_of_vex (o 0%nat) (o 1%nat) (o 2%nat);
     tri_of_vex (o 0%nat) (o 2%nat) (o 3%nat)]
  else [].

Definition c3d_edge (v0 v1 v2 : vec2) : Q :=
  (x2 v2 - x2 v0) * (y2 v1 - y2 v0) - (x2 v1 - x2 v0) * (y2 v2 - y2 v0).

(** Back-face test: the triangle is discarded when the dot product of
    its surface normal and the camera-to-triangle vector is >= 0. *)
Definition c3d_backface (t : tri) (pos : vec3) : bool :=
  let u := mkvec3 (x3 (vy t) - x3 (vx t)) (y3 (vy t) - y3 (vx t)) (z3 (vy t) - z3 (vx t)) in
  let v := mkvec3 (x3 (vz t) - x3 (vx t)) (y3 (vz t) - y3 (vx t)) (z3 (vz t) - z3 (vx t)) in
  let n := c3d_vec3cross u v in
  let view := mkvec3 (x3 (vx t) - x3 pos) (y3 (vx t) - y3 pos) (z3 (vx t) - z3 pos) in
  let dot := c3d_vec3dot n view in
  Qgeb dot 0.

(** ** The scene model *)

(** A [texture]: [data] is the pointer to the samples, [None] when it is
    NULL.  [width], [height] and [channels] are [unsigned int]. *)
Record texture := mktexture {
  data : option (list vec3);
  width : Z;
  height : Z;
  channels : Z }.

(** A [material]; the three texture pointers may be NULL. *)
Record material := mkmaterial {
  ambient_color : vec3;
  diffuse_color : vec3;
  specular_color : vec3;
  shininess : Q;
  transparency : Q;
  illumination_model : Z;
  diffuse_tex : option texture;
  specular_tex : option texture;
  normal_tex : option texture }.

(** A [mesh]; [tri_count] is the length of [tris]. *)
Record mesh := mkmesh {
  name : string;
  tris : list tri;
  mtl : material }.

Record cam := mkcam {
  pos : vec3;
  matrot : mat4;
  theta : Q;
  fov : Q;
  aspect : Q;
  fnear : Q;
  ffar : Q;
  yaw : Q;
  pitch : Q;
  speed : Q }.

Record light := mklight {
  position : vec3;
  color : vec3;
  brightness : Q;
  radius : Q }.

Inductive behavior_type := C3D_CONTINUOUS_BEHAVIOR | C3D_STARTUP_BEHAVIOR.

(** A [behavior_func] is a pointer to code; the pointer is kept as an
    address and what calling it does is a parameter of the driver. *)
Definition behavior_func := positive.

Record behavior := mkbehavior {
  func : option behavior_func;      (* None: NULL *)
  type : behavior_type;
  argc : Z;
  args : list string }.

(** The [display]; [mesh_count], [light_count] and [behavior_count] are
    the lengths of the three arrays.  [frame_count] is an [unsigned int]. *)
Record display := mkdisplay {
  meshes : list mesh;
  background_color : vec3;
  background_tex : option texture;
  camera : cam;
  behaviors : list behavior;
  lights : list light;
  running : bool;
  display_width : Z;
  display_height : Z;
  frame_count : Z }.

Definition set_frame_count (d : display) (n : Z) : display :=
  mkdisplay (meshes d) (background_color d) (background_tex d) (camera d)
            (behaviors d) (lights d) (running d)
            (display_width d) (display_height d) n.



(** ** Frame buffers *)

(** [T **buffer]: [display_height] rows of [display_width] cells.  A read
    or a write outside the rows is a memory error, [None]. *)
Definition grid (T : Type) := list (list T).

Definition grid_alloc {T} (h w : Z) (init : T) : grid T :=
  repeat (repeat init (Z.to_nat w)) (Z.to_nat h).

Definition grid_get {T} (g : grid T) (y x : Z) : option T :=
  if ((y <? 0) || (x <? 0))%Z then None
  else match nth_error g (Z.to_nat y) with
       | None => None
       | Some row => nth_error row (Z.to_nat x)
       end.

Fixpoint list_set {T} (l : list T) (i : nat) (v : T) : option (list T) :=
  match l, i with
  | [], _ => None
  | _ :: l', O => Some (v :: l')
  | a :: l', S i' =>
      match list_set l' i' v with
      | None => None
      | Some r => Some (a :: r)
      end
  end.

Definition grid_set {T} (g : grid T) (y x : Z) (v : T) : option (grid T) :=
  if ((y <? 0) || (x <? 0))%Z then None
  else match nth_error g (Z.to_nat y) with
       | None => None
       | Some row =>
           match list_set row (Z.to_nat x) v with
           | None => None
           | Some row' => list_set g (Z.to_nat y) row'
           end
       end.

(** A cell of the depth buffer: a float or [INFINITY]. *)
Inductive depth := INFINITY | Finite (z : Q).

(** [z < depthBuffer[y][x]]. *)
Definition depth_lt (z : Q) (d : depth) : bool :=
  match d with
  | INFINITY => true
  | Finite z' => Qltb z z'
  end.

Definition C3D_PXCHAR : Z := 9608.   (* L'█', the full block *)
Definition SPACE_CHAR : Z := 32.     (* L' ' *)

(** The three buffers of one frame. *)
Record buffers := mkbuffers {
  buffer : grid Z;
  colorBuffer : grid Z;
  depthBuffer : grid depth }.

(** The integers [lo], [lo+1], ..., [hi] of a [for] loop. *)
Definition Zrange (lo hi : Z) : list Z :=
  map (fun k => (lo + Z.of_nat k)%Z) (seq 0 (Z.to_nat (hi - lo + 1))).

(** A loop whose body may fail. *)
Fixpoint for_each {A S} (l : list A) (body : A -> S -> option S) (s : S) : option S :=
  match l with
  | [] => Some s
  | a :: l' =>
      match body a s with
      | None => None
      | Some s' => for_each l' body s'
      end
  end.

(** ** Texture sampling *)

(** The column, the row and the index computed by [c3d_texsample].
    [tex->width - 1] is an unsigned subtraction; the product
    [tex_y * tex->width] and the sum are unsigned, and the result is
    converted to [int]. *)
Definition tex_x (tex : texture) (u : Q) : Z :=
  Qtrunc (C3D_CLAMP u 0 1 * inject_Z (to_uint32 (width tex - 1))).

Definition tex_y (tex : texture) (v : Q) : Z :=
  Qtrunc ((1 - C3D_CLAMP v 0 1) * inject_Z (to_uint32 (height tex - 1))).

Definition tex_index (tex : texture) (u v : Q) : Z :=
  to_int32 (to_uint32 (to_uint32 (tex_y tex v * width tex) + tex_x tex u)).

Definition white : vec3 := mkvec3 1 1 1.

(** [c3d_texsample]: [None] is a read outside [tex->data]. *)
Definition c3d_texsample (tex : texture) (u v : Q) : option vec3 :=
  match data tex with
  | None => Some white
  | Some samples =>
      let index := tex_index tex u v in
      if (index <? 0)%Z then None
      else match nth_error samples (Z.to_nat index) with
           | None => None
           | Some color =>
               Some (mkvec3 (C3D_CLAMP (x3 color) 0 1)
                            (C3D_CLAMP (y3 color) 0 1)
                            (C3D_CLAMP (z3 color) 0 1))
           end
  end.

(** ** Rational stand-ins for the mathematical library

    The pipeline is parametric in [sqrt], [pow], [sqrtf], [powf] and
    [tanf].  To run it on concrete scenes these computable functions are
    used: a square root rounded down to six decimals of the denominator
    (exact on the squares of rationals), a power with the exponent
    rounded down to an integer, and the first terms of the tangent
    series rounded down to three decimals. *)
Definition sqrt_q (a : Q) : Q :=
  inject_Z (Z.sqrt (Qnum a * Zpos (Qden a) * 10 ^ 12))
  / inject_Z (Zpos (Qden a) * 10 ^ 6).

Definition pow_q (a e : Q) : Q := Qpower a (Qfloor e).

Definition tan_q (a : Q) : Q :=
  inject_Z (Qfloor (1000 * (a + a * a * a / 3 + 2 * a * a * a * a * a / 15))) / 1000.

(** ** Sample scenes

    Concrete data on which the pipeline is run. *)

Definition identity4 : mat4 :=
  mkmat4 1 0 0 0
         0 1 0 0
         0 0 1 0
         0 0 0 1.

(** A camera at the origin looking down -z: fov 90, near 0.2, far 500. *)
Definition sample_cam : cam :=
  mkcam (mkvec3 0 0 0) identity4 0 90 1 (2 # 10) 500 0 0 (1 # 10).


Definition up : vec3 := mkvec3 0 0 1.

(** In front of the camera, behind it, and across the near plane. *)
Definition tri_front : tri :=
  mktri (mkvec3 (-1) (-1) (-5)) (mkvec3 1 (-1) (-5)) (mkvec3 0 1 (-5))
        (mkvec2 0 0) (mkvec2 1 0) (mkvec2 0 1) up up up.

Definition tri_behind : tri :=
  mktri (mkvec3 (-1) (-1) 5) (mkvec3 1 (-1) 5) (mkvec3 0 1 5)
        (mkvec2 0 0) (mkvec2 1 0) (mkvec2 0 1) up up up.

Definition tri_two_front : tri :=
  mktri (mkvec3 (-1) 0 (-5)) (mkvec3 1 0 (-5)) (mkvec3 0 0 5)
        (mkvec2 0 0) (mkvec2 1 0) (mkvec2 0 1) up up up.

Definition tri_across : tri :=
  mktri (mkvec3 0 0 (-5)) (mkvec3 1 0 5) (mkvec3 (-1) 0 5)
        (mkvec2 0 0) (mkvec2 1 0) (mkvec2 0 1) up up up.

(** A texture without samples, and a 2 x 2 texture. *)
Definition no_samples : texture := mktexture None 0 0 0.



(** Materials without light-dependent terms: grey ambient, opaque and
    half transparent. *)
Definition grey : material :=
  mkmaterial (mkvec3 (1 # 2) (1 # 2) (1 # 2)) (mkvec3 1 1 1) (mkvec3 1 1 1)
             32 1 2 (Some no_samples) None None.

Definition glass : material :=
  mkmaterial (mkvec3 (1 # 2) (1 # 2) (1 # 2)) (mkvec3 1 1 1) (mkvec3 1 1 1)
             32 (1 # 2) 2 (Some no_samples) None None.


(** A display of one cell, with a black background, with the
    background of the sample scene of the README (30 30 30), and with a
    blue background. *)
Definition one_cell (background : vec3) (ls : list light) : display :=
  mkdisplay [] background None sample_cam [] ls true 1 1 0.

Definition one_cell_buffers : buffers :=
  mkbuffers [[SPACE_CHAR]] [[0%Z]] [[INFINITY]].

(** A triangle in NDC that covers the only cell. *)
Definition cover0 : vec3 := mkvec3 (-1) (-1) 0.
Definition cover1 : vec3 := mkvec3 3 (-1) 0.
Definition cover2 : vec3 := mkvec3 (-1) 3 0.



(** Behaviours: a start-up one, a continuous one, one without
    function, and a second start-up one. *)
Definition sample_behaviors : list behavior :=
  [ mkbehavior (Some 1%positive) C3D_STARTUP_BEHAVIOR 1 ["rotate"%string];
    mkbehavior (Some 2%positive) C3D_CONTINUOUS_BEHAVIOR 1 ["moveto"%string];
    mkbehavior None C3D_CONTINUOUS_BEHAVIOR 0 [];
    mkbehavior (Some 3%positive) C3D_STARTUP_BEHAVIOR 0 [] ].

Definition driven (count : Z) : display :=
  mkdisplay [] (mkvec3 0 0 0) None sample_cam sample_behaviors [] true 2 2 count.

(** A callback that moves the camera along x and changes nothing else. *)
Definition sample_call (f : behavior_func) (d : display) (argc : Z)
    (args : list string) : display :=
  mkdisplay (meshes d) (background_color d) (background_tex d)
            (mkcam (mkvec3 (x3 (pos (camera d)) + inject_Z (Zpos f))
                           (y3 (pos (camera d))) (z3 (pos (camera d))))
                   (matrot (camera d)) (theta (camera d)) (fov (camera d))
                   (aspect (camera d)) (fnear (camera d)) (ffar (camera d))
                   (yaw (camera d)) (pitch (camera d)) (speed (camera d)))
            (behaviors d) (lights d) (running d)
            (display_width d) (display_height d) (frame_count d).

(** Two triangles that share an edge, for the smooth-normal pass. *)
Definition folded : mesh :=
  mkmesh "folded"
    [ mktri (mkvec3 0 0 0) (mkvec3 1 0 0) (mkvec3 0 1 0)
            vec2_0 vec2_0 vec2_0 vec3_0 vec3_0 vec3_0;
      mktri (mkvec3 0 0 0) (mkvec3 0 1 0) (mkvec3 0 0 1)
            vec2_0 vec2_0 vec2_0 vec3_0 vec3_0 vec3_0 ]
    grey.

(** Closed comparisons of rationals and closed runs of the pipeline
    are settled by evaluation. *)
Ltac by_evaluation := vm_compute; first [reflexivity | discriminate].

(** ** More stand-ins and scenes *)


Fixpoint read_digits (s : string) (acc : Z) : Z :=
  match s with
  | EmptyString => acc
  | String c s' =>
      let n := Z.of_nat (Ascii.nat_of_ascii c) in
      if ((48 <=? n) && (n <=? 57))%Z
      then read_digits s' (acc * 10 + (n - 48))%Z
      else acc
  end.

Definition atoi_q (s : string) : Z := read_digits s 0.
Definition atof_q (s : string) : Q := inject_Z (read_digits s 0).

(** The corners of a triangle on the screen and a pixel centre. *)
Definition screen0 : vec2 := mkvec2 0 0.
Definition screen1 : vec2 := mkvec2 4 0.
Definition screen2 : vec2 := mkvec2 0 4.
Definition pixel11 : vec2 := mkvec2 (3 # 2) (3 # 2).

(** A display of one row of two cells, and a frame for it: a red full
    block and a space in the colour 0. *)
Definition strip : display :=
  mkdisplay [] (mkvec3 0 0 0) None sample_cam [] [] true 2 1 0.

Definition strip_buffer : grid Z := [[C3D_PXCHAR; SPACE_CHAR]].
Definition strip_colors : grid Z := [[RGB 255 0 0; RGB 0 0 0]].


Definition workshop : display :=
  mkdisplay [folded] (mkvec3 0 0 0) None sample_cam [] [] true 3 2 0.



(** ** The pipeline *)

Section Pipeline.

(** The mathematical library. *)
Variable sqrt : Q -> Q.
Variable pow : Q -> Q -> Q.
Variable sqrtf : Q -> Q.
Variable powf : Q -> Q -> Q.
Variable tanf : Q -> Q.

(** What a call through a behaviour's function pointer does to the
    display: [call_behavior f d argc args] is the display after
    [f(d, argc, args)] returns. *)
Variable call_behavior : behavior_func -> display -> Z -> list string -> display.

Definition c3d_vec3normalize (vec : vec3) : vec3 :=
  let V := sqrt (pow (x3 vec) 2 + pow (y3 vec) 2 + pow (z3 vec) 2) in
  if negb (Qeqb V 0)
  then mkvec3 (x3 vec / V) (y3 vec / V) (z3 vec / V)
  else vec.

Definition c3d_mat4prj (fnear ffar fov aspect : Q) : mat4 :=
  let f := 1 / tanf ((1 # 2) * C3D_DEG2RAD fov) in
  mkmat4 (f / aspect) 0 0 0
         0 f 0 0
         0 0 ((ffar + fnear) / (fnear - ffar)) ((2 * ffar * fnear) / (fnear - ffar))
         0 0 (-1) 0.

(** *** Smooth normals: [c3d_vecnormalavg] *)

(** [positions[i*3+0..2]]: the corners of every triangle, in order. *)
Definition corner_positions (ts : list tri) : list vec3 :=
  flat_map (fun t => [vx t; vy t; vz t]) ts.

(** Two positions count as the same vertex when every coordinate
    differs by less than 1e-6. *)
Definition same_position (p v : vec3) : bool :=
  Qltb (Qabs (x3 p - x3 v)) (1 # 1000000)
  && Qltb (Qabs (y3 p - y3 v)) (1 # 1000000)
  && Qltb (Qabs (z3 p - z3 v)) (1 # 1000000).

(** The inner search loop: the first [j] with [positions_unique[j]]
    matching [v], counted from [j]. *)
Fixpoint find_unique (positions_unique : list vec3) (v : vec3) (j : nat) : option nat :=
  match positions_unique with
  | [] => None
  | p :: rest => if same_position p v then Some j else find_unique rest v (S j)
  end.

(** The first loop: [positions_unique] and [map_unique]. *)
Definition unique_step (st : list vec3 * list nat) (v : vec3) : list vec3 * list nat :=
  let '(positions_unique, map_unique) := st in
  match find_unique positions_unique v 0 with
  | None => (positions_unique ++ [v], map_unique ++ [List.length positions_unique])
  | Some found => (positions_unique, map_unique ++ [found])
  end.

Definition build_unique (positions : list vec3) : list vec3 * list nat :=
  fold_left unique_step positions ([], []).

Definition face_normal (t : tri) : vec3 :=
  let u := mkvec3 (x3 (vy t) - x3 (vx t)) (y3 (vy t) - y3 (vx t)) (z3 (vy t) - z3 (vx t)) in
  let v := mkvec3 (x3 (vz t) - x3 (vx t)) (y3 (vz t) - y3 (vx t)) (z3 (vz t) - z3 (vx t)) in
  c3d_vec3normalize (c3d_vec3cross u v).

(** [sum_normals_unique[i] += n; arr_count_unique[i]++]. *)
Fixpoint bucket_add (sums : list (vec3 * Z)) (i : nat) (n : vec3) : list (vec3 * Z) :=
  match sums, i with
  | [], _ => []
  | (s, c) :: rest, O =>
      (mkvec3 (x3 s + x3 n) (y3 s + y3 n) (z3 s + z3 n), (c + 1)%Z) :: rest
  | sc :: rest, S i' => sc :: bucket_add rest i' n
  end.

(** The second loop, over the triangles numbered from [i]. *)
Fixpoint accumulate (ts : list tri) (i : nat) (map_unique : list nat)
    (sums : list (vec3 * Z)) : list (vec3 * Z) :=
  match ts with
  | [] => sums
  | t :: rest =>
      let n := face_normal t in
      let i0 := nth (i * 3 + 0) map_unique O in
      let i1 := nth (i * 3 + 1) map_unique O in
      let i2 := nth (i * 3 + 2) map_unique O in
      accumulate rest (S i) map_unique
        (bucket_add (bucket_add (bucket_add sums i0 n) i1 n) i2 n)
  end.

(** The third loop: average and renormalise each bucket. *)
Definition average (sc : vec3 * Z) : vec3 :=
  let '(s, c) := sc in
  if (c >? 0)%Z
  then c3d_vec3normalize
         (mkvec3 (x3 s / inject_Z c) (y3 s / inject_Z c) (z3 s / inject_Z c))
  else s.

(** The fourth loop: write the normals back, triangles numbered from [i]. *)
Fixpoint write_back (ts : list tri) (i : nat) (map_unique : list nat)
    (normals : list vec3) : list tri :=
  match ts with
  | [] => []
  | t :: rest =>
      let i0 := nth (i * 3 + 0) map_unique O in
      let i1 := nth (i * 3 + 1) map_unique O in
      let i2 := nth (i * 3 + 2) map_unique O in
      mktri (vx t) (vy t) (vz t) (uvx t) (uvy t) (uvz t)
            (nth i0 normals vec3_0) (nth i1 normals vec3_0) (nth i2 normals vec3_0)
      :: write_back rest (S i) map_unique normals
  end.

(** The per-vertex normals computed from the triangles [ts]. *)
Definition smooth_normals (ts : list tri) : list nat * list vec3 :=
  let '(positions_unique, map_unique) := build_unique (corner_positions ts) in
  let sums := accumulate ts 0 map_unique (map (fun _ => (vec3_0, 0%Z)) positions_unique) in
  (map_unique, map average sums).

Definition c3d_vecnormalavg (m : mesh) : mesh :=
  let '(map_unique, normals) := smooth_normals (tris m) in
  mkmesh (name m) (write_back (tris m) 0 map_unique normals) (mtl m).

(** *** Shading: [c3d_bphongshade] *)

(** The body of the loop over the lights: the new values of
    [*out_diffuse] and [*out_specular]. *)
Definition shade_light (d : display) (normal space : vec3) (mtl : material)
    (acc : vec3 * vec3) (L : light) : vec3 * vec3 :=
  let '(out_diffuse, out_specular) := acc in
  let toLight := mkvec3 (x3 (position L) - x3 space)
                        (y3 (position L) - y3 space)
                        (z3 (position L) - z3 space) in
  let dist := sqrtf (x3 toLight * x3 toLight + y3 toLight * y3 toLight
                     + z3 toLight * z3 toLight) in
  let dist := if Qleb dist (1 # 10000) then 1 # 10000 else dist in
  let toLight := c3d_vec3normalize toLight in
  let NdotL := max 0 (c3d_vec3dot normal toLight) in
  if Qgtb NdotL 0 then
    if Qgtb dist (radius L) then acc
    else
      let attenuation := 1 / (1 + (dist / radius L) * (dist / radius L)) in
      let viewDir := c3d_vec3normalize
                       (mkvec3 (x3 (pos (camera d)) - x3 space)
                               (y3 (pos (camera d)) - y3 space)
                               (z3 (pos (camera d)) - z3 space)) in
      let halfDir := c3d_vec3normalize
                       (mkvec3 (x3 viewDir + x3 toLight)
                               (y3 viewDir + y3 toLight)
                               (z3 viewDir + z3 toLight)) in
      let NdotH := max 0 (c3d_vec3dot normal halfDir) in
      let specular_factor := powf NdotH (shininess mtl) in
      (mkvec3 (x3 out_diffuse + x3 (diffuse_color mtl) * x3 (color L) * brightness L)
              (y3 out_diffuse + y3 (diffuse_color mtl) * y3 (color L) * brightness L)
              (z3 out_diffuse + z3 (diffuse_color mtl) * z3 (color L) * brightness L),
       mkvec3 (x3 out_specular + x3 (specular_color mtl) * x3 (color L) * brightness L
                                 * specular_factor * attenuation)
              (y3 out_specular + y3 (specular_color mtl) * y3 (color L) * brightness L
                                 * specular_factor * attenuation)
              (z3 out_specular + z3 (specular_color mtl) * z3 (color L) * brightness L
                                 * specular_factor * attenuation))
  else acc.

Definition clamp01 (c : vec3) : vec3 :=
  mkvec3 (C3D_CLAMP (x3 c) 0 1) (C3D_CLAMP (y3 c) 0 1) (C3D_CLAMP (z3 c) 0 1).

(** The result is ([*out_ambient], [*out_diffuse], [*out_specular]). *)
Definition c3d_bphongshade (d : display) (normal space : vec3) (mtl : material)
    : vec3 * vec3 * vec3 :=
  let out_ambient := ambient_color mtl in
  let '(out_diffuse, out_specular) :=
    fold_left (shade_light d normal space mtl) (lights d) (vec3_0, vec3_0) in
  (clamp01 out_ambient, clamp01 out_diffuse, clamp01 out_specular).

(** *** Rasterizing: [c3d_rasterize] *)

(** Perspective-correct interpolation of one attribute:
    [(a0*inv_w0*w0 + a1*inv_w1*w1 + a2*inv_w2*w2) / denom]. *)
Definition persp (a0 a1 a2 inv_w0 inv_w1 inv_w2 w0 w1 w2 denom : Q) : Q :=
  (a0 * inv_w0 * w0 + a1 * inv_w1 * w1 + a2 * inv_w2 * w2) / denom.

(** The colour written for a sample: from the three outputs of the
    shader and the texture colour to the COLORREF. *)
Definition final_color (d : display) (mtl : material)
    (ambient diffuse specular tex_color : vec3) : vec3 :=
  let fx := (x3 ambient + x3 diffuse) * x3 tex_color + x3 specular in
  let fy := (y3 ambient + y3 diffuse) * y3 tex_color + y3 specular in
  let fz := (z3 ambient + z3 diffuse) * z3 tex_color + z3 specular in
  let fx := (1 - transparency mtl) * x3 (background_color d) + transparency mtl * fx in
  let fy := (1 - transparency mtl) * y3 (background_color d) + transparency mtl * fy in
  let fz := (1 - transparency mtl) * z3 (background_color d) + transparency mtl * fz in
  mkvec3 (C3D_CLAMP fx 0 1) (C3D_CLAMP fy 0 1) (C3D_CLAMP fz 0 1).

Definition colorref_of (c : vec3) : Z :=
  RGB (Qtrunc (x3 c * 255)) (Qtrunc (y3 c * 255)) (Qtrunc (z3 c * 255)).

(** What is done for a sample that passed the depth test: interpolate
    the attributes, shade, sample the texture and build the colour.
    [None] is a memory error: a NULL [mtl->diffuse_tex] or a read
    outside the texture. *)
Definition shade_sample (d : display) (t : tri) (mtl : material)
    (inv_w0 inv_w1 inv_w2 w0 w1 w2 denom : Q) : option Z :=
  let P := fun a0 a1 a2 => persp a0 a1 a2 inv_w0 inv_w1 inv_w2 w0 w1 w2 denom in
  let u := P (x2 (uvx t)) (x2 (uvy t)) (x2 (uvz t)) in
  let v := P (y2 (uvx t)) (y2 (uvy t)) (y2 (uvz t)) in
  let space := mkvec3 (P (x3 (vx t)) (x3 (vy t)) (x3 (vz t)))
                      (P (y3 (vx t)) (y3 (vy t)) (y3 (vz t)))
                      (P (z3 (vx t)) (z3 (vy t)) (z3 (vz t))) in
  let normal := c3d_vec3normalize
                  (mkvec3 (P (x3 (nvx t)) (x3 (nvy t)) (x3 (nvz t)))
                          (P (y3 (nvx t)) (y3 (nvy t)) (y3 (nvz t)))
                          (P (z3 (nvx t)) (z3 (nvy t)) (z3 (nvz t)))) in
  let '(ambient, diffuse, specular) := c3d_bphongshade d normal space mtl in
  match diffuse_tex mtl with
  | None => None
  | Some tex =>
      match c3d_texsample tex u v with
      | None => None
      | Some tex_color =>
          Some (colorref_of (final_color d mtl ambient diffuse specular tex_color))
      end
  end.

(** The body of the two loops of the rasterizer, at the pixel (x, y). *)
Definition raster_pixel (d : display) (pv0 pv1 pv2 : vec2) (area : Q)
    (v0_ndc v1_ndc v2_ndc : vec3) (w0_clip w1_clip w2_clip : Q)
    (t : tri) (mtl : material) (y x : Z) (b : buffers) : option buffers :=
  let inv_w0 := 1 / w0_clip in
  let inv_w1 := 1 / w1_clip in
  let inv_w2 := 1 / w2_clip in
  let vxy := mkvec2 (inject_Z x + (1 # 2)) (inject_Z y + (1 # 2)) in
  let w0 := c3d_edge pv1 pv2 vxy / area in
  let w1 := c3d_edge pv2 pv0 vxy / area in
  let w2 := c3d_edge pv0 pv1 vxy / area in
  if Qgeb w0 0 && Qgeb w1 0 && Qgeb w2 0 then
    let denom := w0 * inv_w0 + w1 * inv_w1 + w2 * inv_w2 in
    if Qeqb denom 0 then Some b
    else
      let z := (z3 v0_ndc * w0 / w0_clip + z3 v1_ndc * w1 / w1_clip
                + z3 v2_ndc * w2 / w2_clip) / denom in
      match grid_get (depthBuffer b) y x with
      | None => None
      | Some dz =>
          if depth_lt z dz then
            match grid_set (depthBuffer b) y x (Finite z) with
            | None => None
            | Some depth' =>
                match shade_sample d t mtl inv_w0 inv_w1 inv_w2 w0 w1 w2 denom with
                | None => None
                | Some color =>
                    match grid_set (buffer b) y x C3D_PXCHAR,
                          grid_set (colorBuffer b) y x color with
                    | Some buffer', Some color' =>
                        Some (mkbuffers buffer' color' depth')
                    | _, _ => None
                    end
                end
            end
          else Some b
      end
  else Some b.

Definition c3d_rasterize (d : display) (b : buffers)
    (v0_ndc v1_ndc v2_ndc : vec3) (w0_clip w1_clip w2_clip : Q)
    (t : tri) (mtl : material) : option buffers :=
  let pv0 := c3d_project_vec3vec2 v0_ndc (display_width d) (display_height d) in
  let pv1 := c3d_project_vec3vec2 v1_ndc (display_width d) (display_height d) in
  let pv2 := c3d_project_vec3vec2 v2_ndc (display_width d) (display_height d) in
  let minx := Qtrunc (max (C3D_MIN (x2 pv0) (x2 pv1) (x2 pv2)) 0) in
  let maxx := Qtrunc (min (C3D_MAX (x2 pv0) (x2 pv1) (x2 pv2))
                          (inject_Z (display_width d - 1))) in
  let miny := Qtrunc (max (C3D_MIN (y2 pv0) (y2 pv1) (y2 pv2)) 0) in
  let maxy := Qtrunc (min (C3D_MAX (y2 pv0) (y2 pv1) (y2 pv2))
                          (inject_Z (display_height d - 1))) in
  let area := c3d_edge pv0 pv1 pv2 in
  if Qeqb area 0 then Some b
  else
    for_each (Zrange miny maxy)
      (fun y => for_each (Zrange minx maxx)
         (raster_pixel d pv0 pv1 pv2 area v0_ndc v1_ndc v2_ndc
                       w0_clip w1_clip w2_clip t mtl y))
      b.

(** *** The per-frame driver: [c3d_update] *)

(** The loop over the behaviours, at index [i].  The display is read
    again at every iteration, as the callbacks receive it; the log
    records every call made, with the index of the behaviour.  [None]:
    the fuel ran out before the loop ended. *)
Fixpoint run_behaviors (fuel : nat) (i : nat) (d : display)
    (log : list (nat * behavior)) : option (display * list (nat * behavior)) :=
  match nth_error (behaviors d) i with
  | None => Some (d, log)
  | Some b =>
      match fuel with
      | O => None
      | S fuel' =>
          match func b with
          | None => run_behaviors fuel' (S i) d log
          | Some f =>
              match type b with
              | C3D_CONTINUOUS_BEHAVIOR =>
                  run_behaviors fuel' (S i) (call_behavior f d (argc b) (args b))
                                (log ++ [(i, b)])
              | C3D_STARTUP_BEHAVIOR =>
                  if (frame_count d =? 0)%Z
                  then run_behaviors fuel' (S i)
                         (call_behavior f d (argc b) (args b)) (log ++ [(i, b)])
                  else run_behaviors fuel' (S i) d log
              end
          end
      end
  end.

(** [matcam]: projection times view. *)
Definition view_projection (c : cam) : mat4 :=
  let matproj := c3d_mat4prj (fnear c) (ffar c) (fov c) (aspect c) in
  let camtranslate := c3d_mat4tra (- x3 (pos c)) (- y3 (pos c)) (- z3 (pos c)) in
  let camview := c3d_mat4mul (matrot c) camtranslate in
  c3d_mat4mul matproj camview.

Definition ndc_of (c : vec4) : vec3 :=
  mkvec3 (x4 c / w4 c) (y4 c / w4 c) (z4 c / w4 c).

(** The early rejection of a triangle whose three corners are beyond
    one of the six bounds. *)
Definition ndc_reject (v0 v1 v2 : vec3) : bool :=
  (Qltb (x3 v0) (-1) && Qltb (x3 v1) (-1) && Qltb (x3 v2) (-1))
  || (Qgtb (x3 v0) 1 && Qgtb (x3 v1) 1 && Qgtb (x3 v2) 1)
  || (Qltb (y3 v0) (-1) && Qltb (y3 v1) (-1) && Qltb (y3 v2) (-1))
  || (Qgtb (y3 v0) 1 && Qgtb (y3 v1) 1 && Qgtb (y3 v2) 1)
  || (Qltb (z3 v0) (-1) && Qltb (z3 v1) (-1) && Qltb (z3 v2) (-1))
  || (Qgtb (z3 v0) 1 && Qgtb (z3 v1) 1 && Qgtb (z3 v2) 1).

(** The body of the loop over the clipped triangles. *)
Definition draw_clipped (d : display) (matcam : mat4) (mtl : material)
    (t : tri) (b : buffers) : option buffers :=
  if c3d_backface t (pos (camera d)) then Some b
  else
    let v0_clip := c3d_mat4vec4 (vx t) matcam in
    let v1_clip := c3d_mat4vec4 (vy t) matcam in
    let v2_clip := c3d_mat4vec4 (vz t) matcam in
    let v0_ndc := ndc_of v0_clip in
    let v1_ndc := ndc_of v1_clip in
    let v2_ndc := ndc_of v2_clip in
    if ndc_reject v0_ndc v1_ndc v2_ndc then Some b
    else c3d_rasterize d b v0_ndc v1_ndc v2_ndc
                       (w4 v0_clip) (w4 v1_clip) (w4 v2_clip) t mtl.

(** The loops over the meshes and their triangles. *)
Definition draw_meshes (d : display) (matcam : mat4) (b : buffers) : option buffers :=
  for_each (meshes d)
    (fun m => for_each (tris m)
       (fun t => for_each (c3d_nearclip t matcam) (draw_clipped d matcam (mtl m))))
    b.

(** What [c3d_render] receives: the display and the two buffers it
    turns into escape sequences. *)
Record frame := mkframe {
  frame_display : display;
  frame_buffer : grid Z;
  frame_colorBuffer : grid Z }.

Definition c3d_render (d : display) (buffer colorBuffer : grid Z) : frame :=
  mkframe d buffer colorBuffer.

(** One call of the driver: the display afterwards, the frame handed to
    [c3d_render] and the log of the behaviours called.  [None]: the
    fuel of the behaviour loop ran out, or a memory error occurred. *)
Definition c3d_update (fuel : nat) (d : display)
    : option (display * frame * list (nat * behavior)) :=
  match run_behaviors fuel 0 d [] with
  | None => None
  | Some (d, log) =>
      let b := mkbuffers (grid_alloc (display_height d) (display_width d) SPACE_CHAR)
                         (grid_alloc (display_height d) (display_width d) (RGB 0 0 0))
                         (grid_alloc (display_height d) (display_width d) INFINITY) in
      let matcam := view_projection (camera d) in
      match draw_meshes d matcam b with
      | None => None
      | Some b =>
          let d := set_frame_count d (to_uint32 (frame_count d + 1)) in
          Some (d, c3d_render d (buffer b) (colorBuffer b), log)
      end
  end.

(** ** More of c3d.h: rotations, mesh transforms, the scene functions
    and the writer of the frame *)

Variable cosf : Q -> Q.
Variable sinf : Q -> Q.

(** *** Rotation matrices, built with the negated angle *)

Definition c3d_mat4rtx (theta : Q) : mat4 :=
  let cos_theta := cosf (- theta) in
  let sin_theta := sinf (- theta) in
  mkmat4 1 0 0 0
         0 cos_theta (- sin_theta) 0
         0 sin_theta cos_theta 0
         0 0 0 1.

Definition c3d_mat4rty (theta : Q) : mat4 :=
  let cos_theta := cosf (- theta) in
  let sin_theta := sinf (- theta) in
  mkmat4 cos_theta 0 sin_theta 0
         0 1 0 0
         (- sin_theta) 0 cos_theta 0
         0 0 0 1.

Definition c3d_mat4rtz (theta : Q) : mat4 :=
  let cos_theta := cosf (- theta) in
  let sin_theta := sinf (- theta) in
  mkmat4 cos_theta (- sin_theta) 0 0
         sin_theta cos_theta 0 0
         0 0 1 0
         0 0 0 1.

(** *** The inverse-transpose of the upper-left 3x3 block *)

Record mat3 := mkmat3 {
  n00 : Q; n01 : Q; n02 : Q;
  n10 : Q; n11 : Q; n12 : Q;
  n20 : Q; n21 : Q; n22 : Q }.

Definition c3d_mat4invtranspose3 (M : mat4) : mat3 :=
  let i00 := m00 M in let i01 := m01 M in let i02 := m02 M in
  let i10 := m10 M in let i11 := m11 M in let i12 := m12 M in
  let i20 := m20 M in let i21 := m21 M in let i22 := m22 M in
  let det := i00 * (i11 * i22 - i12 * i21)
             - i01 * (i10 * i22 - i12 * i20)
             + i02 * (i10 * i21 - i11 * i20) in
  let invDet := 1 / det in
  let v00 := (i11 * i22 - i12 * i21) * invDet in
  let v01 := (i02 * i21 - i01 * i22) * invDet in
  let v02 := (i01 * i12 - i02 * i11) * invDet in
  let v10 := (i12 * i20 - i10 * i22) * invDet in
  let v11 := (i00 * i22 - i02 * i20) * invDet in
  let v12 := (i02 * i10 - i00 * i12) * invDet in
  let v20 := (i10 * i21 - i11 * i20) * invDet in
  let v21 := (i01 * i20 - i00 * i21) * invDet in
  let v22 := (i00 * i11 - i01 * i10) * invDet in
  (* out.m[i][j] = inv.m[j][i] *)
  mkmat3 v00 v10 v20
         v01 v11 v21
         v02 v12 v22.

(** [invTranspose] applied to a normal, as written out in
    [c3d_meshabs]. *)
Definition mat3vec3 (N : mat3) (n : vec3) : vec3 :=
  mkvec3 (n00 N * x3 n + n01 N * y3 n + n02 N * z3 n)
         (n10 N * x3 n + n11 N * y3 n + n12 N * z3 n)
         (n20 N * x3 n + n21 N * y3 n + n22 N * z3 n).

(** *** Mesh transforms *)

Definition meshabs_tri (B : mat4) (invTranspose : mat3) (t : tri) : tri :=
  mktri (c3d_mat4vec3 (vx t) B) (c3d_mat4vec3 (vy t) B) (c3d_mat4vec3 (vz t) B)
        (uvx t) (uvy t) (uvz t)
        (c3d_vec3normalize (mat3vec3 invTranspose (nvx t)))
        (c3d_vec3normalize (mat3vec3 invTranspose (nvy t)))
        (c3d_vec3normalize (mat3vec3 invTranspose (nvz t))).

Definition c3d_meshabs (A : mesh) (B : mat4) : mesh :=
  let invTranspose := c3d_mat4invtranspose3 B in
  mkmesh (name A) (map (meshabs_tri B invTranspose) (tris A)) (mtl A).

(** The three sums over the corners, as both [c3d_meshrel] and
    [c3d_meshcenter] accumulate them. *)
Definition corner_step (s : vec3) (t : tri) : vec3 :=
  mkvec3 (x3 s + (x3 (vx t) + x3 (vy t) + x3 (vz t)))
         (y3 s + (y3 (vx t) + y3 (vy t) + y3 (vz t)))
         (z3 s + (z3 (vx t) + z3 (vy t) + z3 (vz t))).

Definition corner_sums (ts : list tri) : vec3 :=
  fold_left corner_step ts vec3_0.

Definition tri_count (A : mesh) : Z := Z.of_nat (List.length (tris A)).

Definition c3d_meshrel (A : mesh) (B : mat4) : mesh :=
  let V := inject_Z (tri_count A * 3) in
  let s := corner_sums (tris A) in
  let cvec := mkvec3 (x3 s / V) (y3 s / V) (z3 s / V) in
  let translate_neg_center := c3d_mat4tra (- x3 cvec) (- y3 cvec) (- z3 cvec) in
  let translate_pos_center := c3d_mat4tra (x3 cvec) (y3 cvec) (z3 cvec) in
  c3d_meshabs (c3d_meshabs (c3d_meshabs A translate_neg_center) B)
              translate_pos_center.

Definition c3d_meshcenter (A : mesh) : vec3 :=
  let total_vertices := (tri_count A * 3)%Z in
  let s := corner_sums (tris A) in
  mkvec3 (x3 s / inject_Z total_vertices)
         (y3 s / inject_Z total_vertices)
         (z3 s / inject_Z total_vertices).

(** *** The scene functions *)


Definition c3d_lightadd (d : display) (new_light : light) : display :=
  mkdisplay (meshes d) (background_color d) (background_tex d) (camera d)
            (behaviors d) (lights d ++ [new_light]) (running d)
            (display_width d) (display_height d) (frame_count d).

Definition c3d_meshadd (d : display) (new_mesh : mesh) : display :=
  mkdisplay (meshes d ++ [new_mesh]) (background_color d) (background_tex d)
            (camera d) (behaviors d) (lights d) (running d)
            (display_width d) (display_height d) (frame_count d).

(** The new behaviour holds copies of the first [argc] strings. *)
Definition c3d_behavioradd (d : display) (func : option behavior_func)
    (type : behavior_type) (argc : Z) (args : list string) : display :=
  mkdisplay (meshes d) (background_color d) (background_tex d) (camera d)
            (behaviors d ++ [mkbehavior func type argc (firstn (Z.to_nat argc) args)])
            (lights d) (running d)
            (display_width d) (display_height d) (frame_count d).

Definition C3D_MOUSE_DELTA_SENSITIVITY : Q := 1 # 100.

Definition set_camera (d : display) (c : cam) : display :=
  mkdisplay (meshes d) (background_color d) (background_tex d) c
            (behaviors d) (lights d) (running d)
            (display_width d) (display_height d) (frame_count d).

(** The mouse handler; [p1] is the cursor position when
    [GetCursorPos] succeeds. *)
Definition c3d_m_handle (d : display) (p0 : Z * Z) (p1 : option (Z * Z)) : display :=
  let c := camera d in
  let '(yaw', pitch') :=
    match p1 with
    | Some p1 =>
        let yaw' := yaw c + inject_Z (- fst p1 + fst p0) * C3D_MOUSE_DELTA_SENSITIVITY in
        let pitch' := pitch c + inject_Z (- snd p1 + snd p0) * C3D_MOUSE_DELTA_SENSITIVITY in
        (yaw', C3D_CLAMP pitch' (- (15 # 10)) (15 # 10))
    | None => (yaw c, pitch c)
    end in
  let pitch_m := c3d_mat4rtx pitch' in
  let yaw_m := c3d_mat4rty yaw' in
  set_camera d
    (mkcam (pos c) (c3d_mat4mul pitch_m yaw_m) (theta c) (fov c) (aspect c)
           (fnear c) (ffar c) yaw' pitch' (speed c)).

(** *** Textures *)

(** The placeholder texture: a 120 x 120 checker of 4 x 4 cells. *)
Definition c3d_generic_texgen : texture :=
  let width := 120%Z in
  let height := 120%Z in
  let checker_size := 4%Z in
  mktexture
    (Some (flat_map
             (fun y => map (fun x =>
                if (((x / checker_size) + (y / checker_size)) mod 2 =? 0)%Z
                then mkvec3 (1 # 2) 0 (1 # 2)
                else mkvec3 0 0 0)
                (Zrange 0 (width - 1)))
             (Zrange 0 (height - 1))))
    width height 3.




(** *** Behaviours that move and scale a mesh *)

(** [atoi] and [atof] of the C library. *)
Variable atoi : string -> Z.
Variable atof : string -> Q.

Definition mesh_count (d : display) : Z := Z.of_nat (List.length (meshes d)).

Definition set_meshes (d : display) (ms : list mesh) : display :=
  mkdisplay ms (background_color d) (background_tex d) (camera d)
            (behaviors d) (lights d) (running d)
            (display_width d) (display_height d) (frame_count d).

(** [f(&l[i])] for an index inside the list. *)
Fixpoint update_nth {T} (l : list T) (i : nat) (f : T -> T) : list T :=
  match l, i with
  | [], _ => []
  | a :: l', O => f a :: l'
  | a :: l', S i' => a :: update_nth l' i' f
  end.

(** The behaviours read their arguments before anything else; [None]
    is a read outside the strings of [args]. *)
Definition c3d_behavior_scalemesh (d : display) (argc : Z) (args : list string)
    : option display :=
  if (argc <? 4)%Z then Some d
  else
    match nth_error args 1, nth_error args 2, nth_error args 3,
          nth_error args 4 with
    | Some a1, Some a2, Some a3, Some a4 =>
        let id := atoi a1 in
        let sx := atof a2 in
        let sy := atof a3 in
        let sz := atof a4 in
        if ((id >=? 0) && (id <? mesh_count d))%Z then
          let mat := c3d_mat4scl sx sy sz in
          Some (set_meshes d (update_nth (meshes d) (Z.to_nat id)
                                (fun m => c3d_meshrel m mat)))
        else Some d
    | _, _, _, _ => None
    end.

(** The matrix that [c3d_behavior_moveto_id] applies to the mesh [m]. *)
Definition moveto_matrix (m : mesh) (x y z step : Q) : mat4 :=
  let target_position := mkvec3 x y z in
  let source_center := c3d_meshcenter m in
  let direction := c3d_vec3normalize
                     (mkvec3 (x3 target_position - x3 source_center)
                             (y3 target_position - y3 source_center)
                             (z3 target_position - z3 source_center)) in
  c3d_mat4tra (x3 direction * step) (y3 direction * step) (z3 direction * step).

Definition c3d_behavior_moveto_id (d : display) (argc : Z) (args : list string)
    : option display :=
  if (argc <? 5)%Z then Some d
  else
    match nth_error args 1, nth_error args 2, nth_error args 3,
          nth_error args 4, nth_error args 5 with
    | Some a1, Some a2, Some a3, Some a4, Some a5 =>
        let id := atoi a1 in
        let x := atof a2 in
        let y := atof a3 in
        let z := atof a4 in
        let step := atof a5 in
        if ((id >=? 0) && (id <? mesh_count d))%Z then
          Some (set_meshes d (update_nth (meshes d) (Z.to_nat id)
                                (fun m => c3d_meshabs m (moveto_matrix m x y z step))))
        else Some d
    | _, _, _, _, _ => None
    end.

(** *** The keyboard handler *)

(** The keys that [GetAsyncKeyState] reports as pressed. *)
Record keys := mkkeys {
  key_W : bool; key_S : bool; key_A : bool; key_D : bool;
  key_SPACE : bool; key_SHIFT : bool;
  key_LEFT : bool; key_RIGHT : bool; key_UP : bool; key_DOWN : bool;
  key_I : bool; key_O : bool;
  key_RETURN : bool; key_LBUTTON : bool }.

Definition set_pos (c : cam) (p : vec3) : cam :=
  mkcam p (matrot c) (theta c) (fov c) (aspect c) (fnear c) (ffar c)
        (yaw c) (pitch c) (speed c).

Definition set_yaw (c : cam) (a : Q) : cam :=
  mkcam (pos c) (matrot c) (theta c) (fov c) (aspect c) (fnear c) (ffar c)
        a (pitch c) (speed c).

Definition set_pitch (c : cam) (a : Q) : cam :=
  mkcam (pos c) (matrot c) (theta c) (fov c) (aspect c) (fnear c) (ffar c)
        (yaw c) a (speed c).

Definition set_speed (c : cam) (s : Q) : cam :=
  mkcam (pos c) (matrot c) (theta c) (fov c) (aspect c) (fnear c) (ffar c)
        (yaw c) (pitch c) s.

(** [pos += dir * speed] after [c3d_vec3normalize(&dir)]. *)
Definition step_along (c : cam) (dir : vec3) (speed : Q) : cam :=
  let dir := c3d_vec3normalize dir in
  set_pos c (mkvec3 (x3 (pos c) + x3 dir * speed)
                    (y3 (pos c) + y3 dir * speed)
                    (z3 (pos c) + z3 dir * speed)).

(** The blocks of [c3d_k_handle], one for each key: what the block
    does to the camera when the key is pressed.  [speed] and
    [rotationSpeed] are the two locals computed from the time step. *)
Definition on_W (c : cam) (speed : Q) : cam :=
  step_along c (mkvec3 (- m20 (matrot c)) (- m21 (matrot c)) (- m22 (matrot c))) speed.

Definition on_S (c : cam) (speed : Q) : cam :=
  step_along c (mkvec3 (m20 (matrot c)) (m21 (matrot c)) (m22 (matrot c))) speed.

Definition on_A (c : cam) (speed : Q) : cam :=
  step_along c (mkvec3 (- m00 (matrot c)) (- m01 (matrot c)) (- m02 (matrot c))) speed.

Definition on_D (c : cam) (speed : Q) : cam :=
  step_along c (mkvec3 (m00 (matrot c)) (m01 (matrot c)) (m02 (matrot c))) speed.

Definition on_SPACE (c : cam) (speed : Q) : cam :=
  set_pos c (mkvec3 (x3 (pos c)) (y3 (pos c) + speed) (z3 (pos c))).

Definition on_SHIFT (c : cam) (speed : Q) : cam :=
  set_pos c (mkvec3 (x3 (pos c)) (y3 (pos c) - speed) (z3 (pos c))).

Definition on_LEFT (c : cam) (rotationSpeed : Q) : cam :=
  set_yaw c (yaw c + rotationSpeed).

Definition on_RIGHT (c : cam) (rotationSpeed : Q) : cam :=
  set_yaw c (yaw c - rotationSpeed).

Definition on_UP (c : cam) (rotationSpeed : Q) : cam :=
  set_pitch c (pitch c + rotationSpeed).

Definition on_DOWN (c : cam) (rotationSpeed : Q) : cam :=
  set_pitch c (pitch c - rotationSpeed).

(** [camera.speed += zoomf] and
    [camera.speed -= (camera.speed >= zoomf) ? zoomf : 0]. *)
Definition on_I (c : cam) (zoomf : Q) : cam :=
  set_speed c (speed c + zoomf).

Definition on_O (c : cam) (zoomf : Q) : cam :=
  set_speed c (speed c - (if Qgeb (speed c) zoomf then zoomf else 0)).

(** The camera after the twelve blocks that move it. *)
Definition k_camera (c : cam) (dt : Q) (k : keys) : cam :=
  let speed := dt * speed c in
  let rotationSpeed := dt * 1 in
  let zoomf := 1 # 10 in
  let c := if key_W k then on_W c speed else c in
  let c := if key_S k then on_S c speed else c in
  let c := if key_A k then on_A c speed else c in
  let c := if key_D k then on_D c speed else c in
  let c := if key_SPACE k then on_SPACE c speed else c in
  let c := if key_SHIFT k then on_SHIFT c speed else c in
  let c := if key_LEFT k then on_LEFT c rotationSpeed else c in
  let c := if key_RIGHT k then on_RIGHT c rotationSpeed else c in
  let c := if key_UP k then on_UP c rotationSpeed else c in
  let c := if key_DOWN k then on_DOWN c rotationSpeed else c in
  let c := if key_I k then on_I c zoomf else c in
  let c := if key_O k then on_O c zoomf else c in
  c.

(** [c3d_k_handle]; [dt] is what [c3d_getdeltatime] returns and
    [rand1], [rand2], [rand3] are the results of the calls of [rand]. *)
Definition c3d_k_handle (d : display) (dt : Q) (k : keys) (rand1 rand2 rand3 : Z)
    : display :=
  let d := set_camera d (k_camera (camera d) dt k) in
  if key_RETURN k || key_LBUTTON k then
    let new_light :=
      mklight (mkvec3 (x3 (pos (camera d))) (y3 (pos (camera d)))
                      (z3 (pos (camera d))))
              (mkvec3 (inject_Z (Z.rem rand1 256) / 255)
                      (inject_Z (Z.rem rand2 256) / 255)
                      (inject_Z (Z.rem rand3 256) / 255))
              1 (5 # 10) in
    c3d_lightadd d new_light
  else d.

(** *** The size of the display *)

(** What [c3d_winsize] reports. *)
Record window := mkwindow { win_width : Z; win_height : Z }.

(** [c3d_auto_winres] on the display and the camera it is given;
    [None] is the division by zero of a console five rows high.  The
    aspect is the quotient of two [int], converted to [float]. *)
Definition c3d_auto_winres (d : display) (c : cam) (size : window)
    : option (display * cam) :=
  let correction_factor := 5%Z in
  let d := mkdisplay (meshes d) (background_color d) (background_tex d)
                     (camera d) (behaviors d) (lights d) (running d)
                     (win_width size - correction_factor)
                     (win_height size - correction_factor) (frame_count d) in
  if (win_height size - correction_factor =? 0)%Z then None
  else
    Some (d, mkcam (pos c) (matrot c) (theta c) (fov c)
                   (inject_Z (Z.quot (win_width size - correction_factor)
                                     (win_height size - correction_factor)))
                   (fnear c) (ffar c) (yaw c) (pitch c) (speed c)).

(** *** The text of a frame: what [c3d_render] writes to the console *)

(** [C3D_CLAMP] on [int] operands. *)
Definition C3D_CLAMP_int (var x y : Z) : Z :=
  if (var >? y)%Z then y else if (var <? x)%Z then x else var.

(** The characters that [%d] prints for an [int]: at most ten digits,
    after a minus sign when it is negative. *)
Fixpoint decimal_digits (fuel : nat) (n : Z) (acc : list Z) : list Z :=
  match fuel with
  | O => acc
  | S fuel' =>
      let acc' := (48 + n mod 10)%Z :: acc in
      if (n <? 10)%Z then acc' else decimal_digits fuel' (n / 10) acc'
  end.

Definition print_int (n : Z) : list Z :=
  if (n <? 0)%Z then 45%Z :: decimal_digits 10 (- n) []
  else decimal_digits 10 n [].

(** The wide strings of the format arguments: ESC is 27, '[' is 91,
    ';' is 59, 'm' is 109, 'H' is 72. *)
Definition set_background (r g b : Z) : list Z :=       (* L"\x1b[48;2;%d;%d;%dm" *)
  [27; 91; 52; 56; 59; 50; 59]%Z ++ print_int r ++ [59%Z] ++ print_int g
  ++ [59%Z] ++ print_int b ++ [109%Z].

Definition set_foreground (r g b : Z) : list Z :=       (* L"\x1b[38;2;%d;%d;%dm" *)
  [27; 91; 51; 56; 59; 50; 59]%Z ++ print_int r ++ [59%Z] ++ print_int g
  ++ [59%Z] ++ print_int b ++ [109%Z].

Definition cursor_home : list Z := [27; 91; 72]%Z.      (* L"\x1b[H" *)
Definition sgr_reset : list Z := [27; 91; 48; 109]%Z.   (* L"\x1b[0m" *)

(** [output_buffer] is allocated with
    [display_height * (display_width * 30 + 10) * sizeof(wchar_t)]
    bytes: that many elements of type [wchar_t]. *)
Definition output_elements (d : display) : Z :=
  (display_height d * (display_width d * 30 + 10))%Z.

(** [buffer_pos += swprintf(&output_buffer[buffer_pos], ..., text)].
    [out] is what has been written so far, so [buffer_pos] is its
    length.  The count given to [swprintf] is a number of bytes, more
    than the elements that are left, so it stops no write that fits the
    allocation; [None] is a write of the text or of its terminating
    zero outside the allocation. *)
Definition swprintf_at (d : display) (out text : list Z) : option (list Z) :=
  let buffer_pos := Z.of_nat (List.length out) in
  if (buffer_pos + Z.of_nat (List.length text) <? output_elements d)%Z
  then Some (out ++ text) else None.

(** [output_buffer[buffer_pos++] = wc]. *)
Definition put_wchar (d : display) (out : list Z) (wc : Z) : option (list Z) :=
  if (Z.of_nat (List.length out) <? output_elements d)%Z
  then Some (out ++ [wc]) else None.

(** The body of the inner loop; the state is the text written and
    [lastColor]. *)
Definition render_cell (d : display) (buffer colorBuffer : grid Z) (y x : Z)
    (st : list Z * Z) : option (list Z * Z) :=
  let '(out, lastColor) := st in
  match grid_get colorBuffer y x with
  | None => None
  | Some color =>
      let colored :=
        if negb (color =? lastColor)%Z then
          match swprintf_at d out
                  (set_foreground (GetRValue color) (GetGValue color)
                                  (GetBValue color)) with
          | None => None
          | Some out' => Some (out', color)
          end
        else Some (out, lastColor) in
      match colored with
      | None => None
      | Some (out, lastColor) =>
          match grid_get buffer y x with
          | None => None
          | Some wc =>
              match put_wchar d out wc with
              | None => None
              | Some out' => Some (out', lastColor)
              end
          end
      end
  end.

(** The body of the outer loop: the cells of the row, then L'\n'. *)
Definition render_row (d : display) (buffer colorBuffer : grid Z) (y : Z)
    (st : list Z * Z) : option (list Z * Z) :=
  match for_each (Zrange 0 (display_width d - 1))
                 (render_cell d buffer colorBuffer y) st with
  | None => None
  | Some (out, lastColor) =>
      match put_wchar d out 10 with
      | None => None
      | Some out' => Some (out', lastColor)
      end
  end.

(** The characters that [c3d_render] hands to [WriteConsoleW]; [None]
    is an access outside [output_buffer] or outside the two buffers of
    the frame. *)
Definition c3d_render_text (d : display) (buffer colorBuffer : grid Z)
    : option (list Z) :=
  let bgr := C3D_CLAMP_int (Qtrunc (x3 (background_color d))) 0 255 in
  let bgg := C3D_CLAMP_int (Qtrunc (y3 (background_color d))) 0 255 in
  let bgb := C3D_CLAMP_int (Qtrunc (z3 (background_color d))) 0 255 in
  match swprintf_at d [] (set_background bgr bgg bgb) with
  | None => None
  | Some out =>
      match swprintf_at d out cursor_home with
      | None => None
      | Some out =>
          let lastColor := 4294967295%Z in     (* 0xFFFFFFFF *)
          match for_each (Zrange 0 (display_height d - 1))
                         (render_row d buffer colorBuffer) (out, lastColor) with
          | None => None
          | Some (out, _) => swprintf_at d out sgr_reset
          end
      end
  end.

(** *** The line drawer: [c3d_bresenham] *)





(** ** Vocabulary of the statements *)

Definition plane_dist (v : vex) : Q := z4 (clip v) + w4 (clip v).

(** The triangle with its corners rotated: (vy, vz, vx). *)
Definition rotate_corners (t : tri) : tri :=
  mktri (vy t) (vz t) (vx t) (uvy t) (uvz t) (uvx t) (nvy t) (nvz t) (nvx t).

(** The corners of [t] in clip space, as [c3d_nearclip] builds them. *)
Definition corner0 (t : tri) (matcam : mat4) : vex :=
  mkvex (c3d_mat4vec4 (vx t) matcam) (vx t) (nvx t) (uvx t).
Definition corner1 (t : tri) (matcam : mat4) : vex :=
  mkvex (c3d_mat4vec4 (vy t) matcam) (vy t) (nvy t) (uvy t).
Definition corner2 (t : tri) (matcam : mat4) : vex :=
  mkvex (c3d_mat4vec4 (vz t) matcam) (vz t) (nvz t) (uvz t).

Definition all_inside (t : tri) (matcam : mat4) : Prop :=
  c3d_innear (corner0 t matcam) = true
  /\ c3d_innear (corner1 t matcam) = true
  /\ c3d_innear (corner2 t matcam) = true.

Definition all_outside (t : tri) (matcam : mat4) : Prop :=
  c3d_innear (corner0 t matcam) = false
  /\ c3d_innear (corner1 t matcam) = false
  /\ c3d_innear (corner2 t matcam) = false.

(** lerp(a, b, t) on one component, and on the four attribute groups
    of a vertex, as the specification words it. *)
Definition lerp (a b t : Q) : Q := a + t * (b - a).

Definition lerp_vec2 (a b : vec2) (t : Q) : vec2 :=
  mkvec2 (lerp (x2 a) (x2 b) t) (lerp (y2 a) (y2 b) t).
Definition lerp_vec3 (a b : vec3) (t : Q) : vec3 :=
  mkvec3 (lerp (x3 a) (x3 b) t) (lerp (y3 a) (y3 b) t) (lerp (z3 a) (z3 b) t).
Definition lerp_vec4 (a b : vec4) (t : Q) : vec4 :=
  mkvec4 (lerp (x4 a) (x4 b) t) (lerp (y4 a) (y4 b) t)
         (lerp (z4 a) (z4 b) t) (lerp (w4 a) (w4 b) t).

(** [v] is the interpolation of every attribute of [A] and [B] at [t]. *)
Definition interpolates (A B : vex) (t : Q) (v : vex) : Prop :=
  clip v = lerp_vec4 (clip A) (clip B) t
  /\ space v = lerp_vec3 (space A) (space B) t
  /\ normal v = lerp_vec3 (normal A) (normal B) t
  /\ uv v = lerp_vec2 (uv A) (uv B) t.

(** An edge crosses the plane when exactly one end is inside. *)
Definition crosses (A B : vex) : Prop := c3d_innear A <> c3d_innear B.

(** The normal (vy - vx) x (vz - vx) of a triangle and the vector from
    the camera to its first corner. *)
Definition vec3_sub (a b : vec3) : vec3 :=
  mkvec3 (x3 a - x3 b) (y3 a - y3 b) (z3 a - z3 b).






(** A texture whose samples can be indexed by an [int]: at least one
    column and one row, and [width * height] within [INT_MAX]. *)
Definition tex_indexable (tex : texture) : Prop :=
  (1 <= width tex)%Z /\ (1 <= height tex)%Z
  /\ (width tex * height tex <= INT_MAX)%Z.

Definition in_unit (c : vec3) : Prop :=
  0 <= x3 c <= 1 /\ 0 <= y3 c <= 1 /\ 0 <= z3 c <= 1.

(** The quantities that the loop body of [c3d_bphongshade] computes for
    a light [L] and a sample at [space] with normal [normal]. *)
Definition light_dist (L : light) (space : vec3) : Q :=
  let toLight := vec3_sub (position L) space in
  sqrtf (x3 toLight * x3 toLight + y3 toLight * y3 toLight + z3 toLight * z3 toLight).

(** The distance after [if (dist <= 0.0001f) dist = 0.0001f]. *)
Definition clamped_dist (L : light) (space : vec3) : Q :=
  if Qleb (light_dist L space) (1 # 10000) then 1 # 10000 else light_dist L space.

Definition light_dir (L : light) (space : vec3) : vec3 :=
  c3d_vec3normalize (vec3_sub (position L) space).

Definition NdotL (normal space : vec3) (L : light) : Q :=
  max 0 (c3d_vec3dot normal (light_dir L space)).

Definition view_dir (d : display) (space : vec3) : vec3 :=
  c3d_vec3normalize (vec3_sub (pos (camera d)) space).

Definition half_dir (d : display) (space : vec3) (L : light) : vec3 :=
  c3d_vec3normalize
    (mkvec3 (x3 (view_dir d space) + x3 (light_dir L space))
            (y3 (view_dir d space) + y3 (light_dir L space))
            (z3 (view_dir d space) + z3 (light_dir L space))).

Definition NdotH (d : display) (normal space : vec3) (L : light) : Q :=
  max 0 (c3d_vec3dot normal (half_dir d space L)).

(** a = 1 / (1 + (dist/radius)^2), on the clamped distance. *)
Definition attenuation (L : light) (space : vec3) : Q :=
  1 / (1 + (clamped_dist L space / radius L) * (clamped_dist L space / radius L)).


Definition vec3_add (a b : vec3) : vec3 :=
  mkvec3 (x3 a + x3 b) (y3 a + y3 b) (z3 a + z3 b).

Definition vec3_scale (a : vec3) (s : Q) : vec3 :=
  mkvec3 (x3 a * s) (y3 a * s) (z3 a * s).

(** The componentwise product k ⊙ c. *)
Definition vec3_mul (k c : vec3) : vec3 :=
  mkvec3 (x3 k * x3 c) (y3 k * y3 c) (z3 k * z3 c).


(** The colour of a sample as the specification words it:
    c = (ambient + diffuse) ⊙ tex + specular, then
    c = lerp(background, c, transparency), clamped to [0,1]. *)
Definition shaded_color (ambient diffuse specular tex_color : vec3) : vec3 :=
  vec3_add (vec3_mul (vec3_add ambient diffuse) tex_color) specular.

Definition mixed_color (d : display) (mtl : material)
    (ambient diffuse specular tex_color : vec3) : vec3 :=
  lerp_vec3 (background_color d)
            (shaded_color ambient diffuse specular tex_color)
            (transparency mtl).

Definition pixel_color (d : display) (mtl : material)
    (ambient diffuse specular tex_color : vec3) : vec3 :=
  clamp01 (mixed_color d mtl ambient diffuse specular tex_color).

(** The two conversions of a channel in [0,1] to 8 bits: rounding to
    the nearest integer, and rounding down. *)
Definition round_channel (c : Q) : Z := Qfloor (c * 255 + (1 # 2)).
Definition floor_channel (c : Q) : Z := Qfloor (c * 255).

(** The three channels of the COLORREF [col] are the channels of [c]
    rounded down. *)
Definition channels_floor (col : Z) (c : vec3) : Prop :=
  GetRValue col = floor_channel (x3 c)
  /\ GetGValue col = floor_channel (y3 c)
  /\ GetBValue col = floor_channel (z3 c).

(** The channel [n] of a written colour is within 1/255 of [m]: it is
    at most [m], and more than [m - 1/255]. *)
Definition within_255 (n : Z) (m : Q) : Prop :=
  m - (1 # 255) < inject_Z n / 255 /\ inject_Z n / 255 <= m.

(** 0.5 * background + 0.5 * shaded colour. *)
Definition half_mix (d : display) (ambient diffuse specular tex_color : vec3) : vec3 :=
  vec3_add (vec3_scale (background_color d) (1 # 2))
           (vec3_scale (shaded_color ambient diffuse specular tex_color) (1 # 2)).

(** The outputs of the shader and of the sampler for some sample. *)
Definition sample_of (d : display) (mtl : material)
    (ambient diffuse specular tex_color : vec3) : Prop :=
  exists normal space tex u v,
    c3d_bphongshade d normal space mtl = (ambient, diffuse, specular)
    /\ diffuse_tex mtl = Some tex
    /\ c3d_texsample tex u v = Some tex_color.

(** The colour [col] is what the specification, with the channels
    rounded down, gives for a sample. *)
Definition emitted_color (d : display) (mtl : material) (col : Z) : Prop :=
  exists ambient diffuse specular tex_color,
    sample_of d mtl ambient diffuse specular tex_color
    /\ col = colorref_of (final_color d mtl ambient diffuse specular tex_color)
    /\ channels_floor col (pixel_color d mtl ambient diffuse specular tex_color)
    /\ (transparency mtl == 1 # 2 ->
        in_unit (half_mix d ambient diffuse specular tex_color) ->
        within_255 (GetRValue col) (x3 (half_mix d ambient diffuse specular tex_color))
        /\ within_255 (GetGValue col) (y3 (half_mix d ambient diffuse specular tex_color))
        /\ within_255 (GetBValue col) (z3 (half_mix d ambient diffuse specular tex_color))).

(** The cells of the colour buffer after some writes: unchanged, or
    holding an emitted colour. *)
Definition colors_inv (d : display) (mtl : material) (b0 b : buffers) : Prop :=
  forall y x,
    grid_get (colorBuffer b) y x = grid_get (colorBuffer b0) y x
    \/ exists col, grid_get (colorBuffer b) y x = Some col /\ emitted_color d mtl col.

(** The bottom row of the camera rotation is (0, 0, 0, 1), as it is
    for a product of the rotation matrices of c3d.h. *)
Definition affine_rotation (M : mat4) : Prop :=
  m30 M == 0 /\ m31 M == 0 /\ m32 M == 0 /\ m33 M == 1.



(** Two triangles with the same three corner positions. *)
Definition same_corners (t t' : tri) : Prop :=
  vx t = vx t' /\ vy t = vy t' /\ vz t = vz t'.





(** *** Vocabulary for the linear algebra and the mesh transforms *)

(** Equality of the components as rational numbers. *)
Definition vec2_eq (a b : vec2) : Prop := x2 a == x2 b /\ y2 a == y2 b.

Definition vec3_eq (a b : vec3) : Prop :=
  x3 a == x3 b /\ y3 a == y3 b /\ z3 a == z3 b.

Definition vec4_eq (a b : vec4) : Prop :=
  x4 a == x4 b /\ y4 a == y4 b /\ z4 a == z4 b /\ w4 a == w4 b.

Definition vex_eq (a b : vex) : Prop :=
  vec4_eq (clip a) (clip b) /\ vec3_eq (space a) (space b)
  /\ vec3_eq (normal a) (normal b) /\ vec2_eq (uv a) (uv b).

Definition mat4_eq (A B : mat4) : Prop :=
  forall i j, mat4_at A i j == mat4_at B i j.

(** The determinant of the upper-left 3x3 block, as
    [c3d_mat4invtranspose3] computes it. *)
Definition det3 (M : mat4) : Q :=
  m00 M * (m11 M * m22 M - m12 M * m21 M)
  - m01 M * (m10 M * m22 M - m12 M * m20 M)
  + m02 M * (m10 M * m21 M - m11 M * m20 M).

(** The image of a direction: the difference of the images of two
    points that differ by [t]. *)
Definition mat4dir (M : mat4) (t : vec3) : vec3 :=
  vec3_sub (c3d_mat4vec3 t M) (c3d_mat4vec3 vec3_0 M).

(** The last column of [M] above the bottom row is zero: [M] moves no
    point by a translation. *)
Definition no_translation (M : mat4) : Prop :=
  m03 M == 0 /\ m13 M == 0 /\ m23 M == 0.

(** How many of the three corners of [t] are inside the near
    half-space. *)
Definition inside_count (t : tri) (matcam : mat4) : nat :=
  List.length (filter c3d_innear (clip_input t matcam)).

(** A point of normalised device coordinates inside the view cube. *)
Definition in_cube (v : vec3) : Prop :=
  -1 <= x3 v <= 1 /\ -1 <= y3 v <= 1 /\ -1 <= z3 v <= 1.

(** *** Vocabulary for the frame buffers *)

(** A grid of [h] rows of [w] cells. *)
Definition grid_shape {T} (g : grid T) (h w : Z) : Prop :=
  List.length g = Z.to_nat h
  /\ Forall (fun row => List.length row = Z.to_nat w) g.




(** The cell (y, x) is the same in the three buffers of [b0] and [b]. *)
Definition cell_kept (b0 b : buffers) (y x : Z) : Prop :=
  grid_get (buffer b) y x = grid_get (buffer b0) y x
  /\ grid_get (colorBuffer b) y x = grid_get (colorBuffer b0) y x
  /\ grid_get (depthBuffer b) y x = grid_get (depthBuffer b0) y x.

(** The cell (y, x) was drawn between [b0] and [b]: it holds a full
    block, a colour built by [RGB], and a depth that passed the test
    against the depth it had in [b0]. *)
Definition cell_drawn (b0 b : buffers) (y x : Z) : Prop :=
  grid_get (buffer b) y x = Some C3D_PXCHAR
  /\ (exists r g bl, grid_get (colorBuffer b) y x = Some (RGB r g bl))
  /\ exists z dz,
       grid_get (depthBuffer b) y x = Some (Finite z)
       /\ grid_get (depthBuffer b0) y x = Some dz
       /\ depth_lt z dz = true.

Definition depth_tested (b0 b : buffers) : Prop :=
  forall y x, cell_kept b0 b y x \/ cell_drawn b0 b y x.

(** The depths of [b] are those of [b0] or lie in [lo, hi]. *)
Definition depths_within (lo hi : Q) (b0 b : buffers) : Prop :=
  forall y x,
    grid_get (depthBuffer b) y x = grid_get (depthBuffer b0) y x
    \/ exists z, grid_get (depthBuffer b) y x = Some (Finite z) /\ lo <= z <= hi.

(** *** A terminal for the text of a frame *)

(** A cell of the screen: the character and the foreground colour it
    was printed with. *)
Definition cell : Type := Z * option (Z * Z * Z).

(** The state of a terminal that reads the sequences of [c3d_render]:
    outside a sequence, after ESC, or inside the parameters of a
    sequence (the numbers read and the one being read). *)
Inductive term_mode :=
  | Normal
  | Escape
  | Params (nums : list Z) (cur : Z).

Record term := mkterm {
  t_mode : term_mode;
  t_fg : option (Z * Z * Z);
  t_bg : option (Z * Z * Z);
  t_rows : list (list cell);      (* the rows that are complete *)
  t_line : list cell }.           (* the row being printed *)

(** ESC [ ... m: 38;2;r;g;b sets the foreground, 48;2;r;g;b the
    background, 0 resets both. *)
Definition term_sgr (nums : list Z) (t : term) : term :=
  match nums with
  | [38; 2; r; g; b]%Z => mkterm Normal (Some (r, g, b)) (t_bg t) (t_rows t) (t_line t)
  | [48; 2; r; g; b]%Z => mkterm Normal (t_fg t) (Some (r, g, b)) (t_rows t) (t_line t)
  | [0]%Z => mkterm Normal None None (t_rows t) (t_line t)
  | _ => mkterm Normal (t_fg t) (t_bg t) (t_rows t) (t_line t)
  end.

Definition term_step (t : term) (c : Z) : term :=
  match t_mode t with
  | Normal =>
      if (c =? 27)%Z then mkterm Escape (t_fg t) (t_bg t) (t_rows t) (t_line t)
      else if (c =? 10)%Z
      then mkterm Normal (t_fg t) (t_bg t) (t_rows t ++ [t_line t]) []
      else mkterm Normal (t_fg t) (t_bg t) (t_rows t) (t_line t ++ [(c, t_fg t)])
  | Escape =>
      if (c =? 91)%Z then mkterm (Params [] 0) (t_fg t) (t_bg t) (t_rows t) (t_line t)
      else mkterm Normal (t_fg t) (t_bg t) (t_rows t) (t_line t)
  | Params nums cur =>
      if ((48 <=? c) && (c <=? 57))%Z
      then mkterm (Params nums (cur * 10 + (c - 48))) (t_fg t) (t_bg t)
                  (t_rows t) (t_line t)
      else if (c =? 59)%Z
      then mkterm (Params (nums ++ [cur]) 0) (t_fg t) (t_bg t) (t_rows t) (t_line t)
      else if (c =? 109)%Z then term_sgr (nums ++ [cur]) t
      else if (c =? 72)%Z then mkterm Normal (t_fg t) (t_bg t) [] []
      else mkterm Normal (t_fg t) (t_bg t) (t_rows t) (t_line t)
  end.

Definition term_run (text : list Z) (t : term) : term :=
  fold_left term_step text t.

Definition term_init : term := mkterm Normal None None [] [].

(** What the frame should show: every cell of [buffer] in the colour
    of the same cell of [colorBuffer]. *)
Definition frame_cell (buffer colorBuffer : grid Z) (y x : Z) : cell :=
  match grid_get buffer y x, grid_get colorBuffer y x with
  | Some wc, Some color =>
      (wc, Some (GetRValue color, GetGValue color, GetBValue color))
  | _, _ => (0%Z, None)
  end.

Definition frame_cells (d : display) (buffer colorBuffer : grid Z)
    : list (list cell) :=
  map (fun y => map (frame_cell buffer colorBuffer y)
                    (Zrange 0 (display_width d - 1)))
      (Zrange 0 (display_height d - 1)).

(** The value of a string of decimal digits read after [cur]. *)
Definition digits_value (text : list Z) (cur : Z) : Z :=
  fold_left (fun cur c => cur * 10 + (c - 48))%Z text cur.

Definition is_digit (c : Z) : bool := ((48 <=? c) && (c <=? 57))%Z.

(** The decimal text of a byte: digits only, that read back as the
    byte, at most three of them and exactly three from 100 on. *)
Definition byte_prints (n : Z) : bool :=
  forallb is_digit (print_int n)
  && (digits_value (print_int n) 0 =? n)%Z
  && (List.length (print_int n) <=? 3)%nat
  && (1 <=? List.length (print_int n))%nat
  && ((n <? 100)%Z || (List.length (print_int n) =? 3)%nat).

(** The text written so far leaves the terminal outside any sequence,
    showing the rows [rows] and the cells [line] of the current row;
    the foreground colour is the one of [lastColor], unless
    [lastColor] still holds 0xFFFFFFFF. *)
Definition printed (rows : list (list cell)) (line : list cell)
    (st : list Z * Z) : Prop :=
  exists fg bg,
    term_run (fst st) term_init = mkterm Normal fg bg rows line
    /\ (snd st = 4294967295%Z
        \/ fg = Some (GetRValue (snd st), GetGValue (snd st), GetBValue (snd st))).

(** *** Vocabulary for the smooth normals *)

(** The normals of the corners of every triangle, in order. *)
Definition corner_normals (ts : list tri) : list vec3 :=
  flat_map (fun t => [nvx t; nvy t; nvz t]) ts.

(** The state of the first loop of [c3d_vecnormalavg] after the
    positions [pre]: every position has an entry in [map_unique], the
    index of the first unique position that matches it. *)
Definition indexed (st : list vec3 * list nat) (pre : list vec3) : Prop :=
  List.length (snd st) = List.length pre
  /\ forall q v, nth_error pre q = Some v ->
       exists k, nth_error (snd st) q = Some k
                 /\ find_unique (fst st) v 0 = Some k.

(** *** Sample input events *)

(** W, O and RETURN are pressed. *)
Definition sample_keys : keys :=
  mkkeys true false false false false false false false false false
         false true true false.

(** A console of 125 columns and 35 rows. *)
Definition console : window := mkwindow 125 35.

(** *** Vocabulary for the line drawer *)



(** * Properties *)

(** ** Comparisons *)

Lemma Qgeb_true (a b : Q) : Qgeb a b = true <-> b <= a.
Proof. unfold Qgeb. apply Qle_bool_iff. Qed.

Lemma Qgeb_false (a b : Q) : Qgeb a b = false <-> a < b.
Proof.
  unfold Qgeb. rewrite <- not_true_iff_false, Qle_bool_iff.
  split; intro H; [apply Qnot_le_lt | apply Qlt_not_le]; exact H.
Qed.

Lemma Qgtb_true (a b : Q) : Qgtb a b = true <-> b < a.
Proof.
  unfold Qgtb. rewrite negb_true_iff. apply (Qgeb_false b a).
Qed.

Lemma Qgtb_false (a b : Q) : Qgtb a b = false <-> a <= b.
Proof.
  unfold Qgtb. rewrite negb_false_iff. apply Qle_bool_iff.
Qed.

Lemma Qltb_true (a b : Q) : Qltb a b = true <-> a < b.
Proof. apply (Qgtb_true b a). Qed.

Lemma Qltb_false (a b : Q) : Qltb a b = false <-> b <= a.
Proof. apply (Qgtb_false b a). Qed.

Lemma Qleb_true (a b : Q) : Qleb a b = true <-> a <= b.
Proof. apply Qle_bool_iff. Qed.

Lemma Qleb_false (a b : Q) : Qleb a b = false <-> b < a.
Proof. apply (Qgeb_false b a). Qed.

Lemma Qeqb_true (a b : Q) : Qeqb a b = true <-> a == b.
Proof. apply Qeq_bool_iff. Qed.

Lemma Qeqb_false (a b : Q) : Qeqb a b = false <-> ~ a == b.
Proof.
  unfold Qeqb. rewrite <- not_true_iff_false, Qeq_bool_iff. tauto.
Qed.

Lemma C3D_CLAMP_range (var x y : Q) :
  x <= y -> x <= C3D_CLAMP var x y <= y.
Proof.
  intro Hxy. unfold C3D_CLAMP.
  destruct (Qgtb var y) eqn:Hy.
  - split; [exact Hxy | apply Qle_refl].
  - apply Qgtb_false in Hy.
    destruct (Qltb var x) eqn:Hx.
    + split; [apply Qle_refl | exact Hxy].
    + apply Qltb_false in Hx. split; assumption.
Qed.

Lemma C3D_CLAMP_id (var x y : Q) :
  x <= var <= y -> C3D_CLAMP var x y = var.
Proof.
  intros [Hx Hy]. unfold C3D_CLAMP.
  apply Qgtb_false in Hy. rewrite Hy.
  apply Qltb_false in Hx. rewrite Hx. reflexivity.
Qed.

(** ** Near-plane clipping *)

Lemma innear_true (v : vex) : c3d_innear v = true <-> 0 <= plane_dist v.
Proof. apply Qgeb_true. Qed.

Lemma innear_false (v : vex) : c3d_innear v = false <-> plane_dist v < 0.
Proof. apply Qgeb_false. Qed.

(** The loop of [c3d_suthhodgman] on a triangle visits the edges
    (a,b), (b,c), (c,a). *)
Lemma poly_edges_triangle (a b c : vex) :
  poly_edges [a; b; c] = [(a, b); (b, c); (c, a)].
Proof. reflexivity. Qed.

Lemma suthhodgman_triangle_edges (a b c : vex) :
  c3d_suthhodgman [a; b; c] = clip_edge a b ++ clip_edge b c ++ clip_edge c a.
Proof.
  unfold c3d_suthhodgman. rewrite poly_edges_triangle. simpl.
  rewrite app_nil_r. reflexivity.
Qed.

(** The count returned by [c3d_suthhodgman] on a triangle, by the
    number of corners inside the near half-space. *)
Lemma suthhodgman_triangle_count (a b c : vex) :
  let n := List.length (c3d_suthhodgman [a; b; c]) in
  (n = 0 \/ n = 3 \/ n = 4)%nat.
Proof.
  rewrite suthhodgman_triangle_edges. unfold clip_edge.
  destruct (c3d_innear a), (c3d_innear b), (c3d_innear c); simpl; auto.
Qed.

(** At most four of the eight cells of [temp] are written. *)
Lemma suthhodgman_triangle_fits (a b c : vex) :
  (List.length (c3d_suthhodgman [a; b; c]) <= 8)%nat.
Proof.
  pose proof (suthhodgman_triangle_count a b c) as H. simpl in H. lia.
Qed.

Lemma suthhodgman_all_inside (a b c : vex) :
  c3d_innear a = true -> c3d_innear b = true -> c3d_innear c = true ->
  c3d_suthhodgman [a; b; c] = [b; c; a].
Proof.
  intros Ha Hb Hc. rewrite suthhodgman_triangle_edges. unfold clip_edge.
  rewrite Ha, Hb, Hc. reflexivity.
Qed.

Lemma suthhodgman_all_outside (a b c : vex) :
  c3d_innear a = false -> c3d_innear b = false -> c3d_innear c = false ->
  c3d_suthhodgman [a; b; c] = [].
Proof.
  intros Ha Hb Hc. rewrite suthhodgman_triangle_edges. unfold clip_edge.
  rewrite Ha, Hb, Hc. reflexivity.
Qed.

(** C3 (as amended): clipping a triangle against the near plane gives a
    polygon of 0, 3 or 4 vertices, hence at most two triangles; a
    triangle with its three corners inside the near half-space comes
    out as one triangle with the same corners and attributes in the
    rotated order (vy, vz, vx), and a triangle with its three corners
    outside gives no triangle. *)
Theorem nearclip_triangle (t : tri) (matcam : mat4) :
  let outc := List.length (c3d_suthhodgman (clip_input t matcam)) in
  (outc = 0 \/ outc = 3 \/ outc = 4)%nat
  /\ (List.length (c3d_nearclip t matcam) <= 2)%nat
  /\ (all_inside t matcam -> c3d_nearclip t matcam = [rotate_corners t])
  /\ (all_outside t matcam -> c3d_nearclip t matcam = []).
Proof.
  cbv zeta. unfold clip_input.
  fold (corner0 t matcam) (corner1 t matcam) (corner2 t matcam).
  split; [apply suthhodgman_triangle_count |].
  split; [| split].
  - unfold c3d_nearclip, clip_input.
    destruct (_ <? 3)%nat; [simpl; lia |].
    destruct (_ =? 3)%nat; [simpl; lia |].
    destruct (_ =? 4)%nat; simpl; lia.
  - intros (H0 & H1 & H2). unfold c3d_nearclip, clip_input.
    fold (corner0 t matcam) (corner1 t matcam) (corner2 t matcam).
    rewrite (suthhodgman_all_inside _ _ _ H0 H1 H2). reflexivity.
  - intros (H0 & H1 & H2). unfold c3d_nearclip, clip_input.
    fold (corner0 t matcam) (corner1 t matcam) (corner2 t matcam).
    rewrite (suthhodgman_all_outside _ _ _ H0 H1 H2). reflexivity.
Qed.

(** *** Intersection vertices *)

Lemma c3d_lerp_interpolates (A B : vex) (t : Q) :
  interpolates A B t (c3d_lerp A B t).
Proof. repeat split. Qed.

Lemma crosses_denominator (A B : vex) :
  crosses A B -> ~ plane_dist A - plane_dist B == 0.
Proof.
  unfold crosses. intros Hc Heq.
  destruct (c3d_innear A) eqn:Ha, (c3d_innear B) eqn:Hb; try congruence.
  - apply innear_true in Ha. apply innear_false in Hb. lra.
  - apply innear_false in Ha. apply innear_true in Hb. lra.
Qed.

(** In exact arithmetic the intersection lies on the plane z + w = 0. *)
Lemma nearintersect_on_plane (A B : vex) :
  crosses A B -> plane_dist (c3d_nearintersect A B) == 0.
Proof.
  intro Hc. apply crosses_denominator in Hc.
  unfold c3d_nearintersect, c3d_lerp, plane_dist in *. simpl.
  field. exact Hc.
Qed.

(** What one edge contributes: its end [next], when it is inside, or
    the intersection, when the edge crosses the plane. *)
Lemma clip_edge_cases (A B v : vex) :
  In v (clip_edge A B) ->
  (v = B /\ c3d_innear B = true)
  \/ (v = c3d_nearintersect A B /\ crosses A B).
Proof.
  unfold clip_edge, crosses.
  destruct (c3d_innear A) eqn:Ha, (c3d_innear B) eqn:Hb; simpl;
    intuition (subst; auto; try congruence).
Qed.

Lemma poly_edges_in (inVerts : list vex) (A B : vex) :
  In (A, B) (poly_edges inVerts) -> In A inVerts /\ In B inVerts.
Proof.
  unfold poly_edges. rewrite in_map_iff. intros (i & Heq & Hi).
  apply in_seq in Hi. inversion Heq; subst. split; apply nth_In.
  - lia.
  - apply Nat.mod_upper_bound. lia.
Qed.

(** C4: every vertex that near-plane clipping emits is either an input
    vertex that is inside the near half-space, or the intersection of
    an edge (A, B) of the input polygon that crosses the plane; the
    intersection is computed at t = Ad/(Ad-Bd) with Ad = A.z + A.w and
    Bd = B.z + B.w, its clip position, world position, normal and uv
    are lerp(A, B, t) componentwise, and it lies on the plane
    z + w = 0. *)
Theorem nearclip_vertex (inVerts : list vex) (v : vex) :
  In v (c3d_suthhodgman inVerts) ->
  (In v inVerts /\ c3d_innear v = true)
  \/ exists A B t,
       In (A, B) (poly_edges inVerts) /\ crosses A B
       /\ t = (z4 (clip A) + w4 (clip A))
              / ((z4 (clip A) + w4 (clip A)) - (z4 (clip B) + w4 (clip B)))
       /\ v = c3d_nearintersect A B
       /\ interpolates A B t v
       /\ z4 (clip v) + w4 (clip v) == 0.
Proof.
  unfold c3d_suthhodgman. rewrite in_flat_map.
  intros ([A B] & He & Hv). simpl in Hv.
  apply clip_edge_cases in Hv. destruct Hv as [[-> Hin] | [-> Hc]].
  - left. split; [apply (poly_edges_in _ _ _ He) | exact Hin].
  - right. exists A, B, (near_t A B).
    split; [exact He |]. split; [exact Hc |]. split; [reflexivity |].
    split; [reflexivity |]. split.
    + apply c3d_lerp_interpolates.
    + apply (nearintersect_on_plane A B Hc).
Qed.

(** ** Back-face culling *)





(** ** Conversions to integers *)

Lemma Qtrunc_floor (q : Q) : 0 <= q -> Qtrunc q = Qfloor q.
Proof.
  destruct q as [n d]. unfold Qle, Qtrunc, Qfloor. simpl. intro H.
  apply Z.quot_div_nonneg; lia.
Qed.

Lemma Qtrunc_bounds (q : Q) (n : Z) :
  0 <= q -> q <= inject_Z n -> (0 <= Qtrunc q <= n)%Z.
Proof.
  intros H0 Hn. rewrite (Qtrunc_floor q H0). split.
  - change 0%Z with (Qfloor 0). apply Qfloor_resp_le. exact H0.
  - rewrite <- (Qfloor_Z n). apply Qfloor_resp_le. exact Hn.
Qed.

Lemma to_uint32_small (n : Z) : (0 <= n < 2 ^ 32)%Z -> to_uint32 n = n.
Proof. intro H. unfold to_uint32. apply Z.mod_small. exact H. Qed.

Lemma to_int32_small (n : Z) : (0 <= n <= INT_MAX)%Z -> to_int32 n = n.
Proof.
  unfold to_int32, INT_MAX. intro H.
  rewrite Z.mod_small; lia.
Qed.

(** ** Texture sampling *)

(** C9: sampling a texture whose sample data is absent gives opaque
    white, (1,1,1), whatever the coordinates. *)
Theorem texsample_absent (tex : texture) (u v : Q) :
  data tex = None -> c3d_texsample tex u v = Some (mkvec3 1 1 1).
Proof. intro H. unfold c3d_texsample. rewrite H. reflexivity. Qed.

Lemma tex_x_range (tex : texture) (u : Q) :
  tex_indexable tex -> (0 <= tex_x tex u <= width tex - 1)%Z.
Proof.
  intros (Hw & Hh & Hwh). unfold tex_x.
  assert (Hu : 0 <= C3D_CLAMP u 0 1 <= 1) by (apply C3D_CLAMP_range; lra).
  assert (Hs : to_uint32 (width tex - 1) = (width tex - 1)%Z).
  { apply to_uint32_small. unfold INT_MAX in Hwh. nia. }
  rewrite Hs.
  assert (Hq : 0 <= inject_Z (width tex - 1)).
  { change 0 with (inject_Z 0). rewrite <- Zle_Qle. lia. }
  apply Qtrunc_bounds; nra.
Qed.

Lemma tex_y_range (tex : texture) (v : Q) :
  tex_indexable tex -> (0 <= tex_y tex v <= height tex - 1)%Z.
Proof.
  intros (Hw & Hh & Hwh). unfold tex_y.
  assert (Hv : 0 <= C3D_CLAMP v 0 1 <= 1) by (apply C3D_CLAMP_range; lra).
  assert (Hs : to_uint32 (height tex - 1) = (height tex - 1)%Z).
  { apply to_uint32_small. unfold INT_MAX in Hwh. nia. }
  rewrite Hs.
  assert (Hq : 0 <= inject_Z (height tex - 1)).
  { change 0 with (inject_Z 0). rewrite <- Zle_Qle. lia. }
  apply Qtrunc_bounds; nra.
Qed.

(** Without wrap-around the index is [tex_y * width + tex_x]. *)
Lemma tex_index_exact (tex : texture) (u v : Q) :
  tex_indexable tex ->
  tex_index tex u v = (tex_y tex v * width tex + tex_x tex u)%Z.
Proof.
  intro Hi. pose proof (tex_x_range tex u Hi) as Hx.
  pose proof (tex_y_range tex v Hi) as Hy.
  destruct Hi as (Hw & Hh & Hwh). unfold INT_MAX in Hwh.
  unfold tex_index.
  rewrite (to_uint32_small (tex_y tex v * width tex)) by nia.
  rewrite to_uint32_small by nia.
  apply to_int32_small. unfold INT_MAX. nia.
Qed.



(** ** Shading *)




(** The shader folds [shade_light] over the lights, from zero, and
    clamps the three results. *)
Lemma bphongshade_fold (d : display) (normal space : vec3) (mtl : material) :
  c3d_bphongshade d normal space mtl
  = (clamp01 (ambient_color mtl),
     clamp01 (fst (fold_left (shade_light d normal space mtl) (lights d)
                             (vec3_0, vec3_0))),
     clamp01 (snd (fold_left (shade_light d normal space mtl) (lights d)
                             (vec3_0, vec3_0)))).
Proof.
  unfold c3d_bphongshade.
  destruct (fold_left _ _ _) as [out_diffuse out_specular]. reflexivity.
Qed.

(** ** Colours *)

Lemma BYTE_mod (n : Z) : BYTE n = (n mod 2 ^ 8)%Z.
Proof. unfold BYTE. apply (Z.land_ones n 8). lia. Qed.

Lemma BYTE_small (n : Z) : (0 <= n <= 255)%Z -> BYTE n = n.
Proof. intro H. rewrite BYTE_mod. apply Z.mod_small. lia. Qed.

Lemma BYTE_lor (a b : Z) : BYTE (Z.lor a b) = Z.lor (BYTE a) (BYTE b).
Proof. unfold BYTE. apply Z.land_lor_distr_l. Qed.

Lemma BYTE_shiftl (a n : Z) : (8 <= n)%Z -> BYTE (Z.shiftl a n) = 0%Z.
Proof.
  intro Hn. rewrite BYTE_mod, Z.shiftl_mul_pow2 by lia.
  replace n with ((n - 8) + 8)%Z by lia.
  rewrite Z.pow_add_r, Z.mul_assoc by lia. apply Z.mod_mul. lia.
Qed.

Lemma shiftr_small (a n : Z) : (0 <= a < 2 ^ n)%Z -> (0 <= n)%Z -> Z.shiftr a n = 0%Z.
Proof.
  intros Ha Hn. rewrite Z.shiftr_div_pow2 by lia. apply Z.div_small. exact Ha.
Qed.

Lemma RGB_channels (r g b : Z) :
  (0 <= r <= 255)%Z -> (0 <= g <= 255)%Z -> (0 <= b <= 255)%Z ->
  GetRValue (RGB r g b) = r /\ GetGValue (RGB r g b) = g /\ GetBValue (RGB r g b) = b.
Proof.
  intros Hr Hg Hb. unfold GetRValue, GetGValue, GetBValue, RGB.
  rewrite (BYTE_small r Hr), (BYTE_small g Hg), (BYTE_small b Hb).
  repeat split.
  - rewrite !BYTE_lor, !BYTE_shiftl, !Z.lor_0_r by lia. apply BYTE_small, Hr.
  - rewrite !Z.shiftr_lor, !Z.shiftr_shiftl_l by lia. simpl (_ - _)%Z.
    rewrite (shiftr_small r 8), Z.shiftl_0_r by lia.
    rewrite !BYTE_lor, BYTE_shiftl, Z.lor_0_r, Z.lor_0_l by lia.
    apply BYTE_small, Hg.
  - rewrite !Z.shiftr_lor, !Z.shiftr_shiftl_l by lia. simpl (_ - _)%Z.
    rewrite (shiftr_small r 16), Z.shiftl_0_r by lia.
    change (Z.shiftl g (-8)) with (Z.shiftr g 8).
    rewrite (shiftr_small g 8) by lia.
    rewrite !Z.lor_0_l. apply BYTE_small, Hb.
Qed.

Lemma C3D_CLAMP_compat (a b x y : Q) :
  a == b -> C3D_CLAMP a x y == C3D_CLAMP b x y.
Proof.
  intro Hab. unfold C3D_CLAMP.
  destruct (Qgtb a y) eqn:Ha, (Qgtb b y) eqn:Hb;
    try apply Qgtb_true in Ha; try apply Qgtb_false in Ha;
    try apply Qgtb_true in Hb; try apply Qgtb_false in Hb;
    try reflexivity; try lra.
  destruct (Qltb a x) eqn:Ha', (Qltb b x) eqn:Hb';
    try apply Qltb_true in Ha'; try apply Qltb_false in Ha';
    try apply Qltb_true in Hb'; try apply Qltb_false in Hb';
    try reflexivity; try lra.
Qed.

Lemma floor_channel_range (c : Q) :
  0 <= c <= 1 -> (0 <= floor_channel c <= 255)%Z.
Proof.
  intros [H0 H1]. unfold floor_channel. split.
  - change 0%Z with (Qfloor 0). apply Qfloor_resp_le. lra.
  - assert (H : (Qfloor (c * 255) <= Qfloor 255)%Z) by (apply Qfloor_resp_le; lra).
    exact H.
Qed.

(** The colour computed by the code and the colour of the
    specification agree, channel by channel. *)
Lemma final_color_pixel_color (d : display) (mtl : material)
    (ambient diffuse specular tex_color : vec3) :
  let f := final_color d mtl ambient diffuse specular tex_color in
  let p := pixel_color d mtl ambient diffuse specular tex_color in
  x3 f == x3 p /\ y3 f == y3 p /\ z3 f == z3 p.
Proof.
  cbv zeta. unfold final_color, pixel_color, clamp01, mixed_color, lerp_vec3,
    lerp, shaded_color, vec3_add, vec3_mul. simpl.
  repeat split; apply C3D_CLAMP_compat; ring.
Qed.

Lemma final_color_unit (d : display) (mtl : material)
    (ambient diffuse specular tex_color : vec3) :
  in_unit (final_color d mtl ambient diffuse specular tex_color).
Proof.
  unfold final_color, in_unit. simpl.
  repeat split; apply C3D_CLAMP_range; lra.
Qed.

Lemma trunc_channel (f p : Q) :
  0 <= f <= 1 -> f == p -> Qtrunc (f * 255) = floor_channel p.
Proof.
  intros Hf Hfp. rewrite Qtrunc_floor by lra.
  unfold floor_channel. apply Qfloor_comp. rewrite Hfp. reflexivity.
Qed.

(** The COLORREF that the code writes holds the channels of the
    specification's colour, each rounded down. *)
Lemma colorref_channels (d : display) (mtl : material)
    (ambient diffuse specular tex_color : vec3) :
  channels_floor
    (colorref_of (final_color d mtl ambient diffuse specular tex_color))
    (pixel_color d mtl ambient diffuse specular tex_color).
Proof.
  pose proof (final_color_unit d mtl ambient diffuse specular tex_color)
    as (Hx & Hy & Hz).
  pose proof (final_color_pixel_color d mtl ambient diffuse specular tex_color)
    as (Ex & Ey & Ez). cbv zeta in Ex, Ey, Ez.
  unfold colorref_of, channels_floor.
  rewrite (trunc_channel _ _ Hx Ex), (trunc_channel _ _ Hy Ey),
    (trunc_channel _ _ Hz Ez).
  apply RGB_channels; apply floor_channel_range.
  - rewrite <- Ex. exact Hx.
  - rewrite <- Ey. exact Hy.
  - rewrite <- Ez. exact Hz.
Qed.

Lemma floor_within_255 (c m : Q) :
  c == m -> within_255 (floor_channel c) m.
Proof.
  intro Hcm. unfold within_255, floor_channel.
  pose proof (Qfloor_le (c * 255)) as Hle.
  pose proof (Qlt_floor (c * 255)) as Hlt.
  rewrite inject_Z_plus in Hlt. change (inject_Z 1) with 1 in Hlt.
  set (n := inject_Z (Qfloor (c * 255))) in *.
  split.
  - apply Qlt_shift_div_l; lra.
  - apply Qle_shift_div_r; lra.
Qed.

(** With transparency 0.5 and a mix inside [0,1], the clamp is the
    identity and the colour is 0.5*background + 0.5*shaded. *)
Lemma pixel_color_half (d : display) (mtl : material)
    (ambient diffuse specular tex_color : vec3) :
  transparency mtl == 1 # 2 ->
  in_unit (half_mix d ambient diffuse specular tex_color) ->
  let p := pixel_color d mtl ambient diffuse specular tex_color in
  let h := half_mix d ambient diffuse specular tex_color in
  x3 p == x3 h /\ y3 p == y3 h /\ z3 p == z3 h.
Proof.
  intros Ht (Hx & Hy & Hz). cbv zeta.
  unfold pixel_color, clamp01, mixed_color, lerp_vec3, lerp. simpl.
  unfold half_mix, vec3_add, vec3_scale in *. simpl in *.
  repeat split.
  - rewrite C3D_CLAMP_id; rewrite Ht; [ring | lra].
  - rewrite C3D_CLAMP_id; rewrite Ht; [ring | lra].
  - rewrite C3D_CLAMP_id; rewrite Ht; [ring | lra].
Qed.

(** ** Frame buffers *)

Lemma list_set_nth {T} (l : list T) : forall (i : nat) (v : T) (l' : list T),
  list_set l i v = Some l' ->
  forall j, nth_error l' j = if Nat.eqb j i then Some v else nth_error l j.
Proof.
  induction l as [| a l IH]; intros i v l' Hset j; [discriminate |].
  destruct i as [| i]; simpl in Hset.
  - inversion Hset; subst. destruct j; reflexivity.
  - destruct (list_set l i v) as [r |] eqn:Hr; [| intros; discriminate].
    inversion Hset; subst. destruct j as [| j]; [reflexivity |].
    simpl. apply (IH i v r Hr).
Qed.

Lemma grid_set_get {T} (g g' : grid T) (y x : Z) (v : T) :
  grid_set g y x v = Some g' ->
  forall y' x',
    grid_get g' y' x'
    = if ((y' =? y) && (x' =? x))%Z then Some v else grid_get g y' x'.
Proof.
  unfold grid_set, grid_get. intros Hset y' x'.
  destruct ((y <? 0) || (x <? 0))%Z eqn:Hneg; [discriminate |].
  apply orb_false_iff in Hneg. destruct Hneg as [Hy Hx].
  apply Z.ltb_ge in Hy, Hx.
  destruct (nth_error g (Z.to_nat y)) as [row |] eqn:Hrow; [| intros; discriminate].
  destruct (list_set row (Z.to_nat x) v) as [row' |] eqn:Hrow'; [| intros; discriminate].
  destruct ((y' <? 0) || (x' <? 0))%Z eqn:Hneg'.
  - destruct (Z.eqb_spec y' y), (Z.eqb_spec x' x); simpl; try reflexivity.
    subst. apply orb_true_iff in Hneg'.
    destruct Hneg' as [H | H]; apply Z.ltb_lt in H; lia.
  - apply orb_false_iff in Hneg'. destruct Hneg' as [Hy' Hx'].
    apply Z.ltb_ge in Hy', Hx'.
    rewrite (list_set_nth _ _ _ _ Hset).
    destruct (Nat.eqb_spec (Z.to_nat y') (Z.to_nat y)) as [Ey | Ey].
    + assert (y' = y) by lia. subst y'. rewrite Z.eqb_refl. simpl.
      rewrite (list_set_nth _ _ _ _ Hrow').
      destruct (Nat.eqb_spec (Z.to_nat x') (Z.to_nat x)) as [Ex | Ex].
      * assert (x' = x) by lia. subst x'. rewrite Z.eqb_refl. reflexivity.
      * destruct (Z.eqb_spec x' x); [subst; congruence |].
        rewrite Hrow. reflexivity.
    + destruct (Z.eqb_spec y' y); [subst; congruence | reflexivity].
Qed.

Lemma for_each_invariant {A S} (P : S -> Prop) (body : A -> S -> option S) :
  (forall a s s', P s -> body a s = Some s' -> P s') ->
  forall (l : list A) (s s' : S), P s -> for_each l body s = Some s' -> P s'.
Proof.
  intros Hbody l. induction l as [| a l IH]; intros s s' Hs Hrun; simpl in Hrun.
  - inversion Hrun; subst. exact Hs.
  - destruct (body a s) as [s1 |] eqn:Hb; [| intros; discriminate].
    apply (IH s1 s' (Hbody a s s1 Hs Hb) Hrun).
Qed.

(** ** The rasterizer *)

(** A sample that is shaded gets the colour of the specification, with
    the channels rounded down. *)
Lemma shade_sample_emitted (d : display) (t : tri) (mtl : material)
    (inv_w0 inv_w1 inv_w2 w0 w1 w2 denom : Q) (col : Z) :
  shade_sample d t mtl inv_w0 inv_w1 inv_w2 w0 w1 w2 denom = Some col ->
  emitted_color d mtl col.
Proof.
  unfold shade_sample.
  set (u := persp (x2 (uvx t)) _ _ _ _ _ _ _ _ _).
  set (v := persp (y2 (uvx t)) _ _ _ _ _ _ _ _ _).
  set (normal := c3d_vec3normalize _).
  set (space := mkvec3 _ _ _).
  destruct (c3d_bphongshade d normal space mtl) as [[ambient diffuse] specular] eqn:Hs.
  destruct (diffuse_tex mtl) as [tex |] eqn:Htex; [| intros; discriminate].
  destruct (c3d_texsample tex u v) as [tex_color |] eqn:Hsample; [| intros; discriminate].
  intro Hcol. inversion Hcol as [Hc]. clear Hcol.
  exists ambient, diffuse, specular, tex_color.
  split; [exists normal, space, tex, u, v; auto |].
  split; [reflexivity |].
  pose proof (colorref_channels d mtl ambient diffuse specular tex_color)
    as Hch.
  split; [exact Hch |].
  intros Ht Hunit. destruct Hch as (Hr & Hg & Hb).
  pose proof (pixel_color_half d mtl ambient diffuse specular tex_color Ht Hunit)
    as (Ex & Ey & Ez). cbv zeta in Ex, Ey, Ez.
  rewrite Hr, Hg, Hb.
  repeat split; apply floor_within_255; assumption.
Qed.

Lemma raster_pixel_colors (d : display) (pv0 pv1 pv2 : vec2) (area : Q)
    (v0_ndc v1_ndc v2_ndc : vec3) (w0_clip w1_clip w2_clip : Q)
    (t : tri) (mtl : material) (b0 : buffers) (y x : Z) (b b' : buffers) :
  colors_inv d mtl b0 b ->
  raster_pixel d pv0 pv1 pv2 area v0_ndc v1_ndc v2_ndc
               w0_clip w1_clip w2_clip t mtl y x b = Some b' ->
  colors_inv d mtl b0 b'.
Proof.
  intros Hinv. unfold raster_pixel.
  destruct (_ && _ && _); [| intro H; inversion H; subst; exact Hinv].
  destruct (Qeqb _ 0); [intro H; inversion H; subst; exact Hinv |].
  destruct (grid_get (depthBuffer b) y x) as [dz |]; [| intros; discriminate].
  destruct (depth_lt _ dz); [| intro H; inversion H; subst; exact Hinv].
  destruct (grid_set (depthBuffer b) y x _) as [depth' |]; [| intros; discriminate].
  destruct (shade_sample _ _ _ _ _ _ _ _ _ _) as [col |] eqn:Hcol; [| intros; discriminate].
  destruct (grid_set (buffer b) y x C3D_PXCHAR) as [buffer' |]; [| intros; discriminate].
  destruct (grid_set (colorBuffer b) y x col) as [color' |] eqn:Hset; [| intros; discriminate].
  intro H. inversion H; subst. clear H.
  intros y' x'. simpl. rewrite (grid_set_get _ _ _ _ _ Hset y' x').
  destruct ((y' =? y) && (x' =? x))%Z.
  - right. exists col. split; [reflexivity |].
    apply (shade_sample_emitted _ _ _ _ _ _ _ _ _ _ _ Hcol).
  - apply Hinv.
Qed.

(** C6 (as amended): every cell of the colour buffer that the
    rasterizer changes holds, for some sample, the colour
    c = (ambient + diffuse) ⊙ tex + specular mixed with the background
    as lerp(background, c, transparency), clamped componentwise to
    [0,1] and converted to 8-bit channels by rounding c*255 down (not
    to the nearest integer); with transparency 0.5, whenever
    0.5*background + 0.5*shaded colour lies in [0,1] componentwise,
    every written channel is within 1/255 of it. *)
Theorem rasterize_emitted_color (d : display) (b b' : buffers)
    (v0_ndc v1_ndc v2_ndc : vec3) (w0_clip w1_clip w2_clip : Q)
    (t : tri) (mtl : material) :
  c3d_rasterize d b v0_ndc v1_ndc v2_ndc w0_clip w1_clip w2_clip t mtl = Some b' ->
  forall y x,
    grid_get (colorBuffer b') y x = grid_get (colorBuffer b) y x
    \/ exists col ambient diffuse specular tex_color,
         grid_get (colorBuffer b') y x = Some col
         /\ sample_of d mtl ambient diffuse specular tex_color
         /\ channels_floor col
              (clamp01 (lerp_vec3 (background_color d)
                          (shaded_color ambient diffuse specular tex_color)
                          (transparency mtl)))
         /\ (transparency mtl == 1 # 2 ->
             in_unit (half_mix d ambient diffuse specular tex_color) ->
             within_255 (GetRValue col) (x3 (half_mix d ambient diffuse specular tex_color))
             /\ within_255 (GetGValue col) (y3 (half_mix d ambient diffuse specular tex_color))
             /\ within_255 (GetBValue col) (z3 (half_mix d ambient diffuse specular tex_color))).
Proof.
  intro Hrun.
  assert (Hinv : colors_inv d mtl b b').
  { revert Hrun. unfold c3d_rasterize.
    destruct (Qeqb _ 0).
    - intro H. inversion H; subst. intros y x. left. reflexivity.
    - apply (for_each_invariant (colors_inv d mtl b)).
      + intros y s s' Hs. apply (for_each_invariant (colors_inv d mtl b)).
        * intros x s1 s2 Hs1. apply raster_pixel_colors. exact Hs1.
        * exact Hs.
      + intros y x. left. reflexivity. }
  intros y x. destruct (Hinv y x) as [Hsame | (col & Hget & Hem)].
  - left. exact Hsame.
  - right. destruct Hem as (ambient & diffuse & specular & tex_color
                            & Hsample & _ & Hch & Hhalf).
    exists col, ambient, diffuse, specular, tex_color. auto.
Qed.

(** ** Clip-space w after near-plane clipping *)









(** ** Smooth normals *)

Lemma corner_positions_same (ts ts' : list tri) :
  Forall2 same_corners ts ts' -> corner_positions ts = corner_positions ts'.
Proof.
  induction 1 as [| t t' ts ts' (Hx & Hy & Hz) _ IH]; [reflexivity |].
  simpl. rewrite Hx, Hy, Hz, IH. reflexivity.
Qed.

Lemma face_normal_same (t t' : tri) :
  same_corners t t' -> face_normal t = face_normal t'.
Proof.
  intros (Hx & Hy & Hz). unfold face_normal. rewrite Hx, Hy, Hz. reflexivity.
Qed.

(** The accumulation reads the corner positions only. *)
Lemma accumulate_same (ts ts' : list tri) :
  Forall2 same_corners ts ts' ->
  forall i map_unique sums,
    accumulate ts i map_unique sums = accumulate ts' i map_unique sums.
Proof.
  induction 1 as [| t t' ts ts' Ht _ IH]; intros i map_unique sums;
    [reflexivity |].
  simpl. rewrite (face_normal_same t t' Ht). apply IH.
Qed.

Lemma smooth_normals_same (ts ts' : list tri) :
  Forall2 same_corners ts ts' -> smooth_normals ts = smooth_normals ts'.
Proof.
  intro H. unfold smooth_normals.
  rewrite (corner_positions_same ts ts' H).
  destruct (build_unique (corner_positions ts')) as [positions_unique map_unique].
  rewrite (accumulate_same ts ts' H). reflexivity.
Qed.

(** Writing the normals back leaves the positions (and the uv) alone. *)
Lemma write_back_corners (ts : list tri) :
  forall i map_unique normals,
    Forall2 same_corners ts (write_back ts i map_unique normals).
Proof.
  induction ts as [| t ts IH]; intros i map_unique normals; simpl.
  - constructor.
  - constructor; [repeat split | apply IH].
Qed.

(** Writing the same normals back a second time changes nothing. *)
Lemma write_back_twice (ts : list tri) :
  forall i map_unique normals,
    write_back (write_back ts i map_unique normals) i map_unique normals
    = write_back ts i map_unique normals.
Proof.
  induction ts as [| t ts IH]; intros i map_unique normals; simpl.
  - reflexivity.
  - rewrite IH. reflexivity.
Qed.

(** C7: the smooth-normal pass is idempotent: run on its own output it
    gives that output again (it reads the corner positions only,
    leaves them unchanged, and overwrites every normal). *)
Theorem vecnormalavg_idempotent (m : mesh) :
  c3d_vecnormalavg (c3d_vecnormalavg m) = c3d_vecnormalavg m.
Proof.
  unfold c3d_vecnormalavg.
  destruct (smooth_normals (tris m)) as [map_unique normals] eqn:Hs.
  simpl.
  rewrite <- (smooth_normals_same (tris m)
                (write_back (tris m) 0 map_unique normals)
                (write_back_corners (tris m) 0 map_unique normals)).
  rewrite Hs. rewrite write_back_twice. reflexivity.
Qed.

(** The pass keeps the corner positions, the uv coordinates, the name
    and the material of the mesh. *)
Lemma vecnormalavg_keeps (m : mesh) :
  Forall2 same_corners (tris m) (tris (c3d_vecnormalavg m))
  /\ name (c3d_vecnormalavg m) = name m
  /\ mtl (c3d_vecnormalavg m) = mtl m.
Proof.
  unfold c3d_vecnormalavg.
  destruct (smooth_normals (tris m)) as [map_unique normals]. simpl.
  split; [apply write_back_corners | split; reflexivity].
Qed.

(** ** The per-frame driver *)







(** ** Linear algebra *)

Lemma mat4_at_of (f : nat -> nat -> Q) (i j : nat) :
  (i < 4)%nat -> (j < 4)%nat -> mat4_at (mat4_of f) i j = f i j.
Proof.
  intros Hi Hj.
  destruct i as [| [| [| [| i]]]]; try lia;
    destruct j as [| [| [| [| j]]]]; try lia; reflexivity.
Qed.

(** X1: the weights that the rasterizer computes for a pixel from the
    three edge functions and the area are barycentric coordinates:
    they sum to 1 and they reproduce the pixel from the three
    projected corners, whenever the area is not zero. *)
Theorem edge_weights_barycentric (pv0 pv1 pv2 p : vec2) :
  ~ c3d_edge pv0 pv1 pv2 == 0 ->
  let area := c3d_edge pv0 pv1 pv2 in
  let w0 := c3d_edge pv1 pv2 p / area in
  let w1 := c3d_edge pv2 pv0 p / area in
  let w2 := c3d_edge pv0 pv1 p / area in
  w0 + w1 + w2 == 1
  /\ w0 * x2 pv0 + w1 * x2 pv1 + w2 * x2 pv2 == x2 p
  /\ w0 * y2 pv0 + w1 * y2 pv1 + w2 * y2 pv2 == y2 p.
Proof.
  unfold c3d_edge. intro Harea. cbv zeta.
  repeat split; field; exact Harea.
Qed.

(** X17: c3d_mat4invtranspose3 gives the matrix that keeps normals
    perpendicular: for a matrix whose upper-left 3x3 block has a
    non-zero determinant, the dot product of a transformed normal and
    a transformed direction is the dot product of the normal and the
    direction. *)
Theorem invtranspose_keeps_dot (M : mat4) (n t : vec3) :
  ~ det3 M == 0 ->
  c3d_vec3dot (mat3vec3 (c3d_mat4invtranspose3 M) n) (mat4dir M t)
  == c3d_vec3dot n t.
Proof.
  unfold det3, c3d_vec3dot, mat3vec3, c3d_mat4invtranspose3, mat4dir,
    vec3_sub, c3d_mat4vec3, vec3_0. intro Hdet. simpl.
  field. exact Hdet.
Qed.

(** X15: multiplying matrices composes the transforms: when the bottom
    row of B is (0, 0, 0, 1), transforming a point by A*B is
    transforming it by B and then by A. *)
Theorem mat4mul_composes (A B : mat4) (v : vec3) :
  affine_rotation B ->
  vec4_eq (c3d_mat4vec4 v (c3d_mat4mul A B))
          (c3d_mat4vec4 (c3d_mat4vec3 v B) A).
Proof.
  intros (H30 & H31 & H32 & H33).
  unfold vec4_eq, c3d_mat4vec4, c3d_mat4vec3, c3d_mat4mul, mat4_of, mat4_at.
  simpl. rewrite H30, H31, H32, H33. repeat split; ring.
Qed.

(** X16: c3d_mat4mul is associative. *)
Theorem mat4mul_assoc (A B C : mat4) :
  mat4_eq (c3d_mat4mul (c3d_mat4mul A B) C) (c3d_mat4mul A (c3d_mat4mul B C)).
Proof.
  intros i j.
  destruct i as [| [| [| [| i]]]]; destruct j as [| [| [| [| j]]]];
    unfold c3d_mat4mul, mat4_of, mat4_at; simpl; ring.
Qed.

(** ** The projection *)

Lemma view_projection_zw (c : cam) (p : vec3) :
  affine_rotation (matrot c) ->
  let cl := c3d_mat4vec4 p (view_projection c) in
  z4 cl == ((ffar c + fnear c) / (fnear c - ffar c)) * - w4 cl
           + (2 * ffar c * fnear c) / (fnear c - ffar c).
Proof.
  intros (H30 & H31 & H32 & H33). cbv zeta.
  set (R := matrot c) in *.
  unfold view_projection, c3d_mat4prj, c3d_mat4tra, c3d_mat4mul, mat4_of,
    mat4_at, c3d_mat4vec4. simpl. fold R.
  set (P22 := (ffar c + fnear c) / (fnear c - ffar c)).
  set (P23 := (2 * ffar c * fnear c) / (fnear c - ffar c)).
  rewrite H30, H31, H32, H33. ring.
Qed.

(** X10: the projection maps the depths between the near and the far
    plane onto [-1, 1]: for a camera with 0 < near < far and a point in
    front of it (w > 0), the depth after the perspective division is
    at least -1 exactly when w >= near, and at most 1 exactly when
    w <= far. *)
Theorem projection_depth_range (c : cam) (p : vec3) :
  0 < fnear c -> fnear c < ffar c -> affine_rotation (matrot c) ->
  let cl := c3d_mat4vec4 p (view_projection c) in
  0 < w4 cl ->
  (-1 <= z3 (ndc_of cl) <-> fnear c <= w4 cl)
  /\ (z3 (ndc_of cl) <= 1 <-> w4 cl <= ffar c).
Proof.
  intros Hn Hf Haff. cbv zeta. intro Hw.
  pose proof (view_projection_zw c p Haff) as Hz. cbv zeta in Hz.
  set (cl := c3d_mat4vec4 p (view_projection c)) in *.
  unfold ndc_of. cbn [z3].
  set (n := fnear c) in *. set (f := ffar c) in *. set (w := w4 cl) in *.
  assert (HD : ~ n - f == 0) by lra.
  assert (Hw0 : ~ w == 0) by lra.
  assert (E1 : (z4 cl / w + 1) * (w * (f - n)) == 2 * f * (w - n)).
  { rewrite Hz. field. split; assumption. }
  assert (E2 : (1 - z4 cl / w) * (w * (f - n)) == 2 * n * (f - w)).
  { rewrite Hz. field. split; assumption. }
  assert (Hpos : 0 < w * (f - n)) by (apply Qmult_lt_0_compat; lra).
  split; split; intro H.
  - destruct (Qlt_le_dec w n) as [Hlt | Hge]; [| exact Hge]. exfalso.
    assert (0 <= (z4 cl / w + 1) * (w * (f - n))).
    { apply Qmult_le_0_compat; lra. }
    assert (0 < 2 * f * (n - w)) by (apply Qmult_lt_0_compat; lra).
    lra.
  - destruct (Qlt_le_dec (z4 cl / w) (-1)) as [Hlt | Hge]; [| exact Hge]. exfalso.
    assert (0 < (- (z4 cl / w + 1)) * (w * (f - n))).
    { apply Qmult_lt_0_compat; lra. }
    assert (0 <= 2 * f * (w - n)) by (apply Qmult_le_0_compat; lra).
    lra.
  - destruct (Qlt_le_dec f w) as [Hlt | Hge]; [| exact Hge]. exfalso.
    assert (0 <= (1 - z4 cl / w) * (w * (f - n))).
    { apply Qmult_le_0_compat; lra. }
    assert (0 < 2 * n * (w - f)) by (apply Qmult_lt_0_compat; lra).
    lra.
  - destruct (Qlt_le_dec 1 (z4 cl / w)) as [Hlt | Hge]; [| exact Hge]. exfalso.
    assert (0 < (- (1 - z4 cl / w)) * (w * (f - n))).
    { apply Qmult_lt_0_compat; lra. }
    assert (0 <= 2 * n * (f - w)) by (apply Qmult_le_0_compat; lra).
    lra.
Qed.

(** X11: the early rejection never drops a triangle that has a corner
    inside the view cube [-1,1]^3. *)
Theorem ndc_reject_keeps_visible (v0 v1 v2 : vec3) :
  in_cube v0 \/ in_cube v1 \/ in_cube v2 ->
  ndc_reject v0 v1 v2 = false.
Proof.
  intro Hin. unfold ndc_reject.
  repeat rewrite orb_false_iff. repeat rewrite andb_false_iff.
  rewrite !Qltb_false, !Qgtb_false.
  unfold in_cube in Hin.
  destruct Hin as [H | [H | H]]; destruct H as ((? & ?) & (? & ?) & (? & ?));
    repeat split; auto.
Qed.

(** ** Clipping *)

(** X12: the number of triangles that near-plane clipping returns is
    decided by how many corners are inside the near half-space: none
    for 0, one for 1, two for 2 and one for 3. *)
Theorem nearclip_count (t : tri) (matcam : mat4) :
  List.length (c3d_nearclip t matcam)
  = match inside_count t matcam with
    | 0 => 0
    | 1 => 1
    | 2 => 2
    | _ => 1
    end%nat.
Proof.
  unfold c3d_nearclip, inside_count, clip_input.
  rewrite suthhodgman_triangle_edges. unfold clip_edge. cbn [filter].
  destruct (c3d_innear (mkvex (c3d_mat4vec4 (vx t) matcam) _ _ _));
    destruct (c3d_innear (mkvex (c3d_mat4vec4 (vy t) matcam) _ _ _));
    destruct (c3d_innear (mkvex (c3d_mat4vec4 (vz t) matcam) _ _ _));
    reflexivity.
Qed.

(** X13: the intersection of an edge with the near plane does not depend
    on the direction in which the edge is walked: for an edge that
    crosses the plane, c3d_nearintersect A B and c3d_nearintersect B A
    are the same vertex, attribute by attribute. *)
Theorem nearintersect_symmetric (A B : vex) :
  crosses A B ->
  vex_eq (c3d_nearintersect A B) (c3d_nearintersect B A).
Proof.
  intro Hc. pose proof (crosses_denominator A B Hc) as HD.
  unfold plane_dist in HD.
  assert (HD' : ~ z4 (clip B) + w4 (clip B) - (z4 (clip A) + w4 (clip A)) == 0).
  { intro H. apply HD. lra. }
  unfold vex_eq, vec4_eq, vec3_eq, vec2_eq, c3d_nearintersect, c3d_lerp.
  cbn [clip space normal uv x4 y4 z4 w4 x3 y3 z3 x2 y2].
  repeat split; field; split; assumption.
Qed.

(** ** The camera after the mouse handler *)


(** When the cursor position is read, c3d_m_handle leaves the pitch
    of the camera within [-1.5, 1.5], whatever it was before and
    however far the mouse moved. *)
Lemma m_handle_pitch_range (d : display) (p0 p1 : Z * Z) :
  - (15 # 10) <= pitch (camera (c3d_m_handle d p0 (Some p1))) <= 15 # 10.
Proof.
  unfold c3d_m_handle, set_camera. simpl.
  apply C3D_CLAMP_range. lra.
Qed.


(** ** The centre of a mesh *)

Lemma corner_sums_affine (B : mat4) (N : mat3) (ts : list tri) :
  forall (acc acc' : vec3) (k : Q),
    vec3_eq acc'
      (mkvec3 (m00 B * x3 acc + m01 B * y3 acc + m02 B * z3 acc + k * m03 B)
              (m10 B * x3 acc + m11 B * y3 acc + m12 B * z3 acc + k * m13 B)
              (m20 B * x3 acc + m21 B * y3 acc + m22 B * z3 acc + k * m23 B)) ->
    let s := fold_left corner_step ts acc in
    let k' := k + 3 * inject_Z (Z.of_nat (List.length ts)) in
    vec3_eq (fold_left corner_step (map (meshabs_tri B N) ts) acc')
      (mkvec3 (m00 B * x3 s + m01 B * y3 s + m02 B * z3 s + k' * m03 B)
              (m10 B * x3 s + m11 B * y3 s + m12 B * z3 s + k' * m13 B)
              (m20 B * x3 s + m21 B * y3 s + m22 B * z3 s + k' * m23 B)).
Proof.
  induction ts as [| t ts IH]; intros acc acc' k Hacc; cbv zeta.
  - simpl. destruct Hacc as (Hx & Hy & Hz). unfold vec3_eq in *. simpl in *.
    rewrite Hx, Hy, Hz. repeat split; ring.
  - cbn [map fold_left List.length].
    specialize (IH (corner_step acc t)
                   (corner_step acc' (meshabs_tri B N t)) (k + 3)).
    cbv zeta in IH.
    assert (E : k + 3 * inject_Z (Z.of_nat (S (List.length ts)))
                == k + 3 + 3 * inject_Z (Z.of_nat (List.length ts))).
    { rewrite Nat2Z.inj_succ. unfold Z.succ. rewrite inject_Z_plus.
      change (inject_Z 1) with 1. ring. }
    unfold vec3_eq. cbn [x3 y3 z3]. rewrite !E.
    apply IH.
    destruct Hacc as (Hx & Hy & Hz). unfold vec3_eq in *.
    unfold corner_step, meshabs_tri, c3d_mat4vec3. cbn [x3 y3 z3 vx vy vz] in *.
    rewrite Hx, Hy, Hz. repeat split; ring.
Qed.

Lemma tri_count_positive (A : mesh) :
  tris A <> [] -> ~ inject_Z (tri_count A * 3) == 0.
Proof.
  intros Hne H. unfold tri_count in H.
  destruct (tris A) as [| t ts]; [congruence |].
  cbn [List.length] in H.
  assert (Hz : (Z.of_nat (S (List.length ts)) * 3 = 0)%Z).
  { apply (proj1 (inject_Z_injective _ 0%Z)). exact H. }
  lia.
Qed.

Lemma meshabs_tri_count (A : mesh) (B : mat4) :
  tri_count (c3d_meshabs A B) = tri_count A.
Proof.
  unfold tri_count, c3d_meshabs. simpl. rewrite length_map. reflexivity.
Qed.

Lemma meshabs_nonempty (A : mesh) (B : mat4) :
  tris A <> [] -> tris (c3d_meshabs A B) <> [].
Proof.
  unfold c3d_meshabs. simpl. destruct (tris A); [congruence | discriminate].
Qed.

Lemma mat4vec3_eq (a b : vec3) (B : mat4) :
  vec3_eq a b -> vec3_eq (c3d_mat4vec3 a B) (c3d_mat4vec3 b B).
Proof.
  unfold vec3_eq, c3d_mat4vec3. intros (Hx & Hy & Hz). simpl.
  rewrite Hx, Hy, Hz. repeat split; reflexivity.
Qed.

Lemma vec3_eq_trans (a b c : vec3) : vec3_eq a b -> vec3_eq b c -> vec3_eq a c.
Proof.
  unfold vec3_eq. intros (? & ? & ?) (? & ? & ?).
  repeat split; etransitivity; eassumption.
Qed.

Lemma meshabs_moves_center (A : mesh) (B : mat4) :
  tris A <> [] ->
  vec3_eq (c3d_meshcenter (c3d_meshabs A B))
          (c3d_mat4vec3 (c3d_meshcenter A) B).
Proof.
  intro Hne. pose proof (tri_count_positive A Hne) as HV.
  unfold c3d_meshcenter. rewrite meshabs_tri_count.
  set (V := inject_Z (tri_count A * 3)) in *.
  unfold corner_sums, c3d_meshabs. cbn [tris].
  pose proof (corner_sums_affine B (c3d_mat4invtranspose3 B) (tris A)
                vec3_0 vec3_0 0) as H.
  cbv zeta in H.
  assert (H0 : vec3_eq vec3_0
                 (mkvec3 (m00 B * x3 vec3_0 + m01 B * y3 vec3_0 + m02 B * z3 vec3_0 + 0 * m03 B)
                         (m10 B * x3 vec3_0 + m11 B * y3 vec3_0 + m12 B * z3 vec3_0 + 0 * m13 B)
                         (m20 B * x3 vec3_0 + m21 B * y3 vec3_0 + m22 B * z3 vec3_0 + 0 * m23 B))).
  { unfold vec3_eq, vec3_0. simpl. repeat split; ring. }
  specialize (H H0). clear H0.
  set (s' := fold_left corner_step (map _ (tris A)) vec3_0) in *.
  set (s := fold_left corner_step (tris A) vec3_0) in *.
  assert (EV : 0 + 3 * inject_Z (Z.of_nat (List.length (tris A))) == V).
  { unfold V, tri_count. rewrite inject_Z_mult. change (inject_Z 3) with 3. ring. }
  destruct H as (Hx & Hy & Hz). cbn [x3 y3 z3] in Hx, Hy, Hz.
  unfold vec3_eq, c3d_mat4vec3. cbn [x3 y3 z3].
  rewrite Hx, Hy, Hz, !EV. repeat split; field; exact HV.
Qed.

(** X18: c3d_meshabs moves the centre of a mesh as it moves its points:
    the centre of the transformed mesh is the transform of the centre,
    for every mesh with at least one triangle. *)
Theorem meshabs_center (A : mesh) (B : mat4) :
  tris A <> [] ->
  vec3_eq (c3d_meshcenter (c3d_meshabs A B))
          (c3d_mat4vec3 (c3d_meshcenter A) B).
Proof.
  apply meshabs_moves_center.
Qed.

Lemma meshrel_center_fixed (A : mesh) (B : mat4) :
  tris A <> [] -> no_translation B ->
  vec3_eq (c3d_meshcenter (c3d_meshrel A B)) (c3d_meshcenter A).
Proof.
  intros Hne (H03 & H13 & H23).
  unfold c3d_meshrel.
  change (mkvec3 (x3 (corner_sums (tris A)) / inject_Z (tri_count A * 3))
                 (y3 (corner_sums (tris A)) / inject_Z (tri_count A * 3))
                 (z3 (corner_sums (tris A)) / inject_Z (tri_count A * 3)))
    with (c3d_meshcenter A).
  cbv zeta.
  set (c := c3d_meshcenter A).
  set (T1 := c3d_mat4tra (- x3 c) (- y3 c) (- z3 c)).
  set (T2 := c3d_mat4tra (x3 c) (y3 c) (z3 c)).
  pose proof (meshabs_moves_center A T1 Hne) as H1.
  pose proof (meshabs_moves_center (c3d_meshabs A T1) B (meshabs_nonempty A T1 Hne)) as H2.
  pose proof (meshabs_moves_center (c3d_meshabs (c3d_meshabs A T1) B) T2
                (meshabs_nonempty _ B (meshabs_nonempty A T1 Hne))) as H3.
  fold c in H1.
  apply (vec3_eq_trans _ _ _ H3).
  apply (vec3_eq_trans _ (c3d_mat4vec3 (c3d_mat4vec3 (c3d_mat4vec3 c T1) B) T2)).
  - apply mat4vec3_eq. apply (vec3_eq_trans _ _ _ H2).
    apply mat4vec3_eq. exact H1.
  - unfold vec3_eq, c3d_mat4vec3, T1, T2, c3d_mat4tra. simpl.
    rewrite H03, H13, H23. repeat split; ring.
Qed.

(** X19: c3d_meshrel applies its matrix about the centre of the mesh:
    when the matrix has no translation (as the rotations and the
    scaling of c3d.h), the centre of the mesh stays where it was. *)
Theorem meshrel_keeps_center (A : mesh) (B : mat4) :
  tris A <> [] -> no_translation B ->
  vec3_eq (c3d_meshcenter (c3d_meshrel A B)) (c3d_meshcenter A).
Proof.
  apply meshrel_center_fixed.
Qed.

(** ** The frame buffers *)

Lemma Zrange_in (lo hi k : Z) : In k (Zrange lo hi) -> (lo <= k <= hi)%Z.
Proof.
  unfold Zrange. rewrite in_map_iff. intros (i & <- & Hi).
  apply in_seq in Hi. lia.
Qed.







Lemma grid_shape_row {T} (g : grid T) (h w y : Z) :
  grid_shape g h w -> (0 <= y < h)%Z ->
  exists row, nth_error g (Z.to_nat y) = Some row
              /\ List.length row = Z.to_nat w.
Proof.
  intros [Hlen Hrows] Hy.
  destruct (nth_error g (Z.to_nat y)) as [row |] eqn:Hrow.
  - exists row. split; [reflexivity |].
    rewrite Forall_forall in Hrows. apply Hrows.
    apply (nth_error_In _ _ Hrow).
  - apply nth_error_None in Hrow. lia.
Qed.

Lemma grid_get_some {T} (g : grid T) (h w y x : Z) :
  grid_shape g h w -> (0 <= y < h)%Z -> (0 <= x < w)%Z ->
  exists v, grid_get g y x = Some v.
Proof.
  intros Hg Hy Hx. unfold grid_get.
  destruct (grid_shape_row g h w y Hg Hy) as (row & -> & Hlen).
  replace ((y <? 0) || (x <? 0))%Z with false
    by (symmetry; apply orb_false_iff; split; apply Z.ltb_ge; lia).
  destruct (nth_error row (Z.to_nat x)) as [v |] eqn:Hv; [eauto |].
  apply nth_error_None in Hv. lia.
Qed.





(** ** The rasterizer: memory safety *)





(** ** The rasterizer: the depth test *)

Lemma depth_lt_trans (z z1 : Q) (dz : depth) :
  depth_lt z (Finite z1) = true -> depth_lt z1 dz = true -> depth_lt z dz = true.
Proof.
  destruct dz as [| z0]; [reflexivity |]. simpl.
  rewrite !Qltb_true. intros. lra.
Qed.

Lemma shade_sample_rgb (d : display) (t : tri) (mtl : material)
    (inv_w0 inv_w1 inv_w2 w0 w1 w2 denom : Q) (col : Z) :
  shade_sample d t mtl inv_w0 inv_w1 inv_w2 w0 w1 w2 denom = Some col ->
  exists r g bl, col = RGB r g bl.
Proof.
  unfold shade_sample.
  destruct (c3d_bphongshade _ _ _ _) as [[ambient diffuse] specular].
  destruct (diffuse_tex mtl) as [tex |]; [| intros; discriminate].
  destruct (c3d_texsample tex _ _) as [tex_color |]; [| intros; discriminate].
  intro H. inversion H. unfold colorref_of. eauto.
Qed.

Lemma cell_eqb (y' y x' x : Z) :
  ((y' =? y) && (x' =? x))%Z = true -> y' = y /\ x' = x.
Proof.
  intro H. apply andb_true_iff in H. destruct H as [Hy Hx].
  apply Z.eqb_eq in Hy, Hx. auto.
Qed.

Lemma raster_pixel_depth_tested (d : display) (pv0 pv1 pv2 : vec2) (area : Q)
    (v0_ndc v1_ndc v2_ndc : vec3) (w0_clip w1_clip w2_clip : Q)
    (t : tri) (mtl : material) (b0 : buffers) (y x : Z) (b b' : buffers) :
  depth_tested b0 b ->
  raster_pixel d pv0 pv1 pv2 area v0_ndc v1_ndc v2_ndc
               w0_clip w1_clip w2_clip t mtl y x b = Some b' ->
  depth_tested b0 b'.
Proof.
  intros Hinv. unfold raster_pixel.
  destruct (_ && _ && _); [| intro H; inversion H; subst; exact Hinv].
  destruct (Qeqb _ 0); [intro H; inversion H; subst; exact Hinv |].
  destruct (grid_get (depthBuffer b) y x) as [dz |] eqn:Hdz; [| intros; discriminate].
  destruct (depth_lt _ dz) eqn:Hlt; [| intro H; inversion H; subst; exact Hinv].
  destruct (grid_set (depthBuffer b) y x _) as [depth' |] eqn:Hsetd;
    [| intros; discriminate].
  destruct (shade_sample _ _ _ _ _ _ _ _ _ _) as [col |] eqn:Hcol; [| intros; discriminate].
  destruct (grid_set (buffer b) y x C3D_PXCHAR) as [buffer' |] eqn:Hsetb;
    [| intros; discriminate].
  destruct (grid_set (colorBuffer b) y x col) as [color' |] eqn:Hsetc;
    [| intros; discriminate].
  intro H. inversion H; subst. clear H.
  intros y' x'. unfold cell_kept, cell_drawn. cbn [buffer colorBuffer depthBuffer].
  rewrite (grid_set_get _ _ _ _ _ Hsetd y' x').
  rewrite (grid_set_get _ _ _ _ _ Hsetb y' x').
  rewrite (grid_set_get _ _ _ _ _ Hsetc y' x').
  destruct ((y' =? y) && (x' =? x))%Z eqn:Hcell; [| apply Hinv].
  apply cell_eqb in Hcell. destruct Hcell as [-> ->].
  right. split; [reflexivity |].
  split; [destruct (shade_sample_rgb _ _ _ _ _ _ _ _ _ _ _ Hcol) as (r & g & bl & ->);
          eauto |].
  destruct (Hinv y x) as [(_ & _ & Hk) | (_ & _ & z1 & dz0 & Hz1 & Hdz0 & Hlt0)].
  - eexists _, dz. split; [reflexivity |]. split; [congruence | exact Hlt].
  - eexists _, dz0. split; [reflexivity |]. split; [exact Hdz0 |].
    assert (dz = Finite z1) by congruence. subst dz.
    apply (depth_lt_trans _ z1); assumption.
Qed.

Lemma depth_tested_refl (b : buffers) : depth_tested b b.
Proof. intros y x. left. repeat split. Qed.

Lemma rasterize_depth_tested (d : display) (b0 b b' : buffers)
    (v0_ndc v1_ndc v2_ndc : vec3) (w0_clip w1_clip w2_clip : Q)
    (t : tri) (mtl : material) :
  depth_tested b0 b ->
  c3d_rasterize d b v0_ndc v1_ndc v2_ndc w0_clip w1_clip w2_clip t mtl = Some b' ->
  depth_tested b0 b'.
Proof.
  intro Hinv. unfold c3d_rasterize.
  destruct (Qeqb _ 0); [intro H; inversion H; subst; exact Hinv |].
  apply (for_each_invariant (depth_tested b0)); [| exact Hinv].
  intros y s s' Hs. apply (for_each_invariant (depth_tested b0)); [| exact Hs].
  intros x s1 s2 Hs1. apply raster_pixel_depth_tested. exact Hs1.
Qed.

(** X3: c3d_rasterize only draws through the depth test: after it, every
    cell is either as it was in the three buffers, or it holds a full
    block, a colour built by RGB and a depth strictly smaller than the
    depth it had before (any depth when it held INFINITY). *)
Theorem rasterize_depth_test (d : display) (b b' : buffers)
    (v0_ndc v1_ndc v2_ndc : vec3) (w0_clip w1_clip w2_clip : Q)
    (t : tri) (mtl : material) :
  c3d_rasterize d b v0_ndc v1_ndc v2_ndc w0_clip w1_clip w2_clip t mtl = Some b' ->
  forall y x,
    (grid_get (buffer b') y x = grid_get (buffer b) y x
     /\ grid_get (colorBuffer b') y x = grid_get (colorBuffer b) y x
     /\ grid_get (depthBuffer b') y x = grid_get (depthBuffer b) y x)
    \/ (grid_get (buffer b') y x = Some C3D_PXCHAR
        /\ (exists r g bl, grid_get (colorBuffer b') y x = Some (RGB r g bl))
        /\ exists z dz,
             grid_get (depthBuffer b') y x = Some (Finite z)
             /\ grid_get (depthBuffer b) y x = Some dz
             /\ depth_lt z dz = true).
Proof.
  intros Hrun y x.
  apply (rasterize_depth_tested d b b b' _ _ _ _ _ _ _ _ (depth_tested_refl b) Hrun).
Qed.

(** ** The rasterizer: the range of the depths *)

Lemma Qeqb_neq (a b : Q) : Qeqb a b = false -> ~ a == b.
Proof.
  unfold Qeqb. intros Hf He. apply Qeq_bool_iff in He. congruence.
Qed.

Lemma weight_term (a w c : Q) : 0 <= a -> 0 <= w -> 0 < c -> 0 <= a * (w / c).
Proof.
  intros Ha Hw Hc. apply Qmult_le_0_compat; [exact Ha |].
  apply Qle_shift_div_l; [exact Hc | lra].
Qed.

Lemma convex_depth (z0 z1 z2 w0 w1 w2 c0 c1 c2 lo hi : Q) :
  0 <= w0 -> 0 <= w1 -> 0 <= w2 -> 0 < c0 -> 0 < c1 -> 0 < c2 ->
  lo <= z0 <= hi -> lo <= z1 <= hi -> lo <= z2 <= hi ->
  ~ w0 * (1 / c0) + w1 * (1 / c1) + w2 * (1 / c2) == 0 ->
  lo <= (z0 * w0 / c0 + z1 * w1 / c1 + z2 * w2 / c2)
        / (w0 * (1 / c0) + w1 * (1 / c1) + w2 * (1 / c2)) <= hi.
Proof.
  intros Hw0 Hw1 Hw2 Hc0 Hc1 Hc2 Hz0 Hz1 Hz2 Hden.
  set (den := w0 * (1 / c0) + w1 * (1 / c1) + w2 * (1 / c2)) in *.
  set (num := z0 * w0 / c0 + z1 * w1 / c1 + z2 * w2 / c2).
  assert (Eden : den == w0 / c0 + w1 / c1 + w2 / c2).
  { unfold den. field. repeat split; lra. }
  assert (Hd0 : 0 <= w0 / c0) by (apply Qle_shift_div_l; lra).
  assert (Hd1 : 0 <= w1 / c1) by (apply Qle_shift_div_l; lra).
  assert (Hd2 : 0 <= w2 / c2) by (apply Qle_shift_div_l; lra).
  assert (Hpos : 0 < den) by lra.
  assert (Elo : num - lo * den
                == (z0 - lo) * (w0 / c0) + (z1 - lo) * (w1 / c1) + (z2 - lo) * (w2 / c2)).
  { unfold num. rewrite Eden. field. repeat split; lra. }
  assert (Ehi : hi * den - num
                == (hi - z0) * (w0 / c0) + (hi - z1) * (w1 / c1) + (hi - z2) * (w2 / c2)).
  { unfold num. rewrite Eden. field. repeat split; lra. }
  pose proof (weight_term (z0 - lo) w0 c0). pose proof (weight_term (z1 - lo) w1 c1).
  pose proof (weight_term (z2 - lo) w2 c2). pose proof (weight_term (hi - z0) w0 c0).
  pose proof (weight_term (hi - z1) w1 c1). pose proof (weight_term (hi - z2) w2 c2).
  split.
  - apply Qle_shift_div_l; [exact Hpos |]. lra.
  - apply Qle_shift_div_r; [exact Hpos |]. lra.
Qed.

Lemma raster_pixel_depths_within (d : display) (pv0 pv1 pv2 : vec2) (area : Q)
    (v0_ndc v1_ndc v2_ndc : vec3) (w0_clip w1_clip w2_clip : Q)
    (t : tri) (mtl : material) (lo hi : Q) (b0 : buffers) (y x : Z)
    (b b' : buffers) :
  0 < w0_clip -> 0 < w1_clip -> 0 < w2_clip ->
  lo <= z3 v0_ndc <= hi -> lo <= z3 v1_ndc <= hi -> lo <= z3 v2_ndc <= hi ->
  depths_within lo hi b0 b ->
  raster_pixel d pv0 pv1 pv2 area v0_ndc v1_ndc v2_ndc
               w0_clip w1_clip w2_clip t mtl y x b = Some b' ->
  depths_within lo hi b0 b'.
Proof.
  intros Hc0 Hc1 Hc2 Hz0 Hz1 Hz2 Hinv. unfold raster_pixel.
  destruct (_ && _ && _) eqn:Hw; [| intro H; inversion H; subst; exact Hinv].
  apply andb_true_iff in Hw. destruct Hw as [Hw Hw2].
  apply andb_true_iff in Hw. destruct Hw as [Hw0 Hw1].
  apply Qgeb_true in Hw0, Hw1, Hw2.
  destruct (Qeqb _ 0) eqn:Hden; [intro H; inversion H; subst; exact Hinv |].
  apply Qeqb_neq in Hden.
  destruct (grid_get (depthBuffer b) y x) as [dz |]; [| intros; discriminate].
  destruct (depth_lt _ dz); [| intro H; inversion H; subst; exact Hinv].
  destruct (grid_set (depthBuffer b) y x _) as [depth' |] eqn:Hsetd;
    [| intros; discriminate].
  destruct (shade_sample _ _ _ _ _ _ _ _ _ _) as [col |]; [| intros; discriminate].
  destruct (grid_set (buffer b) y x C3D_PXCHAR) as [buffer' |]; [| intros; discriminate].
  destruct (grid_set (colorBuffer b) y x col) as [color' |]; [| intros; discriminate].
  intro H. inversion H; subst. clear H.
  intros y' x'. cbn [depthBuffer].
  rewrite (grid_set_get _ _ _ _ _ Hsetd y' x').
  destruct ((y' =? y) && (x' =? x))%Z; [| apply Hinv].
  right. eexists. split; [reflexivity |].
  apply convex_depth; assumption.
Qed.

(** X4: the depths that c3d_rasterize writes lie between the depths of
    the corners: when the three clip-space w are positive and the three
    corner depths lie in [lo, hi], every depth of the buffer is
    afterwards the one it was or a depth in [lo, hi]. *)
Theorem rasterize_depth_range (d : display) (b b' : buffers)
    (v0_ndc v1_ndc v2_ndc : vec3) (w0_clip w1_clip w2_clip : Q)
    (t : tri) (mtl : material) (lo hi : Q) :
  0 < w0_clip -> 0 < w1_clip -> 0 < w2_clip ->
  lo <= z3 v0_ndc <= hi -> lo <= z3 v1_ndc <= hi -> lo <= z3 v2_ndc <= hi ->
  c3d_rasterize d b v0_ndc v1_ndc v2_ndc w0_clip w1_clip w2_clip t mtl = Some b' ->
  forall y x,
    grid_get (depthBuffer b') y x = grid_get (depthBuffer b) y x
    \/ exists z, grid_get (depthBuffer b') y x = Some (Finite z) /\ lo <= z <= hi.
Proof.
  intros Hc0 Hc1 Hc2 Hz0 Hz1 Hz2. unfold c3d_rasterize.
  destruct (Qeqb _ 0); [intro H; inversion H; subst; intros; left; reflexivity |].
  apply (for_each_invariant (depths_within lo hi b)).
  - intros y s s' Hs. apply (for_each_invariant (depths_within lo hi b)); [| exact Hs].
    intros x s1 s2 Hs1. apply raster_pixel_depths_within; assumption.
  - intros y x. left. reflexivity.
Qed.

(** ** The frame of [c3d_update] *)






(** ** The text of a frame *)

Lemma term_run_app (a b : list Z) (t : term) :
  term_run (a ++ b) t = term_run b (term_run a t).
Proof. unfold term_run. apply fold_left_app. Qed.

Lemma term_run_digits (text : list Z) :
  forall (nums : list Z) (cur : Z) fg bg rows line,
    forallb is_digit text = true ->
    term_run text (mkterm (Params nums cur) fg bg rows line)
    = mkterm (Params nums (digits_value text cur)) fg bg rows line.
Proof.
  induction text as [| c text IH]; intros nums cur fg bg rows line Hd.
  - reflexivity.
  - simpl in Hd. apply andb_true_iff in Hd. destruct Hd as [Hc Hd].
    unfold term_run, digits_value. cbn [fold_left].
    unfold term_step at 2. cbn [t_mode t_fg t_bg t_rows t_line].
    unfold is_digit in Hc. rewrite Hc.
    apply (IH nums _ fg bg rows line Hd).
Qed.

Lemma bytes_print : forallb byte_prints (Zrange 0 255) = true.
Proof. vm_compute. reflexivity. Qed.

Lemma Zrange_mem (lo hi k : Z) : (lo <= k <= hi)%Z -> In k (Zrange lo hi).
Proof.
  intro H. unfold Zrange. apply in_map_iff.
  exists (Z.to_nat (k - lo)). split; [lia |]. apply in_seq. lia.
Qed.

Lemma print_byte (n : Z) :
  (0 <= n <= 255)%Z ->
  forallb is_digit (print_int n) = true
  /\ digits_value (print_int n) 0 = n
  /\ (List.length (print_int n) <= 3)%nat.
Proof.
  intro Hn. pose proof bytes_print as H.
  rewrite forallb_forall in H. specialize (H n (Zrange_mem 0 255 n Hn)).
  unfold byte_prints in H.
  apply andb_true_iff in H. destruct H as [H _].
  apply andb_true_iff in H. destruct H as [H _].
  apply andb_true_iff in H. destruct H as [H H3].
  apply andb_true_iff in H. destruct H as [H1 H2].
  apply Z.eqb_eq in H2. apply Nat.leb_le in H3. auto.
Qed.

Lemma print_byte_length (n : Z) :
  (0 <= n <= 255)%Z ->
  (1 <= List.length (print_int n))%nat
  /\ ((100 <= n)%Z -> List.length (print_int n) = 3%nat).
Proof.
  intro Hn. pose proof bytes_print as H.
  rewrite forallb_forall in H. specialize (H n (Zrange_mem 0 255 n Hn)).
  unfold byte_prints in H.
  apply andb_true_iff in H. destruct H as [H H5].
  apply andb_true_iff in H. destruct H as [_ H4].
  apply Nat.leb_le in H4. split; [exact H4 |].
  intro H100. apply orb_true_iff in H5. destruct H5 as [H5 | H5].
  - apply Z.ltb_lt in H5. lia.
  - apply Nat.eqb_eq in H5. exact H5.
Qed.

Lemma term_run_number (n : Z) (rest nums : list Z) fg bg rows line :
  (0 <= n <= 255)%Z ->
  term_run (print_int n ++ rest) (mkterm (Params nums 0) fg bg rows line)
  = term_run rest (mkterm (Params nums n) fg bg rows line).
Proof.
  intro Hn. destruct (print_byte n Hn) as (Hd & Hv & _).
  rewrite term_run_app, (term_run_digits _ nums 0 fg bg rows line Hd), Hv.
  reflexivity.
Qed.

Lemma term_run_semicolon (rest nums : list Z) (cur : Z) fg bg rows line :
  term_run (59%Z :: rest) (mkterm (Params nums cur) fg bg rows line)
  = term_run rest (mkterm (Params (nums ++ [cur]) 0) fg bg rows line).
Proof. reflexivity. Qed.

Lemma term_run_foreground (r g b : Z) (rest : list Z) fg bg rows line :
  (0 <= r <= 255)%Z -> (0 <= g <= 255)%Z -> (0 <= b <= 255)%Z ->
  term_run (set_foreground r g b ++ rest) (mkterm Normal fg bg rows line)
  = term_run rest (mkterm Normal (Some (r, g, b)) bg rows line).
Proof.
  intros Hr Hg Hb. unfold set_foreground. rewrite <- !app_assoc.
  rewrite term_run_app.
  change (term_run [27; 91; 51; 56; 59; 50; 59]%Z (mkterm Normal fg bg rows line))
    with (mkterm (Params [38; 2]%Z 0) fg bg rows line).
  rewrite (term_run_number r _ _ _ _ _ _ Hr). cbn [app].
  rewrite term_run_semicolon, (term_run_number g _ _ _ _ _ _ Hg). cbn [app].
  rewrite term_run_semicolon, (term_run_number b _ _ _ _ _ _ Hb). cbn [app].
  reflexivity.
Qed.

Lemma term_run_background (r g b : Z) (rest : list Z) fg bg rows line :
  (0 <= r <= 255)%Z -> (0 <= g <= 255)%Z -> (0 <= b <= 255)%Z ->
  term_run (set_background r g b ++ rest) (mkterm Normal fg bg rows line)
  = term_run rest (mkterm Normal fg (Some (r, g, b)) rows line).
Proof.
  intros Hr Hg Hb. unfold set_background. rewrite <- !app_assoc.
  rewrite term_run_app.
  change (term_run [27; 91; 52; 56; 59; 50; 59]%Z (mkterm Normal fg bg rows line))
    with (mkterm (Params [48; 2]%Z 0) fg bg rows line).
  rewrite (term_run_number r _ _ _ _ _ _ Hr). cbn [app].
  rewrite term_run_semicolon, (term_run_number g _ _ _ _ _ _ Hg). cbn [app].
  rewrite term_run_semicolon, (term_run_number b _ _ _ _ _ _ Hb). cbn [app].
  reflexivity.
Qed.

Lemma BYTE_range (n : Z) : (0 <= BYTE n <= 255)%Z.
Proof.
  rewrite BYTE_mod. pose proof (Z.mod_pos_bound n (2 ^ 8)). lia.
Qed.

Lemma C3D_CLAMP_int_range (v : Z) : (0 <= C3D_CLAMP_int v 0 255 <= 255)%Z.
Proof.
  unfold C3D_CLAMP_int.
  destruct (v >? 255)%Z eqn:H1; [lia |].
  destruct (v <? 0)%Z eqn:H2; [lia |]. lia.
Qed.

Lemma for_each_prefix {A S} (I : list A -> S -> Prop) (body : A -> S -> option S) :
  (forall pre a s s', I pre s -> body a s = Some s' -> I (pre ++ [a]) s') ->
  forall (l pre : list A) (s s' : S),
    I pre s -> for_each l body s = Some s' -> I (pre ++ l) s'.
Proof.
  intros Hbody l. induction l as [| a l IH]; intros pre s s' Hs Hrun; simpl in Hrun.
  - inversion Hrun; subst. rewrite app_nil_r. exact Hs.
  - destruct (body a s) as [s1 |] eqn:Hb; [| discriminate].
    change (a :: l) with ([a] ++ l). rewrite app_assoc.
    apply (IH _ s1 s' (Hbody pre a s s1 Hs Hb) Hrun).
Qed.

Lemma swprintf_at_some (d : display) (out text out' : list Z) :
  swprintf_at d out text = Some out' -> out' = out ++ text.
Proof.
  unfold swprintf_at. destruct (_ <? _)%Z; [| discriminate]. congruence.
Qed.

Lemma put_wchar_some (d : display) (out out' : list Z) (wc : Z) :
  put_wchar d out wc = Some out' -> out' = out ++ [wc].
Proof.
  unfold put_wchar. destruct (_ <? _)%Z; [| discriminate]. congruence.
Qed.

Lemma term_run_glyph (wc : Z) fg bg rows line :
  wc <> 27%Z -> wc <> 10%Z ->
  term_run [wc] (mkterm Normal fg bg rows line)
  = mkterm Normal fg bg rows (line ++ [(wc, fg)]).
Proof.
  intros H27 H10. unfold term_run. cbn [fold_left]. unfold term_step.
  cbn [t_mode t_fg t_bg t_rows t_line].
  destruct (Z.eqb_spec wc 27); [congruence |].
  destruct (Z.eqb_spec wc 10); [congruence |]. reflexivity.
Qed.

Lemma render_cell_printed (d : display) (buffer colorBuffer : grid Z) (y x : Z)
    (rows : list (list cell)) (line : list cell) (st st' : list Z * Z) :
  (forall c, grid_get colorBuffer y x = Some c -> c <> 4294967295%Z) ->
  (forall wc, grid_get buffer y x = Some wc -> wc <> 27%Z /\ wc <> 10%Z) ->
  printed rows line st ->
  render_cell d buffer colorBuffer y x st = Some st' ->
  printed rows (line ++ [frame_cell buffer colorBuffer y x]) st'.
Proof.
  intros Hcolor Hglyph (fg & bg & Hrun & Hsync).
  destruct st as [out last]. cbn [fst snd] in *.
  unfold render_cell, frame_cell.
  destruct (grid_get colorBuffer y x) as [color |]; [| discriminate].
  specialize (Hcolor color eq_refl).
  destruct (grid_get buffer y x) as [wc |] eqn:Hwc.
  2:{ destruct (negb _); [destruct (swprintf_at _ _ _) |]; discriminate. }
  destruct (Hglyph wc eq_refl) as [H27 H10].
  destruct (Z.eqb_spec color last) as [-> | Hne]; cbn [negb].
  - destruct (put_wchar d out wc) as [out' |] eqn:Hput; [| discriminate].
    intro H. inversion H; subst. clear H.
    apply put_wchar_some in Hput. subst out'.
    destruct Hsync as [Hs | Hs]; [congruence |].
    exists fg, bg. cbn [fst snd]. split; [| right; exact Hs].
    rewrite term_run_app, Hrun, (term_run_glyph wc _ _ _ _ H27 H10), Hs.
    reflexivity.
  - destruct (swprintf_at d out _) as [out1 |] eqn:Hsw; [| discriminate].
    destruct (put_wchar d out1 wc) as [out' |] eqn:Hput; [| discriminate].
    intro H. inversion H; subst. clear H.
    apply put_wchar_some in Hput. apply swprintf_at_some in Hsw. subst.
    eexists _, bg. cbn [fst snd]. split; [| right; reflexivity].
    rewrite <- app_assoc, term_run_app, Hrun.
    rewrite term_run_foreground by apply BYTE_range.
    rewrite (term_run_glyph wc _ _ _ _ H27 H10). reflexivity.
Qed.

Lemma render_row_printed (d : display) (buffer colorBuffer : grid Z) (y : Z)
    (rows : list (list cell)) (st st' : list Z * Z) :
  (forall y x c, grid_get colorBuffer y x = Some c -> c <> 4294967295%Z) ->
  (forall y x wc, grid_get buffer y x = Some wc -> wc <> 27%Z /\ wc <> 10%Z) ->
  printed rows [] st ->
  render_row d buffer colorBuffer y st = Some st' ->
  printed (rows ++ [map (frame_cell buffer colorBuffer y)
                        (Zrange 0 (display_width d - 1))]) [] st'.
Proof.
  intros Hcolor Hglyph Hst. unfold render_row.
  destruct (for_each _ _ st) as [[out last] |] eqn:Hcells; [| discriminate].
  pose proof (for_each_prefix
                (fun pre s => printed rows (map (frame_cell buffer colorBuffer y) pre) s)
                (render_cell d buffer colorBuffer y)) as Hloop.
  specialize (Hloop
    (fun pre a s s' Hs Hb =>
       eq_ind_r (fun l => printed rows l s')
         (render_cell_printed d buffer colorBuffer y a rows _ s s'
            (Hcolor y a) (Hglyph y a) Hs Hb)
         (map_app (frame_cell buffer colorBuffer y) pre [a]))).
  specialize (Hloop _ [] st (out, last) Hst Hcells). cbn [app] in Hloop.
  destruct Hloop as (fg & bg & Hrun & Hsync). cbn [fst snd] in *.
  destruct (put_wchar d out 10) as [out' |] eqn:Hput; [| discriminate].
  intro H. inversion H; subst. clear H.
  apply put_wchar_some in Hput. subst out'.
  exists fg, bg. cbn [fst snd]. split; [| exact Hsync].
  rewrite term_run_app, Hrun. reflexivity.
Qed.

Lemma render_text_decodes (d : display) (buffer colorBuffer : grid Z)
    (out : list Z) :
  (forall y x c, grid_get colorBuffer y x = Some c -> c <> 4294967295%Z) ->
  (forall y x wc, grid_get buffer y x = Some wc -> wc <> 27%Z /\ wc <> 10%Z) ->
  c3d_render_text d buffer colorBuffer = Some out ->
  term_run out term_init
  = mkterm Normal None None (frame_cells d buffer colorBuffer) [].
Proof.
  intros Hcolor Hglyph. unfold c3d_render_text.
  destruct (swprintf_at d [] _) as [out0 |] eqn:H0; [| discriminate].
  destruct (swprintf_at d out0 cursor_home) as [out1 |] eqn:H1; [| discriminate].
  destruct (for_each _ _ _) as [[out2 last] |] eqn:Hrows; [| discriminate].
  intro H2. apply swprintf_at_some in H0, H1, H2. subst.
  assert (Hstart : printed [] [] ([] ++ set_background
              (C3D_CLAMP_int (Qtrunc (x3 (background_color d))) 0 255)
              (C3D_CLAMP_int (Qtrunc (y3 (background_color d))) 0 255)
              (C3D_CLAMP_int (Qtrunc (z3 (background_color d))) 0 255)
              ++ cursor_home, 4294967295%Z)).
  { eexists _, _. cbn [fst snd]. split; [| left; reflexivity].
    cbn [app]. unfold term_init.
    rewrite term_run_background by apply C3D_CLAMP_int_range. reflexivity. }
  pose proof (for_each_prefix
                (fun pre s =>
                   printed (map (fun y => map (frame_cell buffer colorBuffer y)
                                              (Zrange 0 (display_width d - 1))) pre)
                           [] s)
                (render_row d buffer colorBuffer)) as Hloop.
  specialize (Hloop
    (fun pre a s s' Hs Hb =>
       eq_ind_r (fun l => printed l [] s')
         (render_row_printed d buffer colorBuffer a _ s s' Hcolor Hglyph Hs Hb)
         (map_app _ pre [a]))).
  specialize (Hloop _ [] _ _ Hstart Hrows). cbn [app] in Hloop.
  destruct Hloop as (fg & bg & Hrun & _). cbn [fst] in Hrun.
  rewrite term_run_app, Hrun. reflexivity.
Qed.

(** X6: the text that c3d_render builds shows the frame: a terminal
    that reads it ends outside any escape sequence with the colours
    reset, and has printed, row by row, every cell of the character
    buffer in the colour of the same cell of the colour buffer; writing
    a colour sequence only when the colour changes loses nothing.  (No
    colour is 0xFFFFFFFF, the initial lastColor, and no character is
    ESC or the line feed.) *)
Theorem render_text_shows_frame (d : display) (buffer colorBuffer : grid Z)
    (out : list Z) :
  (forall y x c, grid_get colorBuffer y x = Some c -> c <> 4294967295%Z) ->
  (forall y x wc, grid_get buffer y x = Some wc -> wc <> 27%Z /\ wc <> 10%Z) ->
  c3d_render_text d buffer colorBuffer = Some out ->
  term_run out term_init
  = mkterm Normal None None (frame_cells d buffer colorBuffer) [].
Proof.
  apply render_text_decodes.
Qed.

Lemma Zrange_length (lo hi : Z) :
  List.length (Zrange lo hi) = Z.to_nat (hi - lo + 1).
Proof. unfold Zrange. rewrite length_map, length_seq. reflexivity. Qed.

Lemma set_foreground_length (r g b : Z) :
  (0 <= r <= 255)%Z -> (0 <= g <= 255)%Z -> (0 <= b <= 255)%Z ->
  (List.length (set_foreground r g b) <= 19)%nat.
Proof.
  intros Hr Hg Hb. unfold set_foreground.
  destruct (print_byte r Hr) as (_ & _ & Lr).
  destruct (print_byte g Hg) as (_ & _ & Lg).
  destruct (print_byte b Hb) as (_ & _ & Lb).
  rewrite !length_app. simpl. lia.
Qed.

Lemma set_background_length (r g b : Z) :
  (0 <= r <= 255)%Z -> (0 <= g <= 255)%Z -> (0 <= b <= 255)%Z ->
  (List.length (set_background r g b) <= 19)%nat.
Proof.
  intros Hr Hg Hb. unfold set_background.
  destruct (print_byte r Hr) as (_ & _ & Lr).
  destruct (print_byte g Hg) as (_ & _ & Lg).
  destruct (print_byte b Hb) as (_ & _ & Lb).
  rewrite !length_app. simpl. lia.
Qed.

Lemma swprintf_at_fits (d : display) (out text : list Z) :
  (Z.of_nat (List.length out) + Z.of_nat (List.length text) < output_elements d)%Z ->
  swprintf_at d out text = Some (out ++ text).
Proof.
  intro H. unfold swprintf_at.
  replace (_ <? _)%Z with true by (symmetry; apply Z.ltb_lt; exact H).
  reflexivity.
Qed.

Lemma put_wchar_fits (d : display) (out : list Z) (wc : Z) :
  (Z.of_nat (List.length out) < output_elements d)%Z ->
  put_wchar d out wc = Some (out ++ [wc]).
Proof.
  intro H. unfold put_wchar.
  replace (_ <? _)%Z with true by (symmetry; apply Z.ltb_lt; exact H).
  reflexivity.
Qed.

(** A loop that lengthens the text by at most [step] per iteration
    completes when [step] times its length is left. *)
Lemma for_each_budget {A} (Q : A -> Prop)
    (body : A -> list Z * Z -> option (list Z * Z)) (step cap : Z) :
  (0 <= step)%Z ->
  (forall a out last,
     Q a -> (Z.of_nat (List.length out) + step < cap)%Z ->
     exists out' last',
       body a (out, last) = Some (out', last')
       /\ (Z.of_nat (List.length out') <= Z.of_nat (List.length out) + step)%Z) ->
  forall (l : list A) out last,
    Forall Q l ->
    (Z.of_nat (List.length out) + step * Z.of_nat (List.length l) < cap)%Z ->
    exists out' last',
      for_each l body (out, last) = Some (out', last')
      /\ (Z.of_nat (List.length out')
          <= Z.of_nat (List.length out) + step * Z.of_nat (List.length l))%Z.
Proof.
  intros Hstep Hbody l. induction l as [| a l IH]; intros out last Hl Hcap.
  - exists out, last. split; [reflexivity |]. simpl. lia.
  - inversion Hl as [| ? ? Ha Hl']; subst.
    cbn [List.length] in *. cbn [for_each].
    destruct (Hbody a out last Ha) as (out1 & last1 & -> & Hlen1); [nia |].
    destruct (IH out1 last1 Hl') as (out' & last' & -> & Hlen'); [nia |].
    exists out', last'. split; [reflexivity | nia].
Qed.

Lemma render_cell_fits (d : display) (buffer colorBuffer : grid Z)
    (y x : Z) (out : list Z) (last : Z) :
  grid_shape buffer (display_height d) (display_width d) ->
  grid_shape colorBuffer (display_height d) (display_width d) ->
  (0 <= y < display_height d)%Z -> (0 <= x < display_width d)%Z ->
  (Z.of_nat (List.length out) + 20 < output_elements d)%Z ->
  exists out' last',
    render_cell d buffer colorBuffer y x (out, last) = Some (out', last')
    /\ (Z.of_nat (List.length out') <= Z.of_nat (List.length out) + 20)%Z.
Proof.
  intros Hbuf Hcol Hy Hx Hcap. unfold render_cell.
  destruct (grid_get_some _ _ _ y x Hcol Hy Hx) as (color & ->).
  destruct (grid_get_some _ _ _ y x Hbuf Hy Hx) as (wc & ->).
  destruct (negb (color =? last)%Z).
  - pose proof (set_foreground_length _ _ _ (BYTE_range color)
                  (BYTE_range (Z.shiftr color 8)) (BYTE_range (Z.shiftr color 16)))
      as Hlen.
    fold (GetRValue color) (GetGValue color) (GetBValue color) in Hlen.
    rewrite swprintf_at_fits by lia.
    rewrite put_wchar_fits by (rewrite length_app; lia).
    eexists _, _. split; [reflexivity |]. rewrite !length_app.
    cbn [List.length]. lia.
  - rewrite put_wchar_fits by lia.
    eexists _, _. split; [reflexivity |]. rewrite length_app.
    cbn [List.length]. lia.
Qed.

Lemma render_row_fits (d : display) (buffer colorBuffer : grid Z)
    (y : Z) (out : list Z) (last : Z) :
  grid_shape buffer (display_height d) (display_width d) ->
  grid_shape colorBuffer (display_height d) (display_width d) ->
  (0 <= display_width d)%Z ->
  (0 <= y < display_height d)%Z ->
  (Z.of_nat (List.length out) + (20 * display_width d + 1) < output_elements d)%Z ->
  exists out' last',
    render_row d buffer colorBuffer y (out, last) = Some (out', last')
    /\ (Z.of_nat (List.length out')
        <= Z.of_nat (List.length out) + (20 * display_width d + 1))%Z.
Proof.
  intros Hbuf Hcol HW Hy Hcap. unfold render_row.
  destruct (for_each_budget (fun x => (0 <= x < display_width d)%Z)
              (render_cell d buffer colorBuffer y) 20 (output_elements d))
    with (l := Zrange 0 (display_width d - 1)) (out := out) (last := last)
    as (out1 & last1 & -> & Hlen1).
  - lia.
  - intros x o l Hx Ho. apply render_cell_fits; assumption.
  - apply Forall_forall. intros x Hx. apply Zrange_in in Hx. lia.
  - rewrite Zrange_length. lia.
  - rewrite Zrange_length in Hlen1.
    rewrite put_wchar_fits by lia.
    eexists _, _. split; [reflexivity |]. rewrite length_app.
    cbn [List.length]. lia.
Qed.

Lemma render_text_total (d : display) (buffer colorBuffer : grid Z) :
  grid_shape buffer (display_height d) (display_width d) ->
  grid_shape colorBuffer (display_height d) (display_width d) ->
  (1 <= display_height d)%Z -> (1 <= display_width d)%Z ->
  (3 <= display_height d + display_width d)%Z ->
  exists out,
    c3d_render_text d buffer colorBuffer = Some out
    /\ (Z.of_nat (List.length out) < output_elements d)%Z.
Proof.
  intros Hbuf Hcol HH HW Hsum. unfold c3d_render_text.
  set (H := display_height d) in *. set (W := display_width d) in *.
  assert (Hcap : (26 + H * (20 * W + 1) < output_elements d)%Z).
  { unfold output_elements. fold H W. nia. }
  pose proof (set_background_length _ _ _
                (C3D_CLAMP_int_range (Qtrunc (x3 (background_color d))))
                (C3D_CLAMP_int_range (Qtrunc (y3 (background_color d))))
                (C3D_CLAMP_int_range (Qtrunc (z3 (background_color d))))) as Lbg.
  assert (HHW : (0 <= H * (20 * W + 1))%Z) by nia.
  rewrite swprintf_at_fits by (cbn [List.length];
    change (List.length cursor_home) with 3%nat;
    change (List.length sgr_reset) with 4%nat; lia).
  rewrite swprintf_at_fits by (rewrite length_app; cbn [List.length];
    change (List.length cursor_home) with 3%nat;
    change (List.length sgr_reset) with 4%nat; lia).
  destruct (for_each_budget (fun y => (0 <= y < H)%Z)
              (render_row d buffer colorBuffer) (20 * W + 1) (output_elements d))
    with (l := Zrange 0 (H - 1))
         (out := ([] ++ set_background
              (C3D_CLAMP_int (Qtrunc (x3 (background_color d))) 0 255)
              (C3D_CLAMP_int (Qtrunc (y3 (background_color d))) 0 255)
              (C3D_CLAMP_int (Qtrunc (z3 (background_color d))) 0 255))
              ++ cursor_home)
         (last := 4294967295%Z)
    as (out1 & last1 & -> & Hlen1).
  - lia.
  - intros y o l Hy Ho. apply render_row_fits; try assumption; fold W; lia.
  - apply Forall_forall. intros y Hy. apply Zrange_in in Hy. lia.
  - rewrite Zrange_length, !length_app. cbn [List.length].
    change (List.length cursor_home) with 3%nat.
    replace (Z.of_nat (Z.to_nat (H - 1 - 0 + 1))) with H by lia. lia.
  - rewrite Zrange_length, !length_app in Hlen1. cbn [List.length] in Hlen1.
    change (List.length cursor_home) with 3%nat in Hlen1.
    replace (Z.of_nat (Z.to_nat (H - 1 - 0 + 1))) with H in Hlen1 by lia.
    rewrite swprintf_at_fits by (cbn [List.length];
    change (List.length cursor_home) with 3%nat;
    change (List.length sgr_reset) with 4%nat; lia).
    eexists. split; [reflexivity |]. rewrite length_app. cbn [List.length].
    change (List.length sgr_reset) with 4%nat. lia.
Qed.

(** X7: the text of a frame fits the buffer that c3d_render allocates
    for it: for buffers of display_height rows of display_width cells,
    on every display of at least one row and one column other than the
    1 x 1 display, c3d_render completes without writing outside
    output_buffer. *)
Theorem render_text_fits (d : display) (buffer colorBuffer : grid Z) :
  grid_shape buffer (display_height d) (display_width d) ->
  grid_shape colorBuffer (display_height d) (display_width d) ->
  (1 <= display_height d)%Z -> (1 <= display_width d)%Z ->
  (3 <= display_height d + display_width d)%Z ->
  exists out,
    c3d_render_text d buffer colorBuffer = Some out
    /\ (Z.of_nat (List.length out) < output_elements d)%Z.
Proof.
  apply render_text_total.
Qed.

(** X8: on the 1 x 1 display the buffer of c3d_render is too small: when
    the three channels of the colour of the cell have three digits
    (and the colour is not 0xFFFFFFFF), the text does not fit the
    display_height * (display_width * 30 + 10) = 40 elements of
    output_buffer, whatever the background and the character are. *)
Theorem render_text_overflow (d : display) (wc color : Z) :
  display_height d = 1%Z -> display_width d = 1%Z ->
  color <> 4294967295%Z ->
  (100 <= GetRValue color)%Z -> (100 <= GetGValue color)%Z ->
  (100 <= GetBValue color)%Z ->
  c3d_render_text d [[wc]] [[color]] = None.
Proof.
  intros HH HW Hne Hr Hg Hb.
  assert (Hcap : output_elements d = 40%Z).
  { unfold output_elements. rewrite HH, HW. reflexivity. }
  pose proof (print_byte_length _ (C3D_CLAMP_int_range (Qtrunc (x3 (background_color d)))))
    as [L1 _].
  pose proof (print_byte_length _ (C3D_CLAMP_int_range (Qtrunc (y3 (background_color d)))))
    as [L2 _].
  pose proof (print_byte_length _ (C3D_CLAMP_int_range (Qtrunc (z3 (background_color d)))))
    as [L3 _].
  pose proof (proj2 (print_byte_length _ (BYTE_range color)) Hr) as Lr.
  pose proof (proj2 (print_byte_length _ (BYTE_range (Z.shiftr color 8))) Hg) as Lg.
  pose proof (proj2 (print_byte_length _ (BYTE_range (Z.shiftr color 16))) Hb) as Lb.
  fold (GetRValue color) in Lr.
  unfold GetGValue in Hg. unfold GetBValue in Hb.
  unfold c3d_render_text. rewrite HH.
  change (Zrange 0 (1 - 1)) with [0%Z]. cbn [for_each].
  destruct (swprintf_at d [] _) as [out0 |] eqn:E0; [| reflexivity].
  destruct (swprintf_at d out0 cursor_home) as [out1 |] eqn:E1; [| reflexivity].
  apply swprintf_at_some in E0, E1.
  unfold render_row. rewrite HW.
  change (Zrange 0 (1 - 1)) with [0%Z]. cbn [for_each]. unfold render_cell.
  change (grid_get [[color]] 0 0) with (Some color).
  change (grid_get [[wc]] 0 0) with (Some wc).
  cbv beta iota zeta.
  destruct (Z.eqb_spec color 4294967295) as [| _]; [congruence |]. cbn [negb].
  destruct (swprintf_at d out1 _) as [out2 |] eqn:E2; [| reflexivity].
  destruct (put_wchar d out2 wc) as [out3 |] eqn:E3; [| reflexivity].
  destruct (put_wchar d out3 10) as [out4 |] eqn:E4; [| reflexivity].
  apply swprintf_at_some in E2. apply put_wchar_some in E3, E4.
  unfold swprintf_at. rewrite Hcap.
  replace (_ <? 40)%Z with false; [reflexivity |].
  symmetry. apply Z.ltb_ge. subst.
  unfold set_background, set_foreground, GetGValue, GetBValue.
  rewrite !length_app. cbn [List.length].
  fold (GetRValue color).
  change (List.length cursor_home) with 3%nat.
  change (List.length sgr_reset) with 4%nat. lia.
Qed.

(** ** Textures *)




Lemma nth_error_Zrange (lo hi : Z) (k : nat) :
  (Z.of_nat k <= hi - lo)%Z ->
  nth_error (Zrange lo hi) k = Some (lo + Z.of_nat k)%Z.
Proof.
  intro Hk. unfold Zrange. rewrite nth_error_map.
  rewrite (nth_error_nth' _ O) by (rewrite length_seq; lia).
  rewrite seq_nth by lia. reflexivity.
Qed.

Lemma nth_error_rows {T} (g : Z -> list T) (n : nat) (ys : list Z) :
  (forall y, List.length (g y) = n) ->
  forall (i j : nat) (y : Z),
    nth_error ys i = Some y -> (j < n)%nat ->
    nth_error (flat_map g ys) (i * n + j) = nth_error (g y) j.
Proof.
  intro Hg. induction ys as [| y0 ys IH]; intros i j y Hi Hj.
  - destruct i; discriminate.
  - cbn [flat_map]. destruct i as [| i]; simpl in Hi.
    + inversion Hi; subst. simpl. apply nth_error_app1. rewrite Hg. exact Hj.
    + rewrite nth_error_app2 by (rewrite Hg; simpl; lia).
      rewrite Hg. replace (S i * n + j - n)%nat with (i * n + j)%nat by (simpl; lia).
      apply (IH i j y Hi Hj).
Qed.

(** X22: the placeholder texture is a 120 x 120 checker of 4 x 4 cells
    that can be sampled anywhere: c3d_texsample returns
    (0.5, 0, 0.5) where the sum of the cell coordinates is even and
    (0, 0, 0) where it is odd, for every u and v. *)
Theorem generic_texgen_samples (u v : Q) :
  let tex := c3d_generic_texgen in
  c3d_texsample tex u v
  = Some (if (((tex_x tex u / 4) + (tex_y tex v / 4)) mod 2 =? 0)%Z
          then mkvec3 (1 # 2) 0 (1 # 2)
          else mkvec3 0 0 0).
Proof.
  cbv zeta. set (tex := c3d_generic_texgen).
  assert (Hidx : tex_indexable tex).
  { unfold tex_indexable, tex, c3d_generic_texgen, INT_MAX. cbn [width height]. lia. }
  pose proof (tex_x_range tex u Hidx) as Hx.
  pose proof (tex_y_range tex v Hidx) as Hy.
  pose proof (tex_index_exact tex u v Hidx) as Hi.
  change (width tex) with 120%Z in *. change (height tex) with 120%Z in *.
  unfold c3d_texsample. rewrite Hi.
  change (data tex) with
    (Some (flat_map
             (fun y => map (fun x =>
                if (((x / 4) + (y / 4)) mod 2 =? 0)%Z
                then mkvec3 (1 # 2) 0 (1 # 2)
                else mkvec3 0 0 0)
                (Zrange 0 (120 - 1)))
             (Zrange 0 (120 - 1)))).
  cbv beta iota.
  replace (tex_y tex v * 120 + tex_x tex u <? 0)%Z with false
    by (symmetry; apply Z.ltb_ge; lia).
  replace (Z.to_nat (tex_y tex v * 120 + tex_x tex u))
    with (Z.to_nat (tex_y tex v) * 120 + Z.to_nat (tex_x tex u))%nat by lia.
  rewrite (nth_error_rows _ 120 (Zrange 0 (120 - 1)))
    with (y := tex_y tex v).
  - rewrite nth_error_map, nth_error_Zrange by lia. cbn [option_map].
    replace (0 + Z.of_nat (Z.to_nat (tex_x tex u)))%Z with (tex_x tex u) by lia.
    destruct (_ =? 0)%Z; reflexivity.
  - intro y. rewrite length_map, Zrange_length. reflexivity.
  - rewrite nth_error_Zrange by lia. f_equal. lia.
  - lia.
Qed.

(** ** Smooth normals: shared vertices *)

Lemma same_position_refl (v : vec3) : same_position v v = true.
Proof.
  unfold same_position.
  assert (H : forall a : Q, Qltb (Qabs (a - a)) (1 # 1000000) = true).
  { intro a. apply Qltb_true.
    assert (E : a - a == 0) by ring. rewrite E. reflexivity. }
  rewrite !H. reflexivity.
Qed.

Lemma find_unique_app_some (PU rest : list vec3) (v : vec3) :
  forall (j k : nat),
    find_unique PU v j = Some k -> find_unique (PU ++ rest) v j = Some k.
Proof.
  induction PU as [| p PU IH]; intros j k H; [discriminate |].
  simpl in *. destruct (same_position p v); [exact H |]. apply IH, H.
Qed.

Lemma find_unique_app_none (PU : list vec3) (v : vec3) :
  forall (j : nat),
    find_unique PU v j = None ->
    find_unique (PU ++ [v]) v j = Some (j + List.length PU)%nat.
Proof.
  induction PU as [| p PU IH]; intros j H.
  - simpl. rewrite same_position_refl. f_equal. lia.
  - simpl in *. destruct (same_position p v); [discriminate |].
    rewrite (IH (S j) H). f_equal. lia.
Qed.

Lemma unique_step_indexed (st : list vec3 * list nat) (pre : list vec3) (v : vec3) :
  indexed st pre -> indexed (unique_step st v) (pre ++ [v]).
Proof.
  destruct st as [PU MU]. intros [Hlen Hidx]. cbn [fst snd] in *.
  unfold unique_step.
  destruct (find_unique PU v 0) as [found |] eqn:Hfind; unfold indexed; cbn [fst snd].
  - split; [rewrite !length_app; simpl; lia |].
    intros q w Hq.
    destruct (Nat.lt_ge_cases q (List.length pre)) as [Hlt | Hge].
    + rewrite nth_error_app1 in Hq by exact Hlt.
      destruct (Hidx q w Hq) as (k & Hk & Hf).
      exists k. split; [rewrite nth_error_app1 by lia; exact Hk | exact Hf].
    + rewrite nth_error_app2 in Hq by exact Hge.
      destruct (q - List.length pre)%nat as [| n] eqn:Hn;
        [| destruct n; discriminate].
      simpl in Hq. inversion Hq; subst w.
      exists found. split; [| exact Hfind].
      rewrite nth_error_app2 by lia.
      replace (q - List.length MU)%nat with O by lia. reflexivity.
  - split; [rewrite !length_app; simpl; lia |].
    intros q w Hq.
    destruct (Nat.lt_ge_cases q (List.length pre)) as [Hlt | Hge].
    + rewrite nth_error_app1 in Hq by exact Hlt.
      destruct (Hidx q w Hq) as (k & Hk & Hf).
      exists k. split; [rewrite nth_error_app1 by lia; exact Hk |].
      apply find_unique_app_some, Hf.
    + rewrite nth_error_app2 in Hq by exact Hge.
      destruct (q - List.length pre)%nat as [| n] eqn:Hn;
        [| destruct n; discriminate].
      simpl in Hq. inversion Hq; subst w.
      exists (List.length PU). split.
      * rewrite nth_error_app2 by lia.
        replace (q - List.length MU)%nat with O by lia. reflexivity.
      * apply (find_unique_app_none PU v 0 Hfind).
Qed.

Lemma build_unique_indexed (positions : list vec3) :
  forall (st : list vec3 * list nat) (pre : list vec3),
    indexed st pre ->
    indexed (fold_left unique_step positions st) (pre ++ positions).
Proof.
  induction positions as [| v positions IH]; intros st pre Hst.
  - rewrite app_nil_r. exact Hst.
  - cbn [fold_left]. change (v :: positions) with ([v] ++ positions).
    rewrite app_assoc. apply IH, unique_step_indexed, Hst.
Qed.

Lemma write_back_normals (ts : list tri) :
  forall (i : nat) (map_unique : list nat) (normals : list vec3) (p : nat),
    (p < 3 * List.length ts)%nat ->
    nth p (corner_normals (write_back ts i map_unique normals)) vec3_0
    = nth (nth (i * 3 + p) map_unique O) normals vec3_0.
Proof.
  induction ts as [| t ts IH]; intros i MU N p Hp; simpl in Hp; [lia |].
  cbn [write_back corner_normals flat_map app nvx nvy nvz].
  destruct p as [| [| [| p]]]; cbn [nth]; try reflexivity.
  fold (corner_normals (write_back ts (S i) MU N)).
  rewrite (IH (S i) MU N p) by lia.
  replace (S i * 3 + p)%nat with (i * 3 + S (S (S p)))%nat by lia. reflexivity.
Qed.

Lemma corner_positions_length (ts : list tri) :
  List.length (corner_positions ts) = (3 * List.length ts)%nat.
Proof.
  unfold corner_positions. induction ts as [| t ts IH]; [reflexivity |].
  cbn [flat_map List.length app]. rewrite IH. lia.
Qed.

Lemma build_unique_same (positions : list vec3) (p q : nat) (v : vec3) :
  nth_error positions p = Some v -> nth_error positions q = Some v ->
  nth p (snd (build_unique positions)) O = nth q (snd (build_unique positions)) O.
Proof.
  intros Hp Hq. unfold build_unique.
  assert (H0 : indexed ([], []) []).
  { split; [reflexivity |]. intros k w Hk. destruct k; discriminate. }
  pose proof (build_unique_indexed positions _ _ H0) as [_ Hidx].
  cbn [app] in Hidx.
  destruct (Hidx p v Hp) as (k & Hk & Hf).
  destruct (Hidx q v Hq) as (k' & Hk' & Hf').
  rewrite (nth_error_nth _ _ O Hk), (nth_error_nth _ _ O Hk'). congruence.
Qed.

(** X20: after c3d_vecnormalavg, corners that have the same position have
    the same normal, in whichever triangles they are: the corners are
    numbered through the mesh (corner k of triangle i is 3i + k). *)
Theorem vecnormalavg_shared_normal (m : mesh) (p q : nat) (v : vec3) :
  nth_error (corner_positions (tris m)) p = Some v ->
  nth_error (corner_positions (tris m)) q = Some v ->
  nth p (corner_normals (tris (c3d_vecnormalavg m))) vec3_0
  = nth q (corner_normals (tris (c3d_vecnormalavg m))) vec3_0.
Proof.
  intros Hp Hq.
  pose proof (build_unique_same _ p q v Hp Hq) as Hsame.
  assert (Lp : (p < 3 * List.length (tris m))%nat).
  { rewrite <- corner_positions_length. apply nth_error_Some. congruence. }
  assert (Lq : (q < 3 * List.length (tris m))%nat).
  { rewrite <- corner_positions_length. apply nth_error_Some. congruence. }
  unfold c3d_vecnormalavg, smooth_normals.
  destruct (build_unique (corner_positions (tris m))) as [PU MU].
  cbn [snd] in Hsame. cbn [tris].
  rewrite !write_back_normals by assumption.
  cbn [Nat.mul Nat.add]. rewrite Hsame. reflexivity.
Qed.

(** ** From the frame to the console *)



(** ** After a reset *)


(** ** Behaviours and their arguments *)

Lemma nth_error_update_nth_same {T} (l : list T) (f : T -> T) :
  forall (i : nat) (a : T),
    nth_error l i = Some a -> nth_error (update_nth l i f) i = Some (f a).
Proof.
  induction l as [| x l IH]; intros i a Hi; [destruct i; discriminate |].
  destruct i as [| i]; simpl in *.
  - inversion Hi. reflexivity.
  - apply IH, Hi.
Qed.

Lemma nth_error_update_nth_other {T} (l : list T) (f : T -> T) :
  forall (i j : nat), j <> i -> nth_error (update_nth l i f) j = nth_error l j.
Proof.
  induction l as [| x l IH]; intros i j Hj; [destruct i; reflexivity |].
  destruct i as [| i]; destruct j as [| j]; simpl; try reflexivity; try lia.
  apply IH. lia.
Qed.

Lemma mesh_id_in_range (d : display) (id : Z) (m : mesh) :
  (0 <= id)%Z -> nth_error (meshes d) (Z.to_nat id) = Some m ->
  ((id >=? 0) && (id <? mesh_count d))%Z = true.
Proof.
  intros Hid Hm. apply andb_true_iff. split.
  - apply Z.geb_le. exact Hid.
  - apply Z.ltb_lt. unfold mesh_count.
    assert (Z.to_nat id < List.length (meshes d))%nat
      by (apply nth_error_Some; congruence).
    lia.
Qed.

(** X24: c3d_behavior_scalemesh tests argc < 4 but reads args[4], and
    c3d_behavior_moveto_id tests argc < 5 but reads args[5]: on the
    argc strings that c3d_behavioradd stores for a behaviour, the
    first reads outside them exactly when argc is 4 and the second
    exactly when argc is 5. *)
Theorem behavior_argument_bounds (d d0 : display) (f : option behavior_func)
    (ty : behavior_type) (n : Z) (strs : list string) :
  (0 <= n <= Z.of_nat (List.length strs))%Z ->
  let b := last (behaviors (c3d_behavioradd d f ty n strs))
                (mkbehavior None ty 0 []) in
  argc b = n
  /\ List.length (args b) = Z.to_nat n
  /\ (c3d_behavior_scalemesh d0 (argc b) (args b) = None <-> n = 4%Z)
  /\ (c3d_behavior_moveto_id d0 (argc b) (args b) = None <-> n = 5%Z).
Proof.
  intros Hn b.
  assert (Eb : b = mkbehavior f ty n (firstn (Z.to_nat n) strs)).
  { unfold b, c3d_behavioradd. cbn [behaviors]. apply last_last. }
  rewrite Eb. cbn [argc args].
  assert (Hlen : List.length (firstn (Z.to_nat n) strs) = Z.to_nat n).
  { rewrite length_firstn. lia. }
  split; [reflexivity |]. split; [exact Hlen |].
  set (l := firstn (Z.to_nat n) strs) in *. clearbody l.
  unfold c3d_behavior_scalemesh, c3d_behavior_moveto_id.
  destruct l as [| a0 [| a1 [| a2 [| a3 [| a4 [| a5 l]]]]]];
    cbn [List.length] in Hlen; cbn [nth_error];
    destruct (Z.ltb_spec n 4); destruct (Z.ltb_spec n 5); try lia;
    split; split; intro Hcase; try discriminate; try lia; try reflexivity;
    try (destruct ((_ >=? 0) && _)%Z; discriminate).
Qed.

(** X25: c3d_behavior_scalemesh scales the mesh about its centre: with
    its five arguments and the index of a mesh that has a triangle, the
    centre of that mesh stays where it was, and the other meshes, the
    camera and the lights are left alone. *)
Theorem scalemesh_keeps_center (d : display) (n : Z)
    (a0 a1 a2 a3 a4 : string) (rest : list string) (m : mesh) :
  (4 <= n)%Z -> (0 <= atoi a1)%Z ->
  nth_error (meshes d) (Z.to_nat (atoi a1)) = Some m -> tris m <> [] ->
  exists d' m',
    c3d_behavior_scalemesh d n (a0 :: a1 :: a2 :: a3 :: a4 :: rest) = Some d'
    /\ nth_error (meshes d') (Z.to_nat (atoi a1)) = Some m'
    /\ vec3_eq (c3d_meshcenter m') (c3d_meshcenter m)
    /\ (forall j, j <> Z.to_nat (atoi a1) ->
                  nth_error (meshes d') j = nth_error (meshes d) j)
    /\ camera d' = camera d /\ lights d' = lights d.
Proof.
  intros Hn Hid Hm Hne. unfold c3d_behavior_scalemesh.
  replace (n <? 4)%Z with false by (symmetry; apply Z.ltb_ge; lia).
  cbn [nth_error]. rewrite (mesh_id_in_range d _ m Hid Hm).
  eexists _, _. split; [reflexivity |]. cbn [meshes set_meshes camera lights].
  split; [apply nth_error_update_nth_same; exact Hm |].
  split; [apply meshrel_center_fixed;
          [exact Hne | unfold no_translation, c3d_mat4scl; simpl;
                       repeat split; reflexivity] |].
  split; [intros j Hj; apply nth_error_update_nth_other; exact Hj |].
  split; reflexivity.
Qed.

(** X26: c3d_behavior_moveto_id moves a mesh by one step towards the
    target: with its six arguments and the index of a mesh that has a
    triangle, the centre of that mesh moves by step times the
    normalised direction from the centre to the target, and the other
    meshes are left alone. *)
Theorem moveto_id_moves_center (d : display) (n : Z)
    (a0 a1 a2 a3 a4 a5 : string) (rest : list string) (m : mesh) :
  (5 <= n)%Z -> (0 <= atoi a1)%Z ->
  nth_error (meshes d) (Z.to_nat (atoi a1)) = Some m -> tris m <> [] ->
  let target := mkvec3 (atof a2) (atof a3) (atof a4) in
  let direction := c3d_vec3normalize (vec3_sub target (c3d_meshcenter m)) in
  exists d' m',
    c3d_behavior_moveto_id d n (a0 :: a1 :: a2 :: a3 :: a4 :: a5 :: rest) = Some d'
    /\ nth_error (meshes d') (Z.to_nat (atoi a1)) = Some m'
    /\ vec3_eq (c3d_meshcenter m')
               (vec3_add (c3d_meshcenter m) (vec3_scale direction (atof a5)))
    /\ forall j, j <> Z.to_nat (atoi a1) ->
                 nth_error (meshes d') j = nth_error (meshes d) j.
Proof.
  intros Hn Hid Hm Hne target direction. unfold c3d_behavior_moveto_id.
  replace (n <? 5)%Z with false by (symmetry; apply Z.ltb_ge; lia).
  cbn [nth_error]. rewrite (mesh_id_in_range d _ m Hid Hm).
  eexists _, _. split; [reflexivity |]. cbn [meshes set_meshes].
  split; [apply nth_error_update_nth_same; exact Hm |].
  split; [| intros j Hj; apply nth_error_update_nth_other; exact Hj].
  apply (vec3_eq_trans _ _ _ (meshabs_moves_center m _ Hne)).
  unfold moveto_matrix, vec3_eq, c3d_mat4vec3, c3d_mat4tra, vec3_add, vec3_scale.
  fold (vec3_sub target (c3d_meshcenter m)).
  cbn [x3 y3 z3 m00 m01 m02 m03 m10 m11 m12 m13 m20 m21 m22 m23].
  unfold direction, vec3_sub, target. cbn [x3 y3 z3].
  split; [ring |]. split; ring.
Qed.

(** ** The keyboard handler *)

Lemma k_camera_keeps (c : cam) (dt : Q) (k : keys) :
  matrot (k_camera c dt k) = matrot c
  /\ fnear (k_camera c dt k) = fnear c
  /\ ffar (k_camera c dt k) = ffar c.
Proof.
  unfold k_camera. cbv zeta.
  destruct (key_W k), (key_S k), (key_A k), (key_D k), (key_SPACE k),
    (key_SHIFT k), (key_LEFT k), (key_RIGHT k), (key_UP k), (key_DOWN k),
    (key_I k), (key_O k); repeat split; reflexivity.
Qed.

Lemma speed_if (b : bool) (c1 c2 : cam) :
  speed c1 = speed c2 -> speed (if b then c1 else c2) = speed c2.
Proof. destruct b; auto. Qed.

Lemma k_camera_speed (c : cam) (dt : Q) (k : keys) :
  0 <= speed c -> 0 <= speed (k_camera c dt k).
Proof.
  intro Hs. unfold k_camera. cbv zeta.
  match goal with
  | |- 0 <= speed (if key_O k then on_O ?c11 ?z else ?c11) =>
      assert (H11 : 0 <= speed c11)
  end.
  { match goal with
    | |- 0 <= speed (if key_I k then on_I ?c10 ?z else ?c10) =>
        assert (H10 : speed c10 = speed c)
    end.
    { repeat (rewrite speed_if; [| reflexivity]). reflexivity. }
    destruct (key_I k); [| rewrite H10; exact Hs].
    unfold on_I, set_speed. cbn [speed]. rewrite H10. lra. }
  destruct (key_O k); [| exact H11].
  unfold on_O, set_speed. cbn [speed].
  destruct (Qgeb _ (1 # 10)) eqn:Hge; [apply Qgeb_true in Hge |]; lra.
Qed.

(** X27: c3d_k_handle never makes the speed of the camera negative: the
    O key lowers it by 0.1 only while it is at least 0.1; and it leaves
    the rotation matrix and the two clipping planes as they are. *)
Theorem k_handle_speed (d : display) (dt : Q) (k : keys) (rand1 rand2 rand3 : Z) :
  0 <= speed (camera d) ->
  let d' := c3d_k_handle d dt k rand1 rand2 rand3 in
  0 <= speed (camera d')
  /\ matrot (camera d') = matrot (camera d)
  /\ fnear (camera d') = fnear (camera d)
  /\ ffar (camera d') = ffar (camera d).
Proof.
  intros Hs d'.
  assert (Ec : camera d' = k_camera (camera d) dt k).
  { unfold d', c3d_k_handle. cbv zeta.
    destruct (key_RETURN k || key_LBUTTON k); reflexivity. }
  rewrite Ec. split; [apply k_camera_speed, Hs | apply k_camera_keeps].
Qed.

Lemma rand_channel (r : Z) :
  (0 <= r)%Z -> 0 <= inject_Z (Z.rem r 256) / 255 <= 1.
Proof.
  intro Hr. pose proof (Z.rem_bound_pos r 256 Hr) as Hb.
  assert (H0 : 0 <= inject_Z (Z.rem r 256)).
  { change 0 with (inject_Z 0). rewrite <- Zle_Qle. lia. }
  assert (H1 : inject_Z (Z.rem r 256) <= 255).
  { change 255 with (inject_Z 255). rewrite <- Zle_Qle. lia. }
  split.
  - apply Qle_shift_div_l; lra.
  - apply Qle_shift_div_r; lra.
Qed.

(** X28: the light that c3d_k_handle adds on RETURN or on the left
    button is appended to the lights, sits at the position of the
    camera after the move, and has a colour in [0,1]^3 (rand does not
    return a negative number), brightness 1 and radius 0.5; without
    those keys the lights are unchanged. *)
Theorem k_handle_light (d : display) (dt : Q) (k : keys) (rand1 rand2 rand3 : Z) :
  (0 <= rand1)%Z -> (0 <= rand2)%Z -> (0 <= rand3)%Z ->
  let d' := c3d_k_handle d dt k rand1 rand2 rand3 in
  if key_RETURN k || key_LBUTTON k
  then exists L,
         lights d' = lights d ++ [L]
         /\ vec3_eq (position L) (pos (camera d'))
         /\ in_unit (color L) /\ brightness L = 1 /\ radius L = 5 # 10
  else lights d' = lights d.
Proof.
  intros H1 H2 H3 d'. unfold d', c3d_k_handle. cbv zeta.
  destruct (key_RETURN k || key_LBUTTON k); [| reflexivity].
  eexists. split; [reflexivity |].
  cbn [position color brightness radius c3d_lightadd camera set_camera].
  split; [repeat split; reflexivity |].
  split; [| split; reflexivity].
  unfold in_unit. cbn [x3 y3 z3].
  repeat split; apply rand_channel; assumption.
Qed.

(** ** The size of the display *)

(** X29: c3d_auto_winres sets the aspect to the quotient of two integers:
    for a console of more than five rows and at least five columns, the
    aspect is the width minus 5 divided by the height minus 5 rounded
    down, so it is 0 whenever the console is narrower than high. *)
Theorem auto_winres_aspect (d : display) (c : cam) (size : window) :
  let w := (win_width size - 5)%Z in
  let h := (win_height size - 5)%Z in
  (0 <= w)%Z -> (0 < h)%Z ->
  exists d' c',
    c3d_auto_winres d c size = Some (d', c')
    /\ display_width d' = w /\ display_height d' = h
    /\ aspect c' <= inject_Z w / inject_Z h
    /\ inject_Z w / inject_Z h < aspect c' + 1
    /\ ((w < h)%Z -> aspect c' = 0).
Proof.
  intros w h Hw Hh. unfold c3d_auto_winres. cbv zeta. fold w h.
  destruct (Z.eqb_spec h 0) as [E | _]; [lia |].
  eexists _, _. split; [reflexivity |]. cbn [display_width display_height aspect].
  split; [reflexivity |]. split; [reflexivity |].
  rewrite (Z.quot_div_nonneg w h Hw Hh).
  pose proof (Z.mul_div_le w h Hh) as Hle.
  pose proof (Z.mul_succ_div_gt w h Hh) as Hgt.
  assert (Hhq : 0 < inject_Z h).
  { change 0 with (inject_Z 0). rewrite <- Zlt_Qlt. exact Hh. }
  split.
  - apply Qle_shift_div_l; [exact Hhq |].
    rewrite <- inject_Z_mult, <- Zle_Qle. lia.
  - split.
    + apply Qlt_shift_div_r; [exact Hhq |].
      change 1 with (inject_Z 1).
      rewrite <- inject_Z_plus, <- inject_Z_mult, <- Zlt_Qlt. lia.
    + intro Hlt. rewrite (Z.div_small w h) by lia. reflexivity.
Qed.

(** ** The line drawer *)



End Pipeline.

(** * The theorems on concrete scenes *)

(** ** Shading *)



(** ** Clipping *)

(** The triangle in front of the camera comes out rotated; the
    triangle behind the camera is dropped. *)
Lemma nearclip_triangle_witness :
  c3d_nearclip tri_front (view_projection tan_q sample_cam)
  = [rotate_corners tri_front]
  /\ c3d_nearclip tri_behind (view_projection tan_q sample_cam) = [].
Proof.
  split.
  - apply (proj1 (proj2 (proj2
      (nearclip_triangle tri_front (view_projection tan_q sample_cam))))).
    repeat split; by_evaluation.
  - apply (proj2 (proj2 (proj2
      (nearclip_triangle tri_behind (view_projection tan_q sample_cam))))).
    repeat split; by_evaluation.
Defined.

(** The three corners of [tri_front] are inside the near half-space,
    and what comes out is not that triangle: its first corner is the
    second corner of the input. *)
Lemma nearclip_inside_counterexample :
  all_inside tri_front (view_projection tan_q sample_cam)
  /\ c3d_nearclip tri_front (view_projection tan_q sample_cam) <> [tri_front]
  /\ vx (nth 0 (c3d_nearclip tri_front (view_projection tan_q sample_cam)) tri_behind)
     = vy tri_front.
Proof.
  split; [repeat split; by_evaluation |].
  split; [vm_compute; discriminate | vm_compute; reflexivity].
Qed.

(** The second vertex that clipping [tri_two_front] emits is the
    intersection of its edge (vy, vz) with the near plane. *)
Lemma nearclip_vertex_witness :
  let inVerts := clip_input tri_two_front (view_projection tan_q sample_cam) in
  let v := nth 1 (c3d_suthhodgman inVerts) vex_0 in
  (In v inVerts /\ c3d_innear v = true)
  \/ exists A B t,
       In (A, B) (poly_edges inVerts) /\ crosses A B
       /\ t = (z4 (clip A) + w4 (clip A))
              / ((z4 (clip A) + w4 (clip A)) - (z4 (clip B) + w4 (clip B)))
       /\ v = c3d_nearintersect A B
       /\ interpolates A B t v
       /\ z4 (clip v) + w4 (clip v) == 0.
Proof.
  cbv zeta.
  apply (nearclip_vertex
           (clip_input tri_two_front (view_projection tan_q sample_cam))).
  apply nth_In. vm_compute. lia.
Defined.




(** ** Rasterizing *)

(** The grey material on a black background: the only cell is written
    with the colour (127, 127, 127). *)
Lemma rasterize_emitted_color_witness :
  let d := one_cell vec3_0 [] in
  let b' := match c3d_rasterize sqrt_q pow_q sqrt_q pow_q d one_cell_buffers
                                cover0 cover1 cover2 1 1 1 tri_front grey with
            | Some b => b
            | None => one_cell_buffers
            end in
  grid_get (colorBuffer b') 0 0 = grid_get (colorBuffer one_cell_buffers) 0 0
  \/ exists col ambient diffuse specular tex_color,
       grid_get (colorBuffer b') 0 0 = Some col
       /\ sample_of sqrt_q pow_q sqrt_q pow_q d grey ambient diffuse specular tex_color
       /\ channels_floor col
            (clamp01 (lerp_vec3 (background_color d)
                        (shaded_color ambient diffuse specular tex_color)
                        (transparency grey)))
       /\ (transparency grey == 1 # 2 ->
           in_unit (half_mix d ambient diffuse specular tex_color) ->
           within_255 (GetRValue col) (x3 (half_mix d ambient diffuse specular tex_color))
           /\ within_255 (GetGValue col) (y3 (half_mix d ambient diffuse specular tex_color))
           /\ within_255 (GetBValue col) (z3 (half_mix d ambient diffuse specular tex_color))).
Proof.
  cbv zeta.
  apply (rasterize_emitted_color sqrt_q pow_q sqrt_q pow_q (one_cell vec3_0 [])
           one_cell_buffers _ cover0 cover1 cover2 1 1 1 tri_front grey).
  vm_compute. reflexivity.
Defined.

(** The claim as stated fails twice.  With the grey material the colour
    is c = (1/2, 1/2, 1/2): rounding c*255 = 127.5 gives 128, and the
    code writes 127.  With the half-transparent material over the
    background (30, 30, 30) of the sample scene, 0.5*background +
    0.5*shaded is 15.25, and the code writes 255, that is 1. *)
Lemma rasterize_round_counterexample :
  let written (d : display) (m : material) :=
    match c3d_rasterize sqrt_q pow_q sqrt_q pow_q d one_cell_buffers
                        cover0 cover1 cover2 1 1 1 tri_front m with
    | Some b' => grid_get (colorBuffer b') 0 0
    | None => None
    end in
  let ambient := mkvec3 (1 # 2) (1 # 2) (1 # 2) in
  (c3d_bphongshade sqrt_q pow_q sqrt_q pow_q (one_cell vec3_0 []) up vec3_0 grey
   = (ambient, vec3_0, vec3_0)
   /\ c3d_texsample no_samples 0 0 = Some white
   /\ pixel_color (one_cell vec3_0 []) grey ambient vec3_0 vec3_0 white = ambient
   /\ round_channel (1 # 2) = 128%Z
   /\ written (one_cell vec3_0 []) grey = Some (RGB 127 127 127)
   /\ RGB 127 127 127 <> RGB 128 128 128)
  /\ (transparency glass == 1 # 2
      /\ x3 (half_mix (one_cell (mkvec3 30 30 30) []) ambient vec3_0 vec3_0 white)
         == 61 # 4
      /\ written (one_cell (mkvec3 30 30 30) []) glass = Some (RGB 255 255 255)
      /\ GetRValue (RGB 255 255 255) = 255%Z).
Proof.
  cbv zeta. split; repeat split; by_evaluation.
Qed.

(** ** Smooth normals *)

(** The pass on two triangles that share the edge from (0,0,0) to
    (0,1,0): the corners on the edge get the average of the two face
    normals, the others the normal of their face. *)
Lemma vecnormalavg_folded :
  let out := tris (c3d_vecnormalavg sqrt_q pow_q folded) in
  let t0 := nth 0 out tri_front in
  let t1 := nth 1 out tri_front in
  (x3 (nvy t0) == 0 /\ y3 (nvy t0) == 0 /\ z3 (nvy t0) == 1)
  /\ (x3 (nvz t1) == 1 /\ y3 (nvz t1) == 0 /\ z3 (nvz t1) == 0)
  /\ (x3 (nvx t0) == z3 (nvx t0) /\ y3 (nvx t0) == 0 /\ 7 # 10 < x3 (nvx t0))
  /\ nvx t0 = nvx t1 /\ nvz t0 = nvy t1
  /\ tris (c3d_vecnormalavg sqrt_q pow_q (c3d_vecnormalavg sqrt_q pow_q folded)) = out.
Proof. cbv zeta. repeat split; by_evaluation. Qed.

(** ** The driver *)



(** Two updates in a row: the first calls the behaviours 0, 1 and 3
    and leaves the counter at 1, the second calls the behaviour 1 only
    and leaves the counter at 2. *)
Lemma update_twice :
  let update := c3d_update sqrt_q pow_q sqrt_q pow_q tan_q sample_call 4 in
  let calls r := option_map (fun '(d, fr, log) => (frame_count d, map fst log)) r in
  calls (update (driven 0)) = Some (1%Z, [0; 1; 3]%nat)
  /\ calls (match update (driven 0) with
            | Some (d, _, _) => update d
            | None => None
            end) = Some (2%Z, [1%nat]).
Proof. cbv zeta. split; vm_compute; reflexivity. Qed.

(** ** Texture sampling *)

Lemma texsample_absent_witness :
  c3d_texsample no_samples (3 # 4) (1 # 4) = Some (mkvec3 1 1 1).
Proof. apply (texsample_absent no_samples (3 # 4) (1 # 4)). reflexivity. Defined.



(** * More of the code on concrete scenes *)

(** ** Linear algebra and projection *)

(** The weights of the pixel centre (3/2, 3/2) in the triangle
    (0,0), (4,0), (0,4). *)
Lemma edge_weights_barycentric_witness :
  let area := c3d_edge screen0 screen1 screen2 in
  let w0 := c3d_edge screen1 screen2 pixel11 / area in
  let w1 := c3d_edge screen2 screen0 pixel11 / area in
  let w2 := c3d_edge screen0 screen1 pixel11 / area in
  w0 + w1 + w2 == 1
  /\ w0 * x2 screen0 + w1 * x2 screen1 + w2 * x2 screen2 == x2 pixel11
  /\ w0 * y2 screen0 + w1 * y2 screen1 + w2 * y2 screen2 == y2 pixel11.
Proof.
  apply (edge_weights_barycentric screen0 screen1 screen2 pixel11).
  intro H. vm_compute in H. discriminate.
Defined.

(** A scaling by (2, 3, 4): the normal (0, 0, 1) is scaled by 1/4, the
    direction (1, 2, 3) by (2, 3, 4). *)
Lemma invtranspose_keeps_dot_witness :
  c3d_vec3dot (mat3vec3 (c3d_mat4invtranspose3 (c3d_mat4scl 2 3 4)) up)
              (mat4dir (c3d_mat4scl 2 3 4) (mkvec3 1 2 3))
  == c3d_vec3dot up (mkvec3 1 2 3).
Proof.
  apply (invtranspose_keeps_dot (c3d_mat4scl 2 3 4) up (mkvec3 1 2 3)).
  intro H. vm_compute in H. discriminate.
Defined.

(** A scaling after a translation. *)
Lemma mat4mul_composes_witness :
  vec4_eq (c3d_mat4vec4 up (c3d_mat4mul (c3d_mat4scl 2 2 2) (c3d_mat4tra 1 2 3)))
          (c3d_mat4vec4 (c3d_mat4vec3 up (c3d_mat4tra 1 2 3)) (c3d_mat4scl 2 2 2)).
Proof.
  apply (mat4mul_composes (c3d_mat4scl 2 2 2) (c3d_mat4tra 1 2 3) up).
  repeat split; reflexivity.
Defined.

(** A point at distance 5 in front of the sample camera, between the
    near plane at 0.2 and the far plane at 500. *)
Lemma projection_depth_range_witness :
  let cl := c3d_mat4vec4 (mkvec3 0 0 (-5)) (view_projection tan_q sample_cam) in
  (-1 <= z3 (ndc_of cl) <-> fnear sample_cam <= w4 cl)
  /\ (z3 (ndc_of cl) <= 1 <-> w4 cl <= ffar sample_cam).
Proof.
  apply (projection_depth_range tan_q sample_cam (mkvec3 0 0 (-5))).
  - reflexivity.
  - reflexivity.
  - repeat split; reflexivity.
  - by_evaluation.
Defined.

(** The triangle that covers the only cell has a corner in the cube. *)
Lemma ndc_reject_keeps_visible_witness :
  ndc_reject cover0 cover1 cover2 = false.
Proof.
  apply (ndc_reject_keeps_visible cover0 cover1 cover2).
  left. repeat split; by_evaluation.
Defined.

(** The edge of [tri_two_front] from the corner in front of the camera
    to the corner behind it. *)
Lemma nearintersect_symmetric_witness :
  let M := view_projection tan_q sample_cam in
  vex_eq (c3d_nearintersect (corner1 tri_two_front M) (corner2 tri_two_front M))
         (c3d_nearintersect (corner2 tri_two_front M) (corner1 tri_two_front M)).
Proof.
  apply (nearintersect_symmetric
           (corner1 tri_two_front (view_projection tan_q sample_cam))
           (corner2 tri_two_front (view_projection tan_q sample_cam))).
  unfold crosses. vm_compute. discriminate.
Defined.

(** ** The camera *)


(** A frame of 1/60 s with W, O and RETURN pressed: the speed 1/10
    becomes 0. *)
Lemma k_handle_speed_witness :
  let d' := c3d_k_handle sqrt_q pow_q (driven 0) (1 # 60) sample_keys 7 300 1000 in
  0 <= speed (camera d')
  /\ matrot (camera d') = matrot (camera (driven 0))
  /\ fnear (camera d') = fnear (camera (driven 0))
  /\ ffar (camera d') = ffar (camera (driven 0)).
Proof.
  apply (k_handle_speed sqrt_q pow_q (driven 0) (1 # 60) sample_keys 7 300 1000).
  by_evaluation.
Defined.

Lemma k_handle_light_witness :
  let d' := c3d_k_handle sqrt_q pow_q (driven 0) (1 # 60) sample_keys 7 300 1000 in
  exists L,
    lights d' = lights (driven 0) ++ [L]
    /\ vec3_eq (position L) (pos (camera d'))
    /\ in_unit (color L) /\ brightness L = 1 /\ radius L = 5 # 10.
Proof.
  apply (k_handle_light sqrt_q pow_q (driven 0) (1 # 60) sample_keys 7 300 1000);
    lia.
Defined.

(** A console of 125 x 35: the display is 120 x 30 and the aspect 4. *)
Lemma auto_winres_aspect_witness :
  exists d' c',
    c3d_auto_winres strip sample_cam console = Some (d', c')
    /\ display_width d' = 120%Z /\ display_height d' = 30%Z
    /\ aspect c' <= inject_Z 120 / inject_Z 30
    /\ inject_Z 120 / inject_Z 30 < aspect c' + 1
    /\ ((120 < 30)%Z -> aspect c' = 0).
Proof.
  apply (auto_winres_aspect strip sample_cam console); simpl; lia.
Defined.

(** ** Meshes *)

Lemma folded_nonempty : tris folded <> [].
Proof. discriminate. Qed.

(** The mesh of two triangles moved by (1, 2, 3). *)
Lemma meshabs_center_witness :
  vec3_eq (c3d_meshcenter (c3d_meshabs sqrt_q pow_q folded (c3d_mat4tra 1 2 3)))
          (c3d_mat4vec3 (c3d_meshcenter folded) (c3d_mat4tra 1 2 3)).
Proof.
  apply (meshabs_center sqrt_q pow_q folded (c3d_mat4tra 1 2 3)).
  discriminate.
Defined.

(** The mesh of two triangles doubled in size. *)
Lemma meshrel_keeps_center_witness :
  vec3_eq (c3d_meshcenter (c3d_meshrel sqrt_q pow_q folded (c3d_mat4scl 2 2 2)))
          (c3d_meshcenter folded).
Proof.
  apply (meshrel_keeps_center sqrt_q pow_q folded (c3d_mat4scl 2 2 2)).
  - discriminate.
  - repeat split; reflexivity.
Defined.

(** The first corner of the first triangle and the first corner of the
    second are both (0, 0, 0). *)
Lemma vecnormalavg_shared_normal_witness :
  nth 0 (corner_normals (tris (c3d_vecnormalavg sqrt_q pow_q folded))) vec3_0
  = nth 3 (corner_normals (tris (c3d_vecnormalavg sqrt_q pow_q folded))) vec3_0.
Proof.
  apply (vecnormalavg_shared_normal sqrt_q pow_q folded 0 3 (mkvec3 0 0 0));
    reflexivity.
Defined.

(** ** Behaviours *)

(** [scalemesh 0 2 2] has four arguments: the read of args[4] is
    outside them. *)
Lemma behavior_argument_bounds_witness :
  let b := last (behaviors (c3d_behavioradd (driven 0) (Some 4%positive)
                              C3D_CONTINUOUS_BEHAVIOR 4
                              ["scalemesh"; "0"; "2"; "2"]%string))
                (mkbehavior None C3D_CONTINUOUS_BEHAVIOR 0 []) in
  argc b = 4%Z
  /\ List.length (args b) = Z.to_nat 4
  /\ (c3d_behavior_scalemesh sqrt_q pow_q atoi_q atof_q workshop (argc b) (args b)
      = None <-> 4%Z = 4%Z)
  /\ (c3d_behavior_moveto_id sqrt_q pow_q atoi_q atof_q workshop (argc b) (args b)
      = None <-> 4%Z = 5%Z).
Proof.
  apply (behavior_argument_bounds sqrt_q pow_q atoi_q atof_q (driven 0) workshop
           (Some 4%positive) C3D_CONTINUOUS_BEHAVIOR 4
           ["scalemesh"; "0"; "2"; "2"]%string).
  simpl. lia.
Defined.

(** [scalemesh 0 2 3 4] on the mesh of two triangles. *)
Lemma scalemesh_keeps_center_witness :
  exists d' m',
    c3d_behavior_scalemesh sqrt_q pow_q atoi_q atof_q workshop 5
      ["scalemesh"; "0"; "2"; "3"; "4"]%string = Some d'
    /\ nth_error (meshes d') (Z.to_nat (atoi_q "0")) = Some m'
    /\ vec3_eq (c3d_meshcenter m') (c3d_meshcenter folded)
    /\ (forall j, j <> Z.to_nat (atoi_q "0") ->
                  nth_error (meshes d') j = nth_error (meshes workshop) j)
    /\ camera d' = camera workshop /\ lights d' = lights workshop.
Proof.
  apply (scalemesh_keeps_center sqrt_q pow_q atoi_q atof_q workshop 5
           "scalemesh" "0" "2" "3" "4" [] folded).
  - lia.
  - vm_compute. discriminate.
  - reflexivity.
  - discriminate.
Defined.

(** [moveto_id 0 3 0 0 1] on the mesh of two triangles. *)
Lemma moveto_id_moves_center_witness :
  let target := mkvec3 (atof_q "3") (atof_q "0") (atof_q "0") in
  let direction := c3d_vec3normalize sqrt_q pow_q
                     (vec3_sub target (c3d_meshcenter folded)) in
  exists d' m',
    c3d_behavior_moveto_id sqrt_q pow_q atoi_q atof_q workshop 6
      ["moveto_id"; "0"; "3"; "0"; "0"; "1"]%string = Some d'
    /\ nth_error (meshes d') (Z.to_nat (atoi_q "0")) = Some m'
    /\ vec3_eq (c3d_meshcenter m')
               (vec3_add (c3d_meshcenter folded) (vec3_scale direction (atof_q "1")))
    /\ forall j, j <> Z.to_nat (atoi_q "0") ->
                 nth_error (meshes d') j = nth_error (meshes workshop) j.
Proof.
  apply (moveto_id_moves_center sqrt_q pow_q atoi_q atof_q workshop 6
           "moveto_id" "0" "3" "0" "0" "1" [] folded).
  - lia.
  - vm_compute. discriminate.
  - reflexivity.
  - discriminate.
Defined.

(** ** The rasterizer and the frame *)




(** The only cell is drawn: it held INFINITY and gets the depth 0. *)
Lemma rasterize_depth_test_witness :
  let b := one_cell_buffers in
  let b' := match c3d_rasterize sqrt_q pow_q sqrt_q pow_q (one_cell vec3_0 []) b
                                cover0 cover1 cover2 1 1 1 tri_front grey with
            | Some b' => b'
            | None => b
            end in
  (grid_get (buffer b') 0 0 = grid_get (buffer b) 0 0
   /\ grid_get (colorBuffer b') 0 0 = grid_get (colorBuffer b) 0 0
   /\ grid_get (depthBuffer b') 0 0 = grid_get (depthBuffer b) 0 0)
  \/ (grid_get (buffer b') 0 0 = Some C3D_PXCHAR
      /\ (exists r g bl, grid_get (colorBuffer b') 0 0 = Some (RGB r g bl))
      /\ exists z dz,
           grid_get (depthBuffer b') 0 0 = Some (Finite z)
           /\ grid_get (depthBuffer b) 0 0 = Some dz
           /\ depth_lt z dz = true).
Proof.
  cbv zeta.
  apply (rasterize_depth_test sqrt_q pow_q sqrt_q pow_q (one_cell vec3_0 [])
           one_cell_buffers _ cover0 cover1 cover2 1 1 1 tri_front grey).
  vm_compute. reflexivity.
Defined.

Lemma rasterize_depth_range_witness :
  let b := one_cell_buffers in
  let b' := match c3d_rasterize sqrt_q pow_q sqrt_q pow_q (one_cell vec3_0 []) b
                                cover0 cover1 cover2 1 1 1 tri_front grey with
            | Some b' => b'
            | None => b
            end in
  grid_get (depthBuffer b') 0 0 = grid_get (depthBuffer b) 0 0
  \/ exists z, grid_get (depthBuffer b') 0 0 = Some (Finite z) /\ -1 <= z <= 1.
Proof.
  cbv zeta.
  apply (rasterize_depth_range sqrt_q pow_q sqrt_q pow_q (one_cell vec3_0 [])
           one_cell_buffers _ cover0 cover1 cover2 1 1 1 tri_front grey (-1) 1).
  - reflexivity.
  - reflexivity.
  - reflexivity.
  - split; by_evaluation.
  - split; by_evaluation.
  - split; by_evaluation.
  - vm_compute. reflexivity.
Defined.





(** ** The text of a frame *)

Lemma strip_cells (g : grid Z) (a b : Z) (y x c : Z) :
  g = [[a; b]] -> grid_get g y x = Some c -> c = a \/ c = b.
Proof.
  intros -> H. unfold grid_get in H.
  destruct ((y <? 0) || (x <? 0))%Z; [discriminate |].
  destruct (Z.to_nat y) as [| [| n]]; simpl in H; try discriminate.
  destruct (Z.to_nat x) as [| [| [| m]]]; simpl in H; try discriminate;
    inversion H; auto.
Qed.

(** The frame of one row: a red full block and a space. *)
Lemma render_text_shows_frame_witness :
  let out := match c3d_render_text strip strip_buffer strip_colors with
             | Some out => out
             | None => []
             end in
  term_run out term_init
  = mkterm Normal None None (frame_cells strip strip_buffer strip_colors) [].
Proof.
  cbv zeta.
  apply (render_text_shows_frame strip strip_buffer strip_colors).
  - intros y x c H.
    destruct (strip_cells _ _ _ y x c eq_refl H) as [-> | ->];
      vm_compute; discriminate.
  - intros y x wc H.
    destruct (strip_cells _ _ _ y x wc eq_refl H) as [-> | ->];
      split; vm_compute; discriminate.
  - vm_compute. reflexivity.
Defined.

Lemma render_text_fits_witness :
  exists out,
    c3d_render_text strip strip_buffer strip_colors = Some out
    /\ (Z.of_nat (List.length out) < output_elements strip)%Z.
Proof.
  apply (render_text_fits strip strip_buffer strip_colors).
  - repeat split; repeat constructor.
  - repeat split; repeat constructor.
  - simpl. lia.
  - simpl. lia.
  - simpl. lia.
Defined.

(** The display of one cell with a white full block. *)
Lemma render_text_overflow_witness :
  c3d_render_text (one_cell vec3_0 []) [[C3D_PXCHAR]] [[RGB 255 255 255]] = None.
Proof.
  apply (render_text_overflow (one_cell vec3_0 []) C3D_PXCHAR (RGB 255 255 255)).
  - reflexivity.
  - reflexivity.
  - vm_compute. discriminate.
  - vm_compute. discriminate.
  - vm_compute. discriminate.
  - vm_compute. discriminate.
Defined.

(** ** Textures *)


(** ** The line drawer *)

